(** * The Amaal calendar rule expander ([src/lib/expandAmaalEvents.ts])

    A shallow embedding of [expandAmaalEvents] and of the parts of the
    JavaScript runtime and of the luxon library it relies on, followed by
    the properties of the expander.

    Conventions of the embedding:
    - JavaScript numbers that hold day numbers, month lengths and
      millisecond counts are integers ([Z]);
    - strings are byte strings; [normMonth] is modelled on ASCII text;
    - a luxon [DateTime] is its zone name together with the local civil
      day (counted from 1970-01-01) and the milliseconds since local
      midnight, or [Invalid];
    - a plain object with string keys is the finite map of its own
      properties, and a read [obj[key]] that finds no own property goes
      on to the members of [Object.prototype];
    - the time-zone database and the adhan prayer-time computation are
      parameters. *)

From Stdlib Require Import ZArith String Ascii List Lia Bool.
From stdpp Require Import gmap strings list fin_maps list_numbers sorting.

Local Open Scope string_scope.
Local Open Scope list_scope.
Local Open Scope Z_scope.

Set Warnings "-clear-no-such-hyp".

(** * JavaScript values *)

(** A property that may be missing ([undefined]), [null] or present. *)
Inductive Nullish (A : Type) : Type :=
  | Undefined
  | Null
  | Present (a : A).
Arguments Undefined {A}.
Arguments Null {A}.
Arguments Present {A} a.

(** [x ?? null] *)
Definition orNull {A : Type} (x : Nullish A) : Nullish A :=
  match x with
  | Undefined => Null
  | other => other
  end.

(** [a || b] on strings: the empty string is falsy. *)
Definition strOr (a b : string) : string :=
  if String.eqb a "" then b else a.

(** [a || b] where [a] is a possibly undefined string (an array read). *)
Definition optOr (a : option string) (b : option string) : option string :=
  match a with
  | Some s => if String.eqb s "" then b else Some s
  | None => b
  end.

(** [arr[i]] for an integer [i]: [undefined] outside [0 .. length-1]. *)
Definition arrayGet (arr : list string) (i : Z) : option string :=
  if i <? 0 then None else arr !! Z.to_nat i.

(** A value interpolated in a template literal. *)
Definition templ (s : option string) : string :=
  match s with
  | Some t => t
  | None => "null"
  end.

(** ** Plain objects

    An object written as a literal or built by spreading is the finite
    map of its own properties; its prototype is [Object.prototype]. *)

(** The members of [Object.prototype] by name, each with its [length]:
    the number of parameters of a function; [__proto__] reads
    [Object.prototype] itself, an object that has no [length]. *)
Definition objectPrototype : gmap string (option Z) :=
  list_to_map
    [("constructor", Some 1); ("__defineGetter__", Some 2); ("__defineSetter__", Some 2);
     ("hasOwnProperty", Some 1); ("__lookupGetter__", Some 1); ("__lookupSetter__", Some 1);
     ("isPrototypeOf", Some 1); ("propertyIsEnumerable", Some 1); ("toString", Some 0);
     ("valueOf", Some 0); ("toLocaleString", Some 0); ("__proto__", None)].

(** What a read [obj[key]] finds: an own property, a member of
    [Object.prototype], or nothing ([undefined]). *)
Inductive Read (A : Type) : Type :=
  | Own (a : A)
  | Inherited (name : string)
  | Absent.
Arguments Own {A} a.
Arguments Inherited {A} name.
Arguments Absent {A}.

(** [obj[key]] *)
Definition getProperty {A : Type} (obj : gmap string A) (key : string) : Read A :=
  match obj !! key with
  | Some a => Own a
  | None =>
      match objectPrototype !! key with
      | Some _ => Inherited key
      | None => Absent
      end
  end.

(** [f.length] for the member [f] of [Object.prototype] of that name;
    [None] is [undefined]. *)
Definition memberLength (name : string) : option Z :=
  match objectPrototype !! name with
  | Some len => len
  | None => None
  end.

(** A value that is a number or a member of [Object.prototype]. *)
Inductive Value : Type :=
  | Num (n : Z)
  | Member (name : string).

#[global] Instance Value_eq_dec : EqDecision Value.
Proof. solve_decision. Defined.

#[global] Instance Value_countable : Countable Value :=
  inj_countable'
    (fun v => match v with Num n => inl n | Member name => inr name end)
    (fun x => match x with inl n => Num n | inr name => Member name end)
    (fun v => match v with Num _ => eq_refl | Member _ => eq_refl end).

(** ** Decimal rendering of integers *)

Definition digitChars : list ascii :=
  ["0"; "1"; "2"; "3"; "4"; "5"; "6"; "7"; "8"; "9"]%char.

Definition digitChar (n : Z) : ascii :=
  nth (Z.to_nat (n mod 10)) digitChars "0"%char.

Fixpoint digitsFrom (fuel : nat) (n : Z) (acc : string) : string :=
  let acc' := String (digitChar n) acc in
  match fuel with
  | O => acc'
  | S fuel' => if n <? 10 then acc' else digitsFrom fuel' (n / 10) acc'
  end.

(** Decimal digits of [n >= 0]; [n] has at most [log2 n + 1] digits. *)
Definition digits (n : Z) : string :=
  digitsFrom (Z.to_nat (Z.log2 n)) n "".

(** [String(n)] for an integer [n]. *)
Definition numToString (n : Z) : string :=
  if n <? 0 then "-" +:+ digits (- n) else digits n.

Fixpoint zeros (k : nat) : string :=
  match k with
  | O => ""
  | S k' => String "0"%char (zeros k')
  end.

(** luxon's [padStart(n, w)] for [n >= 0]. *)
Definition padStart (n : Z) (w : nat) : string :=
  let s := digits n in
  zeros (w - String.length s) +:+ s.

(** * The luxon model *)

Module Luxon.

(** What the expander needs of the time-zone database. *)
Record ZoneInfo : Type := {
  (** the zone name is a supported zone *)
  zone_valid : string → bool;
  (** the zone is a fixed-offset zone such as [UTC] *)
  zone_fixed : string → bool;
  (** offset from UTC, in minutes, at a local civil day and time *)
  zone_offset_local : string → Z → Z → Z;
  (** offset from UTC, in minutes, at an epoch instant (milliseconds) *)
  zone_offset_utc : string → Z → Z
}.

Inductive DateTime : Type :=
  | Valid (zone : string) (day : Z) (ms : Z)
  | Invalid.

Definition msPerDay : Z := 86400000.

(** ** The proleptic Gregorian calendar *)

(** Days from 1970-01-01 to the civil date [y]-[m]-[d]. *)
Definition days_from_civil (y m d : Z) : Z :=
  let y' := if m <=? 2 then y - 1 else y in
  let era := y' / 400 in
  let yoe := y' - era * 400 in
  let mp := if 2 <? m then m - 3 else m + 9 in
  let doy := (153 * mp + 2) / 5 + d - 1 in
  let doe := yoe * 365 + yoe / 4 - yoe / 100 + doy in
  era * 146097 + doe - 719468.

(** The civil date (year, month, day) of a day number. *)
Definition civil_from_days (z : Z) : Z * Z * Z :=
  let z' := z + 719468 in
  let era := z' / 146097 in
  let doe := z' - era * 146097 in
  let yoe := (doe - doe / 1460 + doe / 36524 - doe / 146096) / 365 in
  let doy := doe - (365 * yoe + yoe / 4 - yoe / 100) in
  let mp := (5 * doy + 2) / 153 in
  let d := doy - (153 * mp + 2) / 5 + 1 in
  let m := if mp <? 10 then mp + 3 else mp - 9 in
  let y := yoe + era * 400 in
  (if m <=? 2 then y + 1 else y, m, d).

Definition isLeapYear (y : Z) : bool :=
  (y mod 4 =? 0) && (negb (y mod 100 =? 0) || (y mod 400 =? 0)).

Definition daysInMonth (y m : Z) : Z :=
  if m =? 2 then (if isLeapYear y then 29 else 28)
  else if (m =? 4) || (m =? 6) || (m =? 9) || (m =? 11) then 30
  else 31.

(** ** Parsing a calendar date *)

Definition digitValue (c : ascii) : option Z :=
  let n := Z.of_nat (nat_of_ascii c) in
  if (48 <=? n) && (n <=? 57) then Some (n - 48) else None.

Fixpoint parseDigits (s : string) (acc : Z) : option Z :=
  match s with
  | EmptyString => Some acc
  | String c rest =>
      match digitValue c with
      | Some v => parseDigits rest (acc * 10 + v)
      | None => None
      end
  end.

(** The calendar-date form [YYYY-MM-DD], the form a month anchor is
    entered in by the page's date input.  The other forms
    [DateTime.fromISO] reads (year and month, basic, ordinal and week
    dates, dates with a time) are not modelled: the properties of dated
    events are stated for an anchor of this form, those of undated
    events for an anchor without a digit, which no form matches. *)
Definition parseISODate (s : string) : option (Z * Z * Z) :=
  if negb (String.length s =? 10)%nat then None
  else if negb (String.eqb (substring 4 1 s) "-" && String.eqb (substring 7 1 s) "-") then None
  else
    match parseDigits (substring 0 4 s) 0,
          parseDigits (substring 5 2 s) 0,
          parseDigits (substring 8 2 s) 0 with
    | Some y, Some m, Some d =>
        if (1 <=? m) && (m <=? 12) && (1 <=? d) && (d <=? daysInMonth y m)
        then Some (y, m, d) else None
    | _, _, _ => None
    end.

(** [DateTime.fromISO(text, { zone })]: the parsed date at local midnight. *)
Definition fromISO (zi : ZoneInfo) (text : string) (zone : string) : DateTime :=
  if zone_valid zi zone then
    match parseISODate text with
    | Some (y, m, d) => Valid zone (days_from_civil y m d) 0
    | None => Invalid
    end
  else Invalid.

(** ** Arithmetic on local time *)

(** [dt.startOf("day")] *)
Definition startOfDay (dt : DateTime) : DateTime :=
  match dt with
  | Valid z day _ => Valid z day 0
  | Invalid => Invalid
  end.

(** [dt.endOf("day")] *)
Definition endOfDay (dt : DateTime) : DateTime :=
  match dt with
  | Valid z day _ => Valid z day (msPerDay - 1)
  | Invalid => Invalid
  end.

(** [dt.plus({ days: n })] *)
Definition plusDays (dt : DateTime) (n : Z) : DateTime :=
  match dt with
  | Valid z day ms => Valid z (day + n) ms
  | Invalid => Invalid
  end.

(** [dt.minus({ days: n })] *)
Definition minusDays (dt : DateTime) (n : Z) : DateTime :=
  match dt with
  | Valid z day ms => Valid z (day - n) ms
  | Invalid => Invalid
  end.

(** [dt.weekday]: 1 is Monday and 7 is Sunday; [None] is [NaN]. *)
Definition weekday (dt : DateTime) : option Z :=
  match dt with
  | Valid _ day _ => Some ((day + 3) mod 7 + 1)
  | Invalid => None
  end.

(** The local civil day of a valid date. *)
Definition civilDay (dt : DateTime) : option Z :=
  match dt with
  | Valid _ day _ => Some day
  | Invalid => None
  end.

(** ** Conversions between zones and instants *)

(** [dt.toJSDate()]: the epoch instant; [None] is an invalid [Date]. *)
Definition toJSDate (zi : ZoneInfo) (dt : DateTime) : option Z :=
  match dt with
  | Valid z day ms =>
      Some (day * msPerDay + ms - zone_offset_local zi z day ms * 60000)
  | Invalid => None
  end.

(** [DateTime.fromJSDate(date).setZone(zone)] *)
Definition fromJSDateIn (zi : ZoneInfo) (date : option Z) (zone : string) : DateTime :=
  match date with
  | Some ts =>
      if zone_valid zi zone then
        let loc := ts + zone_offset_utc zi zone ts * 60000 in
        Valid zone (loc / msPerDay) (loc mod msPerDay)
      else Invalid
  | None => Invalid
  end.

(** [dt.setZone(zone)]: the same instant seen from [zone]. *)
Definition setZone (zi : ZoneInfo) (dt : DateTime) (zone : string) : DateTime :=
  match dt with
  | Valid z day ms =>
      if String.eqb z zone then dt
      else fromJSDateIn zi (toJSDate zi dt) zone
  | Invalid => Invalid
  end.

(** ** ISO 8601 rendering *)

Definition isoYear (y : Z) : string :=
  if (0 <=? y) && (y <=? 9999) then padStart y 4
  else if y <? 0 then "-" +:+ padStart (- y) 6
  else "+" +:+ padStart y 6.

Definition isoDate (day : Z) : string :=
  let '(y, m, d) := civil_from_days day in
  isoYear y +:+ "-" +:+ padStart m 2 +:+ "-" +:+ padStart d 2.

Definition isoTime (ms : Z) : string :=
  padStart (ms / 3600000) 2 +:+ ":" +:+ padStart (ms / 60000 mod 60) 2 +:+ ":"
    +:+ padStart (ms / 1000 mod 60) 2 +:+ "." +:+ padStart (ms mod 1000) 3.

Definition isoOffset (fixed : bool) (o : Z) : string :=
  if fixed && (o =? 0) then "Z"
  else if o <? 0 then
    "-" +:+ padStart (Z.quot (- o) 60) 2 +:+ ":" +:+ padStart (Z.rem (- o) 60) 2
  else
    "+" +:+ padStart (Z.quot o 60) 2 +:+ ":" +:+ padStart (Z.rem o 60) 2.

(** [dt.toISO()]: [None] is the [null] of an invalid date. *)
Definition toISO (zi : ZoneInfo) (dt : DateTime) : option string :=
  match dt with
  | Valid z day ms =>
      Some (isoDate day +:+ "T" +:+ isoTime ms
              +:+ isoOffset (zone_fixed zi z) (zone_offset_local zi z day ms))
  | Invalid => None
  end.

End Luxon.

(** * The data model *)

Module Period.
Inductive t : Type := day | night | day_and_night.
End Period.

Module RuleKind.
Inductive t : Type :=
  | specific
  | range
  | month_all
  | month_any_time
  | weekday
  | weekday_multi
  | night_general
  | unspecified.
End RuleKind.

Module StandardItem.
Record t (Any : Type) : Type := mk {
  id : string;
  hijri_month : string;
  label : string;
  period : Period.t;
  rule_kind : RuleKind.t;
  start_day : option Z;
  end_day : option Z;
  weekdays : option (list string);
  text : string;
  sections : Nullish (gmap string Any)
}.
Arguments mk {Any}.
Arguments id {Any}.
Arguments hijri_month {Any}.
Arguments label {Any}.
Arguments period {Any}.
Arguments rule_kind {Any}.
Arguments start_day {Any}.
Arguments end_day {Any}.
Arguments weekdays {Any}.
Arguments text {Any}.
Arguments sections {Any}.
End StandardItem.

Module StandardAmaal.
Record t (Any : Type) : Type := mk {
  meta : Any;
  items : list (StandardItem.t Any)
}.
Arguments mk {Any}.
Arguments meta {Any}.
Arguments items {Any}.
End StandardAmaal.

Module MonthConfig.
Record t : Type := mk {
  startDateISO : string;
  length : Z
}.
End MonthConfig.

Module Coords.
Record t (number : Type) : Type := mk {
  lat : number;
  lon : number
}.
Arguments mk {number}.
Arguments lat {number}.
Arguments lon {number}.
End Coords.

Module ExpandedEvent.
Record t (Any : Type) : Type := mk {
  id : string;
  title : string;
  startISO : option string;
  endISO : option string;
  allDay : bool;
  description : string;
  sections : Nullish (gmap string Any);
  color : option string
}.
Arguments mk {Any}.
Arguments id {Any}.
Arguments title {Any}.
Arguments startISO {Any}.
Arguments endISO {Any}.
Arguments allDay {Any}.
Arguments description {Any}.
Arguments sections {Any}.
Arguments color {Any}.
End ExpandedEvent.

Module Opts.
Record t (Any number : Type) : Type := mk {
  amaal : StandardAmaal.t Any;
  monthConfigs : gmap string MonthConfig.t;
  timezone : string;
  coords : Coords.t number
}.
Arguments mk {Any number}.
Arguments amaal {Any number}.
Arguments monthConfigs {Any number}.
Arguments timezone {Any number}.
Arguments coords {Any number}.
End Opts.

(** * Month-name normalisation *)

(** The white space of [\s] and of [trim], on ASCII text. *)
Definition isSpace (c : ascii) : bool :=
  let n := nat_of_ascii c in
  ((n =? 32) || ((9 <=? n) && (n <=? 13)))%nat.

Fixpoint trimStart (s : string) : string :=
  match s with
  | EmptyString => EmptyString
  | String c rest => if isSpace c then trimStart rest else s
  end.

Fixpoint trimEnd (s : string) : string :=
  match s with
  | EmptyString => EmptyString
  | String c rest =>
      let rest' := trimEnd rest in
      if isSpace c && String.eqb rest' "" then EmptyString else String c rest'
  end.

Definition trim (s : string) : string := trimEnd (trimStart s).

Definition lowerChar (c : ascii) : ascii :=
  let n := nat_of_ascii c in
  if ((65 <=? n) && (n <=? 90))%nat then ascii_of_nat (n + 32) else c.

Fixpoint mapChars (f : ascii → ascii) (s : string) : string :=
  match s with
  | EmptyString => EmptyString
  | String c rest => String (f c) (mapChars f rest)
  end.

Definition toLowerCase (s : string) : string := mapChars lowerChar s.

(** [replace(/['']/g, "'")] *)
Definition replaceQuotes (s : string) : string :=
  mapChars (fun c => if Ascii.eqb c "'"%char then "'"%char else c) s.

(** [replace(/\s+/g, " ")]: [inRun] tells that the previous character was
    white space, already replaced. *)
Fixpoint collapseSpaces (inRun : bool) (s : string) : string :=
  match s with
  | EmptyString => EmptyString
  | String c rest =>
      if isSpace c then
        if inRun then collapseSpaces true rest
        else String " "%char (collapseSpaces true rest)
      else String c (collapseSpaces false rest)
  end.

Definition normMonth (s : string) : string :=
  collapseSpaces false (replaceQuotes (toLowerCase (trim s))).

(** * The expander *)

Definition weekdayMap : gmap string Z :=
  <["MON" := 1]> (<["TUE" := 2]> (<["WED" := 3]> (<["THU" := 4]>
    (<["FRI" := 5]> (<["SAT" := 6]> (<["SUN" := 7]> ∅)))))).

(** [map[weekday] ?? 0]: a member of [Object.prototype] is not nullish
    and is returned as it is. *)
Definition weekdayToLuxon (weekday : string) : Value :=
  match getProperty weekdayMap weekday with
  | Own n => Num n
  | Inherited name => Member name
  | Absent => Num 0
  end.

(** The ordinal of a day number: [n + (s[(v - 20) % 10] || s[v] || s[0])];
    [%] is the truncating remainder. *)
Definition getOrdinal (n : Z) : string :=
  let s := ["th"; "st"; "nd"; "rd"] in
  let v := Z.rem n 100 in
  numToString n +:+
    templ (optOr (optOr (arrayGet s (Z.rem (v - 20) 10)) (arrayGet s v)) (arrayGet s 0)).

(** [for (let d = lo; d <= hi; d++) body], threading the [events] array. *)
Definition forDays {E : Type} (lo hi : Z) (body : Z → list E → list E) (events : list E) : list E :=
  foldl (fun evs d => body d evs) events (seqZ lo (hi + 1 - lo)).

Section Expander.

Context {Any number : Type}.

(** The time-zone database. *)
Variable zi : Luxon.ZoneInfo.

(** adhan: [new PrayerTimes(new Coordinates(lat, lon), dateJS,
    CalculationMethod.Tehran())], read at [fajr] and [maghrib]; dates
    are epoch instants, [None] an invalid [Date]. *)
Variable adhanPrayerTimes : number → number → option Z → option Z * option Z.

Local Abbreviation Item := (StandardItem.t Any).
Local Abbreviation Event := (ExpandedEvent.t Any).
Local Abbreviation Options := (Opts.t Any number).

Definition hijriDayToGregorian (cfg : MonthConfig.t) (hijriDay : Z) (tz : string) : Luxon.DateTime :=
  Luxon.plusDays
    (Luxon.startOfDay (Luxon.fromISO zi (MonthConfig.startDateISO cfg) tz))
    (hijriDay - 1).

Definition getPrayerTimesAccurate (gregDate : Luxon.DateTime) (tz : string)
    (coords : Coords.t number) : Luxon.DateTime * Luxon.DateTime :=
  let dateJS := Luxon.toJSDate zi (Luxon.setZone zi gregDate tz) in
  let pt := adhanPrayerTimes (Coords.lat coords) (Coords.lon coords) dateJS in
  let fajr := Luxon.fromJSDateIn zi (fst pt) tz in
  let maghrib := Luxon.fromJSDateIn zi (snd pt) tz in
  (fajr, maghrib).

(** [target.has(g.weekday)]: the weekday is a number or, for an invalid
    date, [NaN], which [weekdayToLuxon] never returns. *)
Definition targetHas (target : gset Value) (wd : option Z) : bool :=
  match wd with
  | Some w => bool_decide (Num w ∈ target)
  | None => false
  end.

Definition monthWideEvent (item : Item) (cfg : MonthConfig.t) (tz : string) : Event :=
  let start := hijriDayToGregorian cfg 1 tz in
  let endExclusive :=
    Luxon.plusDays (hijriDayToGregorian cfg (MonthConfig.length cfg) tz) 1 in
  {| ExpandedEvent.id := StandardItem.id item;
     ExpandedEvent.title := strOr (StandardItem.label item) (StandardItem.hijri_month item);
     ExpandedEvent.startISO := Luxon.toISO zi start;
     ExpandedEvent.endISO := Luxon.toISO zi endExclusive;
     ExpandedEvent.allDay := true;
     ExpandedEvent.description := StandardItem.text item;
     ExpandedEvent.sections := orNull (StandardItem.sections item);
     ExpandedEvent.color := Some "#8b5cf6" |}.

Definition weekdayEvent (item : Item) (cfg : MonthConfig.t) (tz : string)
    (coords : Coords.t number) (d : Z) : Event :=
  let g := hijriDayToGregorian cfg d tz in
  let '(fajr, maghrib) := getPrayerTimesAccurate g tz coords in
  {| ExpandedEvent.id := StandardItem.id item +:+ "_d" +:+ numToString d;
     ExpandedEvent.title := strOr (StandardItem.label item) (getOrdinal d +:+ " Day");
     ExpandedEvent.startISO := Luxon.toISO zi fajr;
     ExpandedEvent.endISO := Luxon.toISO zi maghrib;
     ExpandedEvent.allDay := false;
     ExpandedEvent.description := StandardItem.text item;
     ExpandedEvent.sections := orNull (StandardItem.sections item);
     ExpandedEvent.color := Some "#059669" |}.

Definition nightEvent (item : Item) (cfg : MonthConfig.t) (tz : string) (d : Z) : Event :=
  let gDay := hijriDayToGregorian cfg d tz in
  let eveDay := Luxon.minusDays gDay 1 in
  {| ExpandedEvent.id := StandardItem.id item +:+ "_night_" +:+ numToString d;
     ExpandedEvent.title := strOr (StandardItem.label item) (getOrdinal d +:+ " Night");
     ExpandedEvent.startISO := Luxon.toISO zi (Luxon.startOfDay eveDay);
     ExpandedEvent.endISO := Luxon.toISO zi (Luxon.endOfDay eveDay);
     ExpandedEvent.allDay := true;
     ExpandedEvent.description := StandardItem.text item;
     ExpandedEvent.sections := orNull (StandardItem.sections item);
     ExpandedEvent.color := Some "#2563eb" |}.

Definition dayEvent (item : Item) (cfg : MonthConfig.t) (tz : string)
    (coords : Coords.t number) (d : Z) : Event :=
  let gDay := hijriDayToGregorian cfg d tz in
  let '(fajr, maghrib) := getPrayerTimesAccurate gDay tz coords in
  {| ExpandedEvent.id := StandardItem.id item +:+ "_day_" +:+ numToString d;
     ExpandedEvent.title := strOr (StandardItem.label item) (getOrdinal d +:+ " Day");
     ExpandedEvent.startISO := Luxon.toISO zi fajr;
     ExpandedEvent.endISO := Luxon.toISO zi maghrib;
     ExpandedEvent.allDay := false;
     ExpandedEvent.description := StandardItem.text item;
     ExpandedEvent.sections := orNull (StandardItem.sections item);
     ExpandedEvent.color := Some "#059669" |}.

Definition allDayEvent (item : Item) (cfg : MonthConfig.t) (tz : string) (d : Z) : Event :=
  let gDay := hijriDayToGregorian cfg d tz in
  {| ExpandedEvent.id := StandardItem.id item +:+ "_allday_" +:+ numToString d;
     ExpandedEvent.title := strOr (StandardItem.label item) (getOrdinal d +:+ " Day");
     ExpandedEvent.startISO := Luxon.toISO zi (Luxon.startOfDay gDay);
     ExpandedEvent.endISO := Luxon.toISO zi (Luxon.startOfDay (Luxon.plusDays gDay 1));
     ExpandedEvent.allDay := true;
     ExpandedEvent.description := StandardItem.text item;
     ExpandedEvent.sections := orNull (StandardItem.sections item);
     ExpandedEvent.color := Some "#8b5cf6" |}.

(** [Math.max(1, Math.min(sd, monthLen))] *)
Definition resolveStartDay (sd monthLen : Z) : Z :=
  Z.max 1 (Z.min sd monthLen).

(** [item.end_day == null ? monthLen
     : Math.max(startDay, Math.min(item.end_day, monthLen))] *)
Definition resolveEndDay (end_day : option Z) (startDay monthLen : Z) : Z :=
  match end_day with
  | None => monthLen
  | Some ed => Z.max startDay (Z.min ed monthLen)
  end.

(** What the turn reads from [cfg] when [cfg] is a function [f] of
    [Object.prototype]: [f.length] is the number [n] of its parameters,
    [f.startDateISO] is [undefined], and [DateTime.fromISO(undefined)] is
    the invalid date that [DateTime.fromISO("")] is. *)
Definition memberConfig (n : Z) : MonthConfig.t := MonthConfig.mk "" n.

(** A turn of [for (const item of amaal.items)] after [if (!cfg) continue],
    for a [cfg] with a string [startDateISO] and a number [length]: the
    [events] array after the turn, from the array before it. *)
Definition expandConfigured (opts : Options) (item : Item) (cfg : MonthConfig.t)
    (events : list Event) : list Event :=
  let tz := Opts.timezone opts in
  let coords := Opts.coords opts in
  let monthLen := MonthConfig.length cfg in
  match StandardItem.rule_kind item with
  | RuleKind.month_all | RuleKind.month_any_time =>
      events ++ [monthWideEvent item cfg tz]
  | RuleKind.weekday | RuleKind.weekday_multi =>
      let weekdays := default [] (StandardItem.weekdays item) in
      let target : gset Value := list_to_set (weekdayToLuxon <$> weekdays) in
      forDays (E:=Event) 1 monthLen
        (fun d evs =>
           let g := hijriDayToGregorian cfg d tz in
           if negb (targetHas target (Luxon.weekday g)) then evs
           else evs ++ [weekdayEvent item cfg tz coords d])
        events
  | _ =>
      match StandardItem.start_day item with
      | None => events
      | Some sd =>
          if sd =? 0 then events
          else
            let startDay := resolveStartDay sd monthLen in
            let endDay := resolveEndDay (StandardItem.end_day item) startDay monthLen in
            match StandardItem.period item with
            | Period.night =>
                forDays (E:=Event) startDay endDay
                  (fun d evs => evs ++ [nightEvent item cfg tz d]) events
            | Period.day =>
                forDays (E:=Event) startDay endDay
                  (fun d evs => evs ++ [dayEvent item cfg tz coords d]) events
            | Period.day_and_night =>
                forDays (E:=Event) startDay endDay
                  (fun d evs => evs ++ [allDayEvent item cfg tz d]) events
            end
      end
  end.

(** One turn of [for (const item of amaal.items)].  The read
    [monthConfigs[normMonth(item.hijri_month)]] finds the configuration
    of the month, or nothing, and the rule is skipped; or, for a month
    named as a member of [Object.prototype], that member, which is
    truthy, and the turn goes on.  With [Object.prototype] itself for
    [cfg] ([__proto__]), [monthLen] is [undefined]: no comparison
    [d <= monthLen] or [d <= endDay] holds and only a month-wide rule
    pushes an event, with the invalid dates of [memberConfig]. *)
Definition expandItem (opts : Options) (item : Item) (events : list Event) : list Event :=
  match getProperty (Opts.monthConfigs opts) (normMonth (StandardItem.hijri_month item)) with
  | Absent => events
  | Own cfg => expandConfigured opts item cfg events
  | Inherited name =>
      match memberLength name with
      | Some n => expandConfigured opts item (memberConfig n) events
      | None =>
          match StandardItem.rule_kind item with
          | RuleKind.month_all | RuleKind.month_any_time =>
              events ++ [monthWideEvent item (memberConfig 0) (Opts.timezone opts)]
          | _ => events
          end
      end
  end.

(** The key of the duplicate filter:
    [`${ev.title}|${ev.startISO}|${ev.endISO}`]. *)
Definition eventKey (ev : Event) : string :=
  ExpandedEvent.title ev +:+ "|" +:+ templ (ExpandedEvent.startISO ev)
    +:+ "|" +:+ templ (ExpandedEvent.endISO ev).

(** [events.filter(...)] with the [seen] set it updates. *)
Fixpoint filterSeen (seen : gset string) (events : list Event) : list Event :=
  match events with
  | [] => []
  | ev :: rest =>
      let key := eventKey ev in
      if bool_decide (key ∈ seen) then filterSeen seen rest
      else ev :: filterSeen ({[key]} ∪ seen) rest
  end.

(** The [events] array after the loop over the items. *)
Definition collectEvents (opts : Options) : list Event :=
  foldl (fun evs item => expandItem opts item evs) []
    (StandardAmaal.items (Opts.amaal opts)).

Definition expandAmaalEvents (opts : Options) : list Event :=
  let events := collectEvents opts in
  let uniqueEvents := filterSeen ∅ events in
  uniqueEvents.

(** What one rule pushes: its turn of the loop from an empty array. *)
Definition emitted (opts : Options) (item : Item) : list Event :=
  expandItem opts item [].

(** The event of lunar day [d] on the default path, by period. *)
Definition periodEvent (opts : Options) (item : Item) (cfg : MonthConfig.t) (d : Z) : Event :=
  match StandardItem.period item with
  | Period.night => nightEvent item cfg (Opts.timezone opts) d
  | Period.day => dayEvent item cfg (Opts.timezone opts) (Opts.coords opts) d
  | Period.day_and_night => allDayEvent item cfg (Opts.timezone opts) d
  end.

(** The weekday numbers a weekday rule asks for. *)
Definition weekdayTarget (item : Item) : gset Value :=
  list_to_set (weekdayToLuxon <$> default [] (StandardItem.weekdays item)).

End Expander.

(** * Parameters of the scenarios *)

(** A time-zone database that knows Asia/Qatar (UTC+3, no daylight saving)
    and UTC. *)
Definition qatarZones : Luxon.ZoneInfo :=
  {| Luxon.zone_valid := fun z => String.eqb z "Asia/Qatar" || String.eqb z "UTC";
     Luxon.zone_fixed := fun z => String.eqb z "UTC";
     Luxon.zone_offset_local := fun z _ _ => if String.eqb z "Asia/Qatar" then 180 else 0;
     Luxon.zone_offset_utc := fun z _ => if String.eqb z "Asia/Qatar" then 180 else 0 |}.

(** Prayer times at fixed hours after the date handed over. *)
Definition sampleAdhan (lat lon : Z) (dateJS : option Z) : option Z * option Z :=
  ((fun t => t + 5 * 3600000) <$> dateJS, (fun t => t + 18 * 3600000) <$> dateJS).

Definition sampleItem (id month label : string) (p : Period.t) (k : RuleKind.t)
    (sd ed : option Z) (wds : option (list string)) : StandardItem.t unit :=
  StandardItem.mk id month label p k sd ed wds "" Undefined.

Definition sampleOpts (cfgs : gmap string MonthConfig.t)
    (items : list (StandardItem.t unit)) : Opts.t unit Z :=
  Opts.mk (StandardAmaal.mk tt items) cfgs "Asia/Qatar" (Coords.mk 25 51).

(** The anchor of the scenarios: Ramadan starts on 2024-03-11 and has 30 days. *)
Definition ramadan30 : gmap string MonthConfig.t :=
  {[ "ramadan" := MonthConfig.mk "2024-03-11" 30 ]}.

Definition ramadan29 : gmap string MonthConfig.t :=
  {[ "ramadan" := MonthConfig.mk "2024-03-11" 29 ]}.

(** [opts] with another list of rules. *)
Definition withItems {Any number : Type} (opts : Opts.t Any number)
    (items : list (StandardItem.t Any)) : Opts.t Any number :=
  Opts.mk (StandardAmaal.mk (StandardAmaal.meta (Opts.amaal opts)) items)
    (Opts.monthConfigs opts) (Opts.timezone opts) (Opts.coords opts).

(** The composite (title, start instant, end instant) of an event. *)
Definition triple {Any : Type} (ev : ExpandedEvent.t Any) : string * option string * option string :=
  (ExpandedEvent.title ev, ExpandedEvent.startISO ev, ExpandedEvent.endISO ev).

(** The suffix of an ordinal, in the words of the specification. *)
Definition ordinalSuffix (n : Z) : string :=
  if (11 <=? n mod 100) && (n mod 100 <=? 13) then "th"
  else if n mod 10 =? 1 then "st"
  else if n mod 10 =? 2 then "nd"
  else if n mod 10 =? 3 then "rd"
  else "th".

(** The rule kinds of the default path. *)
Definition defaultPath (k : RuleKind.t) : bool :=
  match k with
  | RuleKind.specific | RuleKind.range | RuleKind.night_general | RuleKind.unspecified => true
  | _ => false
  end.

Definition monthWide (k : RuleKind.t) : bool :=
  match k with
  | RuleKind.month_all | RuleKind.month_any_time => true
  | _ => false
  end.

Definition weekdayKind (k : RuleKind.t) : bool :=
  match k with
  | RuleKind.weekday | RuleKind.weekday_multi => true
  | _ => false
  end.

(** The colour of a rule's events as a function of its kind and period. *)
Definition categoryColor (k : RuleKind.t) (p : Period.t) : string :=
  if monthWide k then "#8b5cf6"
  else if weekdayKind k then "#059669"
  else match p with
       | Period.night => "#2563eb"
       | Period.day => "#059669"
       | Period.day_and_night => "#8b5cf6"
       end.

(** The characters of an ISO 8601 text. *)
Definition isoChar (c : ascii) : bool :=
  match Luxon.digitValue c with
  | Some _ => true
  | None =>
      Ascii.eqb c "-" || Ascii.eqb c "+" || Ascii.eqb c ":" || Ascii.eqb c "."
      || Ascii.eqb c "T" || Ascii.eqb c "Z"
  end.

Fixpoint allChars (p : ascii → bool) (s : string) : bool :=
  match s with
  | EmptyString => true
  | String c rest => p c && allChars p rest
  end.

(** What [toISO] returns: [null] or an ISO 8601 text. *)
Definition isoText (o : option string) : Prop :=
  match o with
  | None => True
  | Some s => allChars isoChar s = true
  end.

(** The civil day of lunar day 1, when the anchor of the month is a date. *)
Definition anchorDay (zi : Luxon.ZoneInfo) (cfg : MonthConfig.t) (tz : string) : option Z :=
  Luxon.civilDay (Luxon.fromISO zi (MonthConfig.startDateISO cfg) tz).

(** A text without a digit, such as the empty anchor of a month of
    which only the length was chosen: no ISO 8601 form matches it. *)
Definition digitFree (s : string) : bool :=
  allChars (fun c => match Luxon.digitValue c with Some _ => false | None => true end) s.

(** The weekday codes [weekdayToLuxon] knows. *)
Definition weekdayCodes : list string :=
  ["MON"; "TUE"; "WED"; "THU"; "FRI"; "SAT"; "SUN"].

(** The reading of the colour rule with four distinct hues: one for the
    month-wide rules and, on the default path, one for each of the day,
    night and remaining periods. *)
Definition fourDistinctHues : Prop :=
  ∃ hMonth hDay hNight hGeneric : string,
    (hMonth ≠ hDay ∧ hMonth ≠ hNight ∧ hMonth ≠ hGeneric
     ∧ hDay ≠ hNight ∧ hDay ≠ hGeneric ∧ hNight ≠ hGeneric)
    ∧ ∀ (cfgs : gmap string MonthConfig.t) (item : StandardItem.t unit) (ev : ExpandedEvent.t unit),
        weekdayKind (StandardItem.rule_kind item) = false →
        ev ∈ emitted qatarZones sampleAdhan (sampleOpts cfgs [item]) item →
        ExpandedEvent.color ev
        = Some (if monthWide (StandardItem.rule_kind item) then hMonth
                else match StandardItem.period item with
                     | Period.day => hDay
                     | Period.night => hNight
                     | Period.day_and_night => hGeneric
                     end).

Definition noBar (c : ascii) : bool := negb (Ascii.eqb c "|").

(** * The pages: month configuration ([src/app/page.tsx] and its variant) *)

(** The page's own [normMonth]: it does not collapse white space. *)
Definition pageNormMonth (s : string) : string :=
  replaceQuotes (toLowerCase (trim s)).

(** The month names the page offers (the full list of the variant). *)
Definition HIJRI_MONTHS : list string :=
  ["Muharram"; "Safar"; "Rabi al-Awwal"; "Rabi al-Thani";
   "Jumada al-Awwal"; "Jumada al-Thani"; "Rajab"; "Shabaan";
   "Ramadan"; "Shawwal"; "Dhul Qa'dah"; "Dhul Hijjah"].

(** A [Partial<MonthConfig>]: each property present or not. *)
Module MonthPatch.
Record t : Type := mk {
  startDateISO : option string;
  length : option Z
}.
End MonthPatch.

(** [{ ...cur, ...patch }] *)
Definition applyPatch (cur : MonthConfig.t) (patch : MonthPatch.t) : MonthConfig.t :=
  MonthConfig.mk
    (default (MonthConfig.startDateISO cur) (MonthPatch.startDateISO patch))
    (default (MonthConfig.length cur) (MonthPatch.length patch)).

(** The state update of [updateMonth]: the next [configs] from [prev]. *)
Definition updateMonth (month : string) (patch : MonthPatch.t)
    (prev : gmap string MonthConfig.t) : gmap string MonthConfig.t :=
  let key := pageNormMonth month in
  let cur := default (MonthConfig.mk "" 30) (prev !! key) in
  <[key := applyPatch cur patch]> prev.

(** Texts on which white-space collapsing changes nothing: every white
    space is one space character, not next to another; [inRun] tells that
    the previous character was white space. *)
Fixpoint collapsed (inRun : bool) (s : string) : bool :=
  match s with
  | EmptyString => true
  | String c rest =>
      if isSpace c then Ascii.eqb c " " && negb inRun && collapsed true rest
      else collapsed false rest
  end.

(** Texts that do not start with white space. *)
Definition startsClean (s : string) : bool :=
  match s with
  | EmptyString => true
  | String c _ => negb (isSpace c)
  end.

(** Texts that do not end with white space. *)
Fixpoint endsClean (s : string) : bool :=
  match s with
  | EmptyString => true
  | String c rest => endsClean rest && (negb (isSpace c) || negb (String.eqb rest ""))
  end.

(** * The page: event colours ([src/app/page.tsx]) *)

(** [\d] *)
Definition isDigit (c : ascii) : bool :=
  let n := nat_of_ascii c in ((48 <=? n) && (n <=? 57))%nat.

(** [\w]: a letter, a digit or the underscore. *)
Definition isWordChar (c : ascii) : bool :=
  let n := nat_of_ascii c in
  (((48 <=? n) && (n <=? 57)) || ((65 <=? n) && (n <=? 90))
   || ((97 <=? n) && (n <=? 122)) || (n =? 95))%nat.

(** A literal word at the head of the text, letters compared without case
    (the [i] flag); the rest of the text when it is there. *)
Fixpoint literalNoCase (word : string) (s : string) : option string :=
  match word with
  | EmptyString => Some s
  | String w word' =>
      match s with
      | EmptyString => None
      | String c rest =>
          if Ascii.eqb (lowerChar c) (lowerChar w) then literalNoCase word' rest else None
      end
  end.

(** [\b] between the character before and the text that follows. *)
Definition wordBoundary (prev : option ascii) (s : string) : bool :=
  let before := match prev with Some c => isWordChar c | None => false end in
  let after := match s with String c _ => isWordChar c | EmptyString => false end in
  negb (Bool.eqb before after).

(** [word\b] at the head of the text: the word, then a word boundary. *)
Definition wordThenBoundary (word : string) (last : ascii) (s : string) : bool :=
  match literalNoCase word s with
  | Some rest => wordBoundary (Some last) rest
  | None => false
  end.

(** [\s+word\b] at the head of the text: one or more white spaces, any
    number of them, then the word and a word boundary. *)
Fixpoint spacesThenWord (word : string) (last : ascii) (s : string) : bool :=
  match s with
  | EmptyString => false
  | String c rest =>
      isSpace c && (wordThenBoundary word last rest || spacesThenWord word last rest)
  end.

(** [(st|nd|rd|th)\s+word\b] at the head of the text. *)
Definition suffixThenWord (word : string) (last : ascii) (s : string) : bool :=
  existsb
    (fun suffix =>
       match literalNoCase suffix s with
       | Some rest => spacesThenWord word last rest
       | None => false
       end)
    ["st"; "nd"; "rd"; "th"].

(** [\b\d{1,2}(st|nd|rd|th)\s+word\b] matched from the head of the text,
    [prev] being the character before it. *)
Definition ordinalHere (word : string) (last : ascii) (prev : option ascii) (s : string) : bool :=
  match s with
  | String d1 rest1 =>
      isDigit d1 && wordBoundary prev s
      && (suffixThenWord word last rest1
          || match rest1 with
             | String d2 rest2 => isDigit d2 && suffixThenWord word last rest2
             | EmptyString => false
             end)
  | EmptyString => false
  end.

(** [/\b\d{1,2}(st|nd|rd|th)\s+word\b/i.test(s)]: a match from some
    position of the text. *)
Fixpoint ordinalTest (word : string) (last : ascii) (prev : option ascii) (s : string) : bool :=
  ordinalHere word last prev s
  || match s with
     | String c rest => ordinalTest word last (Some c) rest
     | EmptyString => false
     end.

(** [s.includes(needle)] *)
Fixpoint includes (needle : string) (s : string) : bool :=
  String.prefix needle s
  || match s with
     | String _ rest => includes needle rest
     | EmptyString => false
     end.

Definition pickEventColor (title : string) (fallback : option string) : string :=
  let t := trim (toLowerCase title) in
  if ordinalTest "day" "y" None title then "#059669"
  else if ordinalTest "night" "t" None title then "#2563eb"
  else if includes "friday" t && includes "morning" t
          && (includes "quran" t || includes "qur'an" t) then "#059669"
  else if includes "thursday" t && includes "night" t
          && (includes "quran" t || includes "qur'an" t) then "#2563eb"
  else if includes "every day" t then "#059669"
  else if includes "every night" t then "#2563eb"
  else match fallback with
       | Some f => if String.eqb f "" then "#e69b00" else f
       | None => "#e69b00"
       end.

(** The colour the other page gives an event: [e.color || '#6366f1']. *)
Definition calendarColor {Any : Type} (e : ExpandedEvent.t Any) : string :=
  match ExpandedEvent.color e with
  | Some c => if String.eqb c "" then "#6366f1" else c
  | None => "#6366f1"
  end.

(** * The page: nested bullets ([renderNestedBullets]) *)

Module Bullet.
Record t : Type := mk {
  level : Z;
  text : string
}.
End Bullet.

(** A node object: a bullet with its level clamped and its children, which
    are references to other node objects. *)
Module BulletNode.
Record t : Type := mk {
  level : Z;
  text : string;
  children : list nat
}.
End BulletNode.

Set Warnings "-register-all".

(** What [renderList] draws for a node: its marker, its text and the
    nested list of its children. *)
Inductive Rendered : Type :=
  | Entry (marker : string) (text : string) (nested : list Rendered).

(** [b && b.text && b.text.trim().length > 0] *)
Definition validBullet (b : Bullet.t) : bool :=
  negb (String.eqb (Bullet.text b) "")
  && (0 <? String.length (trim (Bullet.text b)))%nat.

(** [Math.max(1, b.level || 1)] *)
Definition bulletLevel (b : Bullet.t) : Z :=
  Z.max 1 (if Bullet.level b =? 0 then 1 else Bullet.level b).

(** [while (stack.length > lvl) stack.pop()], one turn per unit of fuel;
    the stack is in array order, its top last. *)
Fixpoint popWhile (fuel : nat) (lvl : Z) (stack : list nat) : list nat :=
  match fuel with
  | O => stack
  | S fuel' =>
      if lvl <? Z.of_nat (length stack) then popWhile fuel' lvl (removelast stack)
      else stack
  end.

(** [n.children.push(node)] *)
Definition pushChild (node : nat) (n : BulletNode.t) : BulletNode.t :=
  BulletNode.mk (BulletNode.level n) (BulletNode.text n) (BulletNode.children n ++ [node]).

(** One turn of [for (const b of validBullets)]: the objects allocated so
    far (an object is its position in [heap]; the root is object 0) and
    the stack, after the turn. *)
Definition pushBullet (st : list BulletNode.t * list nat) (b : Bullet.t)
    : list BulletNode.t * list nat :=
  let '(heap, stack) := st in
  let node := length heap in
  let lvl := bulletLevel b in
  let heap1 := heap ++ [BulletNode.mk lvl (Bullet.text b) []] in
  let stack1 := popWhile (length stack) lvl stack in
  let stack2 := if (length stack1 =? 0)%nat then stack1 ++ [0%nat] else stack1 in
  let heap2 := alter (pushChild node) (default 0%nat (last stack2)) heap1 in
  (heap2, stack2 ++ [node]).

(** The objects and the stack after the loop. *)
Definition buildBulletTree (validBullets : list Bullet.t) : list BulletNode.t * list nat :=
  foldl pushBullet ([BulletNode.mk 0 "" []], [0%nat]) validBullets.

Definition markerFor (level : Z) : string :=
  if level =? 1 then "●" else if level =? 2 then "○" else "■".

(** [renderList(nodes)]; the recursion follows the children, and [fuel]
    bounds its depth. *)
Fixpoint renderList (fuel : nat) (heap : list BulletNode.t) (nodes : list nat) : list Rendered :=
  match fuel with
  | O => []
  | S fuel' =>
      nodes ≫= fun a =>
        match heap !! a with
        | Some n =>
            [Entry (markerFor (BulletNode.level n)) (BulletNode.text n)
               (renderList fuel' heap (BulletNode.children n))]
        | None => []
        end
  end.

(** [renderNestedBullets(bullets)]; [None] is [null]. *)
Definition renderNestedBullets (bullets : option (list Bullet.t)) : option (list Rendered) :=
  match bullets with
  | None => None
  | Some bs =>
      if (length bs =? 0)%nat then None
      else
        let validBullets := List.filter validBullet bs in
        if (length validBullets =? 0)%nat then None
        else
          let '(heap, _) := buildBulletTree validBullets in
          match heap !! 0%nat with
          | Some root => Some (renderList (length heap) heap (BulletNode.children root))
          | None => None
          end
  end.

(** The entries of a rendered list from top to bottom, each with its
    nesting depth. *)
Fixpoint entriesOf (depth : Z) (r : Rendered) : list (Z * string * string) :=
  match r with
  | Entry marker text nested => (depth, marker, text) :: flat_map (entriesOf (depth + 1)) nested
  end.

(** The nesting depth of each bullet, from the depth of the bullet before
    it: a bullet is nested one deeper than the previous one at most, and
    no deeper than its level. *)
Fixpoint bulletDepths (prev : Z) (bs : list Bullet.t) : list Z :=
  match bs with
  | [] => []
  | b :: rest =>
      let d := Z.min (bulletLevel b) (prev + 1) in
      d :: bulletDepths d rest
  end.

(** The objects reached from [nodes], in the order [renderList] draws
    them, each with its nesting depth. *)
Fixpoint visit (fuel : nat) (heap : list BulletNode.t) (depth : Z) (nodes : list nat)
    : list (Z * nat) :=
  match fuel with
  | O => []
  | S fuel' =>
      nodes ≫= fun a =>
        match heap !! a with
        | Some n => (depth, a) :: visit fuel' heap (depth + 1) (BulletNode.children n)
        | None => []
        end
  end.

(** The children of an object come after it and are allocated. *)
Definition wfHeap (heap : list BulletNode.t) : Prop :=
  ∀ a n, heap !! a = Some n →
    Forall (fun c => (a < c < length heap)%nat) (BulletNode.children n).

(** Each object of the path is the last child of the one before it. *)
Definition linked (heap : list BulletNode.t) (path : list nat) : Prop :=
  ∀ i a b, path !! i = Some a → path !! S i = Some b →
    ∃ n cs, heap !! a = Some n ∧ BulletNode.children n = cs ++ [b].

(** The marker and the text drawn for a visited object. *)
Definition decorate (heap : list BulletNode.t) (e : Z * nat) : Z * string * string :=
  match heap !! e.2 with
  | Some n => (e.1, markerFor (BulletNode.level n), BulletNode.text n)
  | None => (e.1, "", "")
  end.

(** What a turn of the loop keeps true, [bs] being the bullets seen. *)
Definition bulletInv (bs : list Bullet.t) (st : list BulletNode.t * list nat) : Prop :=
  let '(heap, stack) := st in
  length heap = S (length bs)
  ∧ wfHeap heap
  ∧ linked heap stack
  ∧ stack !! 0%nat = Some 0%nat
  ∧ (∀ a, a ∈ stack → (a < length heap)%nat)
  ∧ visit (length heap) heap 0 [0%nat]
    = (0, 0%nat) :: zip (bulletDepths 0 bs) (seq 1 (length bs))
  ∧ Z.of_nat (length stack) = default 0 (last (bulletDepths 0 bs)) + 1
  ∧ (∀ i b, bs !! i = Some b →
       ∃ n, heap !! S i = Some n
         ∧ BulletNode.level n = bulletLevel b ∧ BulletNode.text n = Bullet.text b).

(** A list of bullets with a jump of two levels, a blank text, a level 0
    and an empty text. *)
Definition sampleBullets : list Bullet.t :=
  [Bullet.mk 1 "Ghusl"; Bullet.mk 3 "before sunset"; Bullet.mk 2 "   ";
   Bullet.mk 2 "with the intention"; Bullet.mk 0 "Two rakat"; Bullet.mk 5 ""].

(** * Running the model *)

Example fromISO_anchor :
  Luxon.fromISO qatarZones "2024-03-11" "Asia/Qatar" = Luxon.Valid "Asia/Qatar" 19793 0.
Proof. vm_compute. reflexivity. Qed.

Example weekday_anchor :
  Luxon.weekday (Luxon.fromISO qatarZones "2024-03-11" "Asia/Qatar") = Some 1
  ∧ Luxon.fromISO qatarZones "" "Asia/Qatar" = Luxon.Invalid
  ∧ Luxon.fromISO qatarZones "2023-02-29" "Asia/Qatar" = Luxon.Invalid.
Proof. vm_compute. auto. Qed.

Example toISO_sample :
  Luxon.toISO qatarZones (Luxon.Valid "Asia/Qatar" 19806 86399999)
  = Some "2024-03-24T23:59:59.999+03:00".
Proof. vm_compute. reflexivity. Qed.

Example numToString_sample : numToString 1203 = "1203" ∧ numToString (-40) = "-40" ∧ numToString 0 = "0".
Proof. vm_compute. auto. Qed.

Example normMonth_sample : normMonth "  Dhul   Qa'dah " = "dhul qa'dah".
Proof. vm_compute. reflexivity. Qed.

(** * Facts on strings and decimal rendering *)

Lemma app_cons_s (c : ascii) (a b : string) : String c a +:+ b = String c (a +:+ b).
Proof. reflexivity. Qed.

Lemma app_nil_l_s (b : string) : "" +:+ b = b.
Proof. reflexivity. Qed.

Lemma app_assoc_s (a b c : string) : (a +:+ b) +:+ c = a +:+ (b +:+ c).
Proof.
  induction a as [|x a IH]; [reflexivity|].
  rewrite !app_cons_s. now rewrite IH.
Qed.

Lemma length_app_s (a b : string) :
  String.length (a +:+ b) = (String.length a + String.length b)%nat.
Proof.
  induction a as [|x a IH]; [reflexivity|].
  rewrite app_cons_s. simpl. now rewrite IH.
Qed.

Lemma app_inv_tail_s (a b x : string) : a +:+ x = b +:+ x → a = b.
Proof.
  intros H.
  assert (Hlen : String.length a = String.length b).
  { apply (f_equal String.length) in H. rewrite !length_app_s in H. lia. }
  revert b H Hlen. induction a as [|c a IH]; intros [|c' b] H Hlen; simpl in Hlen; try discriminate.
  - reflexivity.
  - rewrite !app_cons_s in H. injection H as -> H. f_equal. apply IH; [assumption | lia].
Qed.

Lemma allChars_app p (a b : string) :
  allChars p (a +:+ b) = allChars p a && allChars p b.
Proof.
  induction a as [|c a IH]; [reflexivity|].
  rewrite app_cons_s. simpl. now rewrite IH, andb_assoc.
Qed.

Lemma digitChar_iso n : isoChar (digitChar n) = true.
Proof.
  unfold digitChar.
  assert (H : (Z.to_nat (n mod 10) < 10)%nat) by (pose proof (Z.mod_pos_bound n 10); lia).
  generalize dependent (Z.to_nat (n mod 10)). intros k Hk.
  do 10 (destruct k as [|k]; [reflexivity|]). lia.
Qed.

Lemma digitsFrom_iso fuel : ∀ n acc,
  allChars isoChar acc = true → allChars isoChar (digitsFrom fuel n acc) = true.
Proof.
  induction fuel as [|fuel IH]; intros n acc Hacc; simpl.
  - now rewrite digitChar_iso.
  - destruct (n <? 10); [simpl; now rewrite digitChar_iso|].
    apply IH. simpl. now rewrite digitChar_iso.
Qed.

Lemma zeros_iso k : allChars isoChar (zeros k) = true.
Proof. induction k; simpl; auto. Qed.

Lemma padStart_iso n w : allChars isoChar (padStart n w) = true.
Proof.
  unfold padStart, digits. rewrite allChars_app, zeros_iso, digitsFrom_iso; reflexivity.
Qed.

Lemma digitValue_digitChar n : Luxon.digitValue (digitChar n) = Some (n mod 10).
Proof.
  unfold digitChar.
  pose proof (Z.mod_pos_bound n 10 ltac:(lia)) as Hb.
  assert (Hn : n mod 10 = Z.of_nat (Z.to_nat (n mod 10))) by lia.
  rewrite Hn at 2.
  assert (Hlt : (Z.to_nat (n mod 10) < 10)%nat) by lia.
  generalize dependent (Z.to_nat (n mod 10)). intros k _ Hk.
  do 10 (destruct k as [|k]; [reflexivity|]). lia.
Qed.

(** Reading the rendered digits back gives the number: the rendering is
    the decimal one, whatever follows it. *)
Lemma parseDigits_digitsFrom fuel : ∀ n acc,
  0 ≤ n < 10 ^ (Z.of_nat fuel + 1) →
  Luxon.parseDigits (digitsFrom fuel n acc) 0 = Luxon.parseDigits acc n.
Proof.
  induction fuel as [|fuel IH]; intros n acc Hn.
  - simpl in *. rewrite digitValue_digitChar. rewrite Z.mod_small by lia. reflexivity.
  - cbn [digitsFrom]. destruct (Z.ltb_spec n 10) as [Hlt|Hge].
    + simpl. rewrite digitValue_digitChar. rewrite Z.mod_small by lia. reflexivity.
    + rewrite IH.
      * simpl. rewrite digitValue_digitChar. f_equal.
        pose proof (Z.div_mod n 10 ltac:(lia)). lia.
      * replace (Z.of_nat (S fuel) + 1) with (Z.succ (Z.of_nat fuel + 1)) in Hn by lia.
        rewrite Z.pow_succ_r in Hn by lia.
        split; [apply Z.div_pos; lia | apply Z.div_lt_upper_bound; lia].
Qed.

Lemma parseDigits_digits n : 0 ≤ n → Luxon.parseDigits (digits n) 0 = Some n.
Proof.
  intros Hn. unfold digits. rewrite parseDigits_digitsFrom; [reflexivity|].
  split; [assumption|].
  destruct (Z.eq_dec n 0) as [->|Hne]; [reflexivity|].
  rewrite Z2Nat.id by apply Z.log2_nonneg.
  pose proof (Z.log2_spec n ltac:(lia)) as [_ Hup].
  eapply Z.lt_le_trans; [exact Hup|].
  replace (Z.succ (Z.log2 n)) with (Z.log2 n + 1) by lia.
  apply Z.pow_le_mono_l. lia.
Qed.

(** * Facts on the ISO 8601 rendering and on the duplicate key *)

Lemma allChars_impl (p q : ascii → bool) (s : string) :
  (∀ c, p c = true → q c = true) → allChars p s = true → allChars q s = true.
Proof.
  intros Hpq. induction s as [|c s IH]; simpl; [reflexivity|].
  rewrite !andb_true_iff. intros [Hc Hs]. split; auto.
Qed.

Lemma isoChar_noBar c : isoChar c = true → noBar c = true.
Proof.
  unfold noBar. destruct (Ascii.eqb_spec c "|") as [->|_]; [|reflexivity].
  vm_compute. discriminate.
Qed.

Lemma isoYear_iso y : allChars isoChar (Luxon.isoYear y) = true.
Proof.
  unfold Luxon.isoYear.
  destruct (_ && _); [apply padStart_iso|].
  destruct (y <? 0); rewrite allChars_app, padStart_iso; reflexivity.
Qed.

Lemma isoDate_iso day : allChars isoChar (Luxon.isoDate day) = true.
Proof.
  unfold Luxon.isoDate. destruct (Luxon.civil_from_days day) as [[y m] d].
  rewrite !allChars_app, isoYear_iso, !padStart_iso. reflexivity.
Qed.

Lemma isoTime_iso ms : allChars isoChar (Luxon.isoTime ms) = true.
Proof.
  unfold Luxon.isoTime. rewrite !allChars_app, !padStart_iso. reflexivity.
Qed.

Lemma isoOffset_iso fixed o : allChars isoChar (Luxon.isoOffset fixed o) = true.
Proof.
  unfold Luxon.isoOffset.
  destruct (_ && _); [reflexivity|].
  destruct (o <? 0); rewrite !allChars_app, !padStart_iso; reflexivity.
Qed.

Lemma toISO_isoText zi dt : isoText (Luxon.toISO zi dt).
Proof.
  destruct dt as [z day ms|]; simpl; [|exact I].
  rewrite !allChars_app, isoDate_iso, isoTime_iso, isoOffset_iso. reflexivity.
Qed.

Lemma templ_noBar o : isoText o → allChars noBar (templ o) = true.
Proof.
  destruct o as [s|]; simpl; [|reflexivity].
  apply allChars_impl, isoChar_noBar.
Qed.

Lemma templ_inj o1 o2 : isoText o1 → isoText o2 → templ o1 = templ o2 → o1 = o2.
Proof.
  destruct o1 as [s1|], o2 as [s2|]; simpl; intros H1 H2 Heq.
  - now subst.
  - subst. vm_compute in H1. discriminate.
  - subst. vm_compute in H2. discriminate.
  - reflexivity.
Qed.

(** A text is cut in one way only at a bar that no bar follows. *)
Lemma bar_split (a b x y : string) :
  allChars noBar x = true → allChars noBar y = true →
  a +:+ "|" +:+ x = b +:+ "|" +:+ y → a = b ∧ x = y.
Proof.
  intros Hx Hy. revert b.
  induction a as [|c a IH]; intros [|c' b] Heq.
  - rewrite !app_nil_l_s, !app_cons_s, !app_nil_l_s in Heq. now injection Heq.
  - rewrite !app_nil_l_s, !app_cons_s, !app_nil_l_s in Heq. injection Heq as <- Heq.
    subst x. rewrite allChars_app in Hx. simpl in Hx.
    rewrite andb_false_r in Hx. discriminate.
  - rewrite !app_nil_l_s, !app_cons_s, !app_nil_l_s in Heq. injection Heq as -> Heq.
    subst y. rewrite allChars_app in Hy. simpl in Hy.
    rewrite andb_false_r in Hy. discriminate.
  - rewrite !app_cons_s in Heq. injection Heq as -> Heq.
    destruct (IH b Heq) as [-> ->]. split; reflexivity.
Qed.

Lemma key_inj (t1 t2 : string) (s1 e1 s2 e2 : option string) :
  isoText s1 → isoText e1 → isoText s2 → isoText e2 →
  t1 +:+ "|" +:+ templ s1 +:+ "|" +:+ templ e1
    = t2 +:+ "|" +:+ templ s2 +:+ "|" +:+ templ e2 →
  (t1, s1, e1) = (t2, s2, e2).
Proof.
  intros Hs1 He1 Hs2 He2 Heq.
  assert (Hre : ∀ t s e : string, t +:+ "|" +:+ s +:+ "|" +:+ e = (t +:+ "|" +:+ s) +:+ "|" +:+ e).
  { intros. now rewrite !app_assoc_s. }
  rewrite !Hre in Heq.
  apply bar_split in Heq as [Heq Hee]; [|now apply templ_noBar..].
  apply bar_split in Heq as [-> Hss]; [|now apply templ_noBar..].
  apply templ_inj in Hee; [|assumption..]. apply templ_inj in Hss; [|assumption..].
  now subst.
Qed.

(** * Facts on the loops *)

Lemma foldl_push {E : Type} (body : Z → list E → list E) (g : Z → list E)
    (l : list Z) (events : list E) :
  (∀ d evs, body d evs = evs ++ g d) →
  foldl (fun evs d => body d evs) events l = events ++ (l ≫= g).
Proof.
  intros Hbody. revert events. induction l as [|d l IH]; intros events.
  - simpl. now rewrite app_nil_r.
  - rewrite bind_cons. cbn [foldl]. rewrite IH, Hbody. now rewrite <- app_assoc.
Qed.

(** A loop whose body only pushes leaves the array it started from in
    front of what it pushed. *)
Lemma forDays_push {E : Type} (lo hi : Z) (body : Z → list E → list E) (g : Z → list E)
    (events : list E) :
  (∀ d evs, body d evs = evs ++ g d) →
  forDays lo hi body events = events ++ (seqZ lo (hi + 1 - lo) ≫= g).
Proof. apply foldl_push. Qed.

Lemma bind_singleton_fmap {E : Type} (f : Z → E) (l : list Z) :
  l ≫= (fun d => [f d]) = f <$> l.
Proof.
  induction l as [|d l IH]; [reflexivity|].
  rewrite bind_cons, fmap_cons, IH. reflexivity.
Qed.

Lemma bind_filter_fmap {E : Type} (c : Z → bool) (f : Z → E) (l : list Z) :
  l ≫= (fun d => if c d then [f d] else []) = f <$> filter (fun d => c d = true) l.
Proof.
  induction l as [|d l IH]; [reflexivity|].
  rewrite bind_cons, filter_cons, IH. destruct (c d) eqn:Hc.
  - destruct (decide (true = true)); [|congruence]. reflexivity.
  - destruct (decide (false = true)); [congruence|]. reflexivity.
Qed.

(** * Facts on one turn of the loop over the rules *)

Section ExpanderFacts.

Context {Any number : Type}.
Variable zi : Luxon.ZoneInfo.
Variable adhan : number → number → option Z → option Z * option Z.

Local Abbreviation Item := (StandardItem.t Any).
Local Abbreviation Event := (ExpandedEvent.t Any).
Local Abbreviation Options := (Opts.t Any number).

Implicit Types (opts : Options) (item : Item) (events : list Event) (cfg : MonthConfig.t).

Lemma getProperty_own {A : Type} (obj : gmap string A) key a :
  obj !! key = Some a → getProperty obj key = Own a.
Proof. intros H. unfold getProperty. now rewrite H. Qed.

Lemma getProperty_absent {A : Type} (obj : gmap string A) key :
  obj !! key = None → objectPrototype !! key = None → getProperty obj key = Absent.
Proof. intros H1 H2. unfold getProperty. now rewrite H1, H2. Qed.

Lemma memberLength_bound name n : memberLength name = Some n → 0 ≤ n ≤ 2.
Proof.
  unfold memberLength. destruct (objectPrototype !! name) as [len|] eqn:H; [|discriminate].
  intros ->. revert H. unfold objectPrototype. cbn [list_to_map foldr uncurry fst snd].
  repeat (rewrite lookup_insert_Some; intros [[_ H]|[_ H]]; [simplify_eq; lia | revert H]).
  now rewrite lookup_empty.
Qed.

(** A rule of a month without configuration, whose normalised name is
    not that of a member of [Object.prototype], is skipped. *)
Lemma expandItem_unconfigured opts item events :
  Opts.monthConfigs opts !! normMonth (StandardItem.hijri_month item) = None →
  objectPrototype !! normMonth (StandardItem.hijri_month item) = None →
  expandItem zi adhan opts item events = events.
Proof. intros H1 H2. unfold expandItem. now rewrite getProperty_absent. Qed.

Lemma expandItem_own opts item cfg events :
  Opts.monthConfigs opts !! normMonth (StandardItem.hijri_month item) = Some cfg →
  expandItem zi adhan opts item events = expandConfigured zi adhan opts item cfg events.
Proof. intros H. unfold expandItem. now rewrite (getProperty_own _ _ _ H). Qed.

Lemma expandConfigured_monthWide opts item cfg events :
  monthWide (StandardItem.rule_kind item) = true →
  expandConfigured zi adhan opts item cfg events
  = events ++ [monthWideEvent zi item cfg (Opts.timezone opts)].
Proof.
  intros Hk. unfold expandConfigured.
  destruct (StandardItem.rule_kind item); try discriminate; reflexivity.
Qed.

Lemma expandConfigured_weekday opts item cfg events :
  weekdayKind (StandardItem.rule_kind item) = true →
  expandConfigured zi adhan opts item cfg events
  = events ++
      (weekdayEvent zi adhan item cfg (Opts.timezone opts) (Opts.coords opts) <$>
         filter (fun d => targetHas (weekdayTarget item)
                            (Luxon.weekday (hijriDayToGregorian zi cfg d (Opts.timezone opts))) = true)
           (seqZ 1 (MonthConfig.length cfg))).
Proof.
  intros Hk. unfold expandConfigured.
  assert (Hloop : ∀ body : Z → list Event → list Event,
    (∀ d evs, body d evs = evs ++
       (if targetHas (weekdayTarget item)
             (Luxon.weekday (hijriDayToGregorian zi cfg d (Opts.timezone opts)))
        then [weekdayEvent zi adhan item cfg (Opts.timezone opts) (Opts.coords opts) d]
        else [])) →
    forDays 1 (MonthConfig.length cfg) body events
    = events ++
      (weekdayEvent zi adhan item cfg (Opts.timezone opts) (Opts.coords opts) <$>
         filter (fun d => targetHas (weekdayTarget item)
                            (Luxon.weekday (hijriDayToGregorian zi cfg d (Opts.timezone opts))) = true)
           (seqZ 1 (MonthConfig.length cfg)))).
  { intros body Hbody. rewrite (forDays_push _ _ _ _ _ Hbody).
    rewrite bind_filter_fmap.
    replace (MonthConfig.length cfg + 1 - 1) with (MonthConfig.length cfg) by lia. reflexivity. }
  destruct (StandardItem.rule_kind item); try discriminate;
    apply Hloop; intros d evs; unfold weekdayTarget;
    destruct (targetHas _ _); simpl; now rewrite ?app_nil_r.
Qed.

Lemma expandConfigured_default opts item cfg sd events :
  defaultPath (StandardItem.rule_kind item) = true →
  StandardItem.start_day item = Some sd →
  sd ≠ 0 →
  let startDay := resolveStartDay sd (MonthConfig.length cfg) in
  let endDay := resolveEndDay (StandardItem.end_day item) startDay (MonthConfig.length cfg) in
  expandConfigured zi adhan opts item cfg events
  = events ++ (periodEvent zi adhan opts item cfg <$> seqZ startDay (endDay + 1 - startDay)).
Proof.
  intros Hk Hsd Hnz startDay endDay. unfold expandConfigured. rewrite Hsd.
  destruct (Z.eqb_spec sd 0) as [?|_]; [contradiction|].
  fold startDay. fold endDay. unfold periodEvent.
  destruct (StandardItem.rule_kind item); try discriminate;
    destruct (StandardItem.period item);
    (erewrite forDays_push; [rewrite bind_singleton_fmap; reflexivity | reflexivity]).
Qed.

Lemma expandConfigured_noStart opts item cfg events :
  defaultPath (StandardItem.rule_kind item) = true →
  StandardItem.start_day item = None ∨ StandardItem.start_day item = Some 0 →
  expandConfigured zi adhan opts item cfg events = events.
Proof.
  intros Hk Hsd. unfold expandConfigured.
  destruct (StandardItem.rule_kind item); try discriminate;
    destruct Hsd as [-> | ->]; reflexivity.
Qed.

Lemma expandItem_monthWide opts item cfg events :
  Opts.monthConfigs opts !! normMonth (StandardItem.hijri_month item) = Some cfg →
  monthWide (StandardItem.rule_kind item) = true →
  expandItem zi adhan opts item events
  = events ++ [monthWideEvent zi item cfg (Opts.timezone opts)].
Proof. intros H Hk. rewrite (expandItem_own _ _ _ _ H). now apply expandConfigured_monthWide. Qed.

Lemma expandItem_weekday opts item cfg events :
  Opts.monthConfigs opts !! normMonth (StandardItem.hijri_month item) = Some cfg →
  weekdayKind (StandardItem.rule_kind item) = true →
  expandItem zi adhan opts item events
  = events ++
      (weekdayEvent zi adhan item cfg (Opts.timezone opts) (Opts.coords opts) <$>
         filter (fun d => targetHas (weekdayTarget item)
                            (Luxon.weekday (hijriDayToGregorian zi cfg d (Opts.timezone opts))) = true)
           (seqZ 1 (MonthConfig.length cfg))).
Proof. intros H Hk. rewrite (expandItem_own _ _ _ _ H). now apply expandConfigured_weekday. Qed.

Lemma expandItem_default opts item cfg sd events :
  Opts.monthConfigs opts !! normMonth (StandardItem.hijri_month item) = Some cfg →
  defaultPath (StandardItem.rule_kind item) = true →
  StandardItem.start_day item = Some sd →
  sd ≠ 0 →
  let startDay := resolveStartDay sd (MonthConfig.length cfg) in
  let endDay := resolveEndDay (StandardItem.end_day item) startDay (MonthConfig.length cfg) in
  expandItem zi adhan opts item events
  = events ++ (periodEvent zi adhan opts item cfg <$> seqZ startDay (endDay + 1 - startDay)).
Proof.
  intros H Hk Hsd Hnz. rewrite (expandItem_own _ _ _ _ H).
  now apply expandConfigured_default.
Qed.

Lemma kind_cases (k : RuleKind.t) :
  monthWide k = true ∨ weekdayKind k = true ∨ defaultPath k = true.
Proof. destruct k; auto. Qed.

(** A turn of the loop leaves the array as it is, or runs with a
    configuration: the month's own, or what a member of
    [Object.prototype] reads as, of a length of 2 at most. *)
Lemma expandItem_read opts item :
  (∀ events, expandItem zi adhan opts item events = events)
  ∨ ∃ cfg,
      (∀ events, expandItem zi adhan opts item events
                 = expandConfigured zi adhan opts item cfg events)
      ∧ (Opts.monthConfigs opts !! normMonth (StandardItem.hijri_month item) = Some cfg
         ∨ 0 ≤ MonthConfig.length cfg ≤ 2).
Proof.
  unfold expandItem, getProperty.
  destruct (Opts.monthConfigs opts !! normMonth (StandardItem.hijri_month item)) as [cfg|] eqn:Hcfg.
  { right. exists cfg. split; [reflexivity | now left]. }
  destruct (objectPrototype !! normMonth (StandardItem.hijri_month item)); [|now left].
  destruct (memberLength _) as [n|] eqn:Hn.
  { right. exists (memberConfig n). split; [reflexivity|].
    right. now apply memberLength_bound in Hn. }
  destruct (monthWide (StandardItem.rule_kind item)) eqn:Hk.
  - right. exists (memberConfig 0). split; [|right; simpl; lia].
    intros events. rewrite expandConfigured_monthWide by assumption.
    destruct (StandardItem.rule_kind item); try discriminate; reflexivity.
  - left. intros events. destruct (StandardItem.rule_kind item); try discriminate; reflexivity.
Qed.

Lemma expandItem_noStart opts item events :
  defaultPath (StandardItem.rule_kind item) = true →
  StandardItem.start_day item = None ∨ StandardItem.start_day item = Some 0 →
  expandItem zi adhan opts item events = events.
Proof.
  intros Hk Hsd.
  destruct (expandItem_read opts item) as [H|(cfg & H & _)]; rewrite H; [reflexivity|].
  now apply expandConfigured_noStart.
Qed.

(** The shape of what a turn with a configuration pushes. *)
Lemma configured_cases opts item cfg :
  (monthWide (StandardItem.rule_kind item) = true
   ∧ expandConfigured zi adhan opts item cfg []
     = [monthWideEvent zi item cfg (Opts.timezone opts)])
  ∨ (weekdayKind (StandardItem.rule_kind item) = true
     ∧ expandConfigured zi adhan opts item cfg []
       = weekdayEvent zi adhan item cfg (Opts.timezone opts) (Opts.coords opts) <$>
           filter (fun d => targetHas (weekdayTarget item)
                              (Luxon.weekday (hijriDayToGregorian zi cfg d (Opts.timezone opts)))
                            = true)
             (seqZ 1 (MonthConfig.length cfg)))
  ∨ (defaultPath (StandardItem.rule_kind item) = true
     ∧ (StandardItem.start_day item = None ∨ StandardItem.start_day item = Some 0)
     ∧ expandConfigured zi adhan opts item cfg [] = [])
  ∨ (defaultPath (StandardItem.rule_kind item) = true
     ∧ ∃ sd, StandardItem.start_day item = Some sd ∧ sd ≠ 0
       ∧ expandConfigured zi adhan opts item cfg []
         = periodEvent zi adhan opts item cfg <$>
             seqZ (resolveStartDay sd (MonthConfig.length cfg))
               (resolveEndDay (StandardItem.end_day item)
                  (resolveStartDay sd (MonthConfig.length cfg)) (MonthConfig.length cfg)
                + 1 - resolveStartDay sd (MonthConfig.length cfg))).
Proof.
  destruct (kind_cases (StandardItem.rule_kind item)) as [Hk|[Hk|Hk]].
  - left. split; [exact Hk|]. now rewrite expandConfigured_monthWide.
  - right; left. split; [exact Hk|]. now rewrite expandConfigured_weekday.
  - right; right.
    destruct (StandardItem.start_day item) as [sd|] eqn:Hsd.
    + destruct (Z.eq_dec sd 0) as [->|Hnz].
      * left. split; [exact Hk|]. split; [now right|]. apply expandConfigured_noStart; auto.
      * right. split; [exact Hk|]. exists sd. split; [reflexivity|]. split; [exact Hnz|].
        now rewrite (expandConfigured_default _ _ cfg sd).
    + left. split; [exact Hk|]. split; [now left|]. apply expandConfigured_noStart; auto.
Qed.

(** What a rule emits: nothing, or what a turn with a configuration
    pushes. *)
Lemma emitted_read opts item :
  emitted zi adhan opts item = []
  ∨ ∃ cfg,
      emitted zi adhan opts item = expandConfigured zi adhan opts item cfg []
      ∧ (Opts.monthConfigs opts !! normMonth (StandardItem.hijri_month item) = Some cfg
         ∨ 0 ≤ MonthConfig.length cfg ≤ 2).
Proof.
  unfold emitted.
  destruct (expandItem_read opts item) as [H|(cfg & H & Ho)]; [left; apply H|].
  right. exists cfg. split; [apply H | exact Ho].
Qed.

Lemma expandConfigured_app opts item cfg events :
  expandConfigured zi adhan opts item cfg events
  = events ++ expandConfigured zi adhan opts item cfg [].
Proof.
  destruct (kind_cases (StandardItem.rule_kind item)) as [Hk|[Hk|Hk]].
  - now rewrite !expandConfigured_monthWide.
  - now rewrite !expandConfigured_weekday.
  - destruct (StandardItem.start_day item) as [sd|] eqn:Hsd.
    + destruct (Z.eq_dec sd 0) as [->|Hnz].
      * rewrite !expandConfigured_noStart by auto. now rewrite app_nil_r.
      * now rewrite !(expandConfigured_default _ _ cfg sd).
    + rewrite !expandConfigured_noStart by auto. now rewrite app_nil_r.
Qed.

(** A turn of the loop keeps the array and appends what the rule emits. *)
Lemma expandItem_app opts item events :
  expandItem zi adhan opts item events = events ++ emitted zi adhan opts item.
Proof.
  unfold emitted.
  destruct (expandItem_read opts item) as [H|(cfg & H & _)]; rewrite !H.
  - now rewrite app_nil_r.
  - apply expandConfigured_app.
Qed.

Lemma collect_foldl opts (items : list Item) events :
  foldl (fun evs item => expandItem zi adhan opts item evs) events items
  = events ++ (items ≫= emitted zi adhan opts).
Proof.
  revert events. induction items as [|item items IH]; intros events.
  - simpl. now rewrite app_nil_r.
  - rewrite bind_cons. cbn [foldl]. rewrite IH, expandItem_app. now rewrite <- app_assoc.
Qed.

(** The array before the duplicate filter: what the rules emit, in order. *)
Lemma collectEvents_bind opts :
  collectEvents zi adhan opts
  = StandardAmaal.items (Opts.amaal opts) ≫= emitted zi adhan opts.
Proof. unfold collectEvents. now rewrite collect_foldl. Qed.

(** Every instant of an emitted event was rendered by [toISO]. *)
Lemma emitted_isoText opts item ev :
  ev ∈ emitted zi adhan opts item →
  isoText (ExpandedEvent.startISO ev) ∧ isoText (ExpandedEvent.endISO ev).
Proof.
  destruct (emitted_read opts item) as [-> | (cfg & -> & _)].
  { intros H. now apply elem_of_nil in H. }
  destruct (configured_cases opts item cfg)
    as [[_ ->]|[[_ ->]|[(_ & _ & ->)|(_ & sd & _ & _ & ->)]]].
  - rewrite list_elem_of_singleton. intros ->. split; apply toISO_isoText.
  - rewrite list_elem_of_fmap. intros (d & -> & _).
    unfold weekdayEvent. destruct (getPrayerTimesAccurate _ _ _ _ _).
    split; apply toISO_isoText.
  - intros H. now apply elem_of_nil in H.
  - rewrite list_elem_of_fmap. intros (d & -> & _).
    unfold periodEvent, dayEvent.
    destruct (StandardItem.period item);
      [destruct (getPrayerTimesAccurate _ _ _ _ _)| |];
      split; apply toISO_isoText.
Qed.

Lemma collectEvents_isoText opts ev :
  ev ∈ collectEvents zi adhan opts →
  isoText (ExpandedEvent.startISO ev) ∧ isoText (ExpandedEvent.endISO ev).
Proof.
  rewrite collectEvents_bind, list_elem_of_bind. intros (item & Hev & _).
  eapply emitted_isoText, Hev.
Qed.

(** ** The duplicate filter *)

Lemma eventKey_triple (e1 e2 : Event) :
  triple e1 = triple e2 → eventKey e1 = eventKey e2.
Proof. unfold triple, eventKey. intros [= -> -> ->]. reflexivity. Qed.

(** On rendered instants the key stands for the composite. *)
Lemma eventKey_inj (e1 e2 : Event) :
  isoText (ExpandedEvent.startISO e1) → isoText (ExpandedEvent.endISO e1) →
  isoText (ExpandedEvent.startISO e2) → isoText (ExpandedEvent.endISO e2) →
  eventKey e1 = eventKey e2 → triple e1 = triple e2.
Proof. intros. unfold triple. now apply key_inj. Qed.

Lemma filterSeen_app (seen : gset string) (l1 l2 : list Event) :
  filterSeen seen (l1 ++ l2)
  = filterSeen seen l1 ++ filterSeen (list_to_set (eventKey <$> l1) ∪ seen) l2.
Proof.
  revert seen. induction l1 as [|ev l1 IH]; intros seen.
  - simpl. f_equal. set_solver.
  - cbn [app filterSeen]. destruct (bool_decide_reflect (eventKey ev ∈ seen)) as [Hin|Hnin].
    + rewrite IH. do 2 f_equal. set_solver.
    + rewrite IH. cbn [app]. do 3 f_equal. set_solver.
Qed.

Lemma filterSeen_sublist (seen : gset string) (l : list Event) :
  filterSeen seen l `sublist_of` l.
Proof.
  revert seen. induction l as [|ev l IH]; intros seen; simpl.
  - constructor.
  - destruct (bool_decide _); [apply sublist_cons | apply sublist_skip]; apply IH.
Qed.

Lemma filterSeen_fresh (seen : gset string) (l : list Event) ev :
  ev ∈ filterSeen seen l → eventKey ev ∉ seen.
Proof.
  revert seen. induction l as [|x l IH]; intros seen; simpl.
  - intros H. inversion H.
  - destruct (bool_decide_reflect (eventKey x ∈ seen)) as [Hin|Hnin].
    + apply IH.
    + rewrite elem_of_cons. intros [->|H]; [assumption|].
      apply IH in H. set_solver.
Qed.

Lemma filterSeen_NoDup (seen : gset string) (l : list Event) :
  NoDup (eventKey <$> filterSeen seen l).
Proof.
  revert seen. induction l as [|x l IH]; intros seen; simpl.
  - constructor.
  - destruct (bool_decide_reflect (eventKey x ∈ seen)) as [Hin|Hnin]; [apply IH|].
    rewrite fmap_cons. apply NoDup_cons. split; [|apply IH].
    rewrite list_elem_of_fmap. intros (e & Hk & He).
    apply filterSeen_fresh in He. set_solver.
Qed.

Lemma filterSeen_first (seen : gset string) (pre post : list Event) ev :
  eventKey ev ∉ seen →
  (∀ e, e ∈ pre → eventKey e ≠ eventKey ev) →
  ev ∈ filterSeen seen (pre ++ ev :: post).
Proof.
  intros Hseen Hpre. rewrite filterSeen_app. apply elem_of_app. right.
  cbn [filterSeen]. rewrite bool_decide_eq_false_2; [apply list_elem_of_here|].
  rewrite elem_of_union, elem_of_list_to_set, list_elem_of_fmap.
  intros [(e & Hk & He)|?]; [|contradiction].
  now apply (Hpre e).
Qed.

Lemma filterSeen_is_first (seen : gset string) (l : list Event) ev :
  ev ∈ filterSeen seen l →
  ∃ pre post, l = pre ++ ev :: post ∧ ∀ e, e ∈ pre → eventKey e ≠ eventKey ev.
Proof.
  revert seen. induction l as [|x l IH]; intros seen; simpl.
  - intros H. inversion H.
  - destruct (bool_decide_reflect (eventKey x ∈ seen)) as [Hin|Hnin].
    + intros H. pose proof (filterSeen_fresh _ _ _ H) as Hfresh.
      destruct (IH _ H) as (pre & post & -> & Hpre).
      exists (x :: pre), post. split; [reflexivity|].
      intros e. rewrite elem_of_cons. intros [->|He]; [congruence | now apply Hpre].
    + rewrite elem_of_cons. intros [->|H].
      * exists [], l. split; [reflexivity|]. intros e He. inversion He.
      * pose proof (filterSeen_fresh _ _ _ H) as Hfresh.
        destruct (IH _ H) as (pre & post & -> & Hpre).
        exists (x :: pre), post. split; [reflexivity|].
        intros e. rewrite elem_of_cons. intros [->|He]; [set_solver | now apply Hpre].
Qed.

Lemma filterSeen_represents (seen : gset string) (l : list Event) ev :
  ev ∈ l → eventKey ev ∉ seen →
  ∃ e, e ∈ filterSeen seen l ∧ eventKey e = eventKey ev.
Proof.
  revert seen. induction l as [|x l IH]; intros seen Hin Hseen.
  - inversion Hin.
  - cbn [filterSeen]. destruct (bool_decide_reflect (eventKey x ∈ seen)) as [Hx|Hx].
    + apply elem_of_cons in Hin as [->|Hin]; [contradiction|]. now apply IH.
    + destruct (decide (eventKey x = eventKey ev)) as [Heq|Hne].
      * exists x. split; [apply list_elem_of_here | assumption].
      * apply elem_of_cons in Hin as [->|Hin]; [congruence|].
        destruct (IH ({[eventKey x]} ∪ seen) Hin) as (e & He & Hk); [set_solver|].
        exists e. split; [now apply list_elem_of_further | assumption].
Qed.

End ExpanderFacts.

(** * Facts on the calendar *)

Lemma anchorDay_fromISO zi cfg tz day0 :
  anchorDay zi cfg tz = Some day0 →
  Luxon.fromISO zi (MonthConfig.startDateISO cfg) tz = Luxon.Valid tz day0 0.
Proof.
  unfold anchorDay, Luxon.fromISO.
  destruct (Luxon.zone_valid zi tz); [|discriminate].
  destruct (Luxon.parseISODate _) as [[[y m] d]|]; [|discriminate].
  simpl. now intros [= ->].
Qed.

Lemma digitFree_unparsable s : digitFree s = true → Luxon.parseISODate s = None.
Proof.
  unfold Luxon.parseISODate. destruct s as [|c rest]; [reflexivity|].
  cbn [digitFree allChars]. intros H. apply andb_true_iff in H as [Hc _].
  destruct (negb _); [reflexivity|]. destruct (negb _); [reflexivity|].
  cbn [substring Luxon.parseDigits].
  destruct (Luxon.digitValue c); [discriminate | reflexivity].
Qed.

Lemma digitFree_anchor zi cfg tz :
  digitFree (MonthConfig.startDateISO cfg) = true → anchorDay zi cfg tz = None.
Proof.
  intros H. unfold anchorDay, Luxon.fromISO.
  destruct (Luxon.zone_valid zi tz); [|reflexivity].
  now rewrite (digitFree_unparsable _ H).
Qed.

(** Lunar day [d] is the civil day [d - 1] days after the anchor. *)
Lemma hijriDay_anchor zi cfg tz day0 d :
  anchorDay zi cfg tz = Some day0 →
  hijriDayToGregorian zi cfg d tz = Luxon.Valid tz (day0 + (d - 1)) 0.
Proof.
  intros H. unfold hijriDayToGregorian. now rewrite (anchorDay_fromISO _ _ _ _ H).
Qed.

Lemma hijriDay_plus zi cfg tz d k :
  Luxon.plusDays (hijriDayToGregorian zi cfg d tz) k = hijriDayToGregorian zi cfg (d + k) tz.
Proof.
  unfold hijriDayToGregorian.
  destruct (Luxon.startOfDay _) as [z day ms|]; simpl; [|reflexivity].
  f_equal. lia.
Qed.

Lemma weekday_range dt w : Luxon.weekday dt = Some w → 1 ≤ w ≤ 7.
Proof.
  destruct dt as [z day ms|]; simpl; [|discriminate].
  intros [= <-]. pose proof (Z.mod_pos_bound (day + 3) 7 ltac:(lia)). lia.
Qed.

Lemma weekdayToLuxon_known code :
  code ∈ weekdayCodes → ∃ w, weekdayToLuxon code = Num w ∧ 1 ≤ w ≤ 7.
Proof.
  unfold weekdayCodes. rewrite !elem_of_cons, elem_of_nil.
  intros [->|[->|[->|[->|[->|[->|[->|[]]]]]]]];
    [exists 1 | exists 2 | exists 3 | exists 4 | exists 5 | exists 6 | exists 7];
    (split; [vm_compute; reflexivity | lia]).
Qed.

(** A code outside MON..SUN maps to 0, unless it names a member of
    [Object.prototype]: then it maps to that member. *)
Lemma weekdayToLuxon_unknown code :
  code ∉ weekdayCodes →
  weekdayToLuxon code
  = match objectPrototype !! code with
    | Some _ => Member code
    | None => Num 0
    end.
Proof.
  unfold weekdayCodes, weekdayToLuxon, getProperty, weekdayMap. rewrite !not_elem_of_cons.
  intros (? & ? & ? & ? & ? & ? & ? & _).
  rewrite !lookup_insert_ne by congruence. rewrite lookup_empty.
  now destruct (objectPrototype !! code).
Qed.

Lemma weekdayToLuxon_not_weekday code w :
  code ∉ weekdayCodes → 1 ≤ w ≤ 7 → weekdayToLuxon code ≠ Num w.
Proof.
  intros Hcode Hw. rewrite (weekdayToLuxon_unknown code Hcode).
  destruct (objectPrototype !! code); [discriminate|]. intros [= <-]. lia.
Qed.

Lemma resolveStartDay_clamp sd L :
  1 ≤ L →
  1 ≤ resolveStartDay sd L ≤ L
  ∧ (sd < 1 → resolveStartDay sd L = 1)
  ∧ (1 ≤ sd ≤ L → resolveStartDay sd L = sd)
  ∧ (L < sd → resolveStartDay sd L = L).
Proof. unfold resolveStartDay. lia. Qed.

Lemma resolveEndDay_clamp ed startDay L :
  startDay ≤ L →
  resolveEndDay None startDay L = L
  ∧ startDay ≤ resolveEndDay (Some ed) startDay L ≤ L
  ∧ (ed < startDay → resolveEndDay (Some ed) startDay L = startDay)
  ∧ (startDay ≤ ed ≤ L → resolveEndDay (Some ed) startDay L = ed)
  ∧ (L < ed → resolveEndDay (Some ed) startDay L = L).
Proof. unfold resolveEndDay. lia. Qed.

Lemma days_between lo hi d : d ∈ seqZ lo (hi + 1 - lo) ↔ lo ≤ d ≤ hi.
Proof. rewrite elem_of_seqZ. lia. Qed.

(** * Ordinals *)

Lemma ordinalSuffix_mod n : ordinalSuffix n = ordinalSuffix (n mod 100).
Proof.
  unfold ordinalSuffix.
  rewrite Z.mod_mod by lia.
  rewrite (Z.mod_mod_divide n 100 10) by (exists 10; lia). reflexivity.
Qed.

Lemma suffix_table v :
  0 ≤ v < 100 →
  templ (optOr (optOr (arrayGet ["th"; "st"; "nd"; "rd"] (Z.rem (v - 20) 10))
                  (arrayGet ["th"; "st"; "nd"; "rd"] v))
           (arrayGet ["th"; "st"; "nd"; "rd"] 0))
  = ordinalSuffix v.
Proof.
  intros Hv.
  assert (Hall : Forall (fun v =>
      templ (optOr (optOr (arrayGet ["th"; "st"; "nd"; "rd"] (Z.rem (v - 20) 10))
                      (arrayGet ["th"; "st"; "nd"; "rd"] v))
               (arrayGet ["th"; "st"; "nd"; "rd"] 0))
      = ordinalSuffix v) (seqZ 0 100)).
  { vm_compute. repeat constructor. }
  rewrite Forall_seqZ in Hall. apply Hall. lia.
Qed.

(** C8: for every day number [n >= 1] the ordinal is the decimal text of
    [n] followed by "th" when [n mod 100] is 11, 12 or 13, otherwise by
    "st", "nd" or "rd" when [n mod 10] is 1, 2 or 3, and by "th" in the
    remaining cases; 1, 2, 3, 11 and 21 give "1st", "2nd", "3rd", "11th"
    and "21st". *)
Theorem getOrdinal_suffix :
  (∀ n, 1 ≤ n →
     getOrdinal n = numToString n +:+ ordinalSuffix n
     ∧ Luxon.parseDigits (numToString n) 0 = Some n)
  ∧ getOrdinal 1 = "1st" ∧ getOrdinal 2 = "2nd" ∧ getOrdinal 3 = "3rd"
  ∧ getOrdinal 11 = "11th" ∧ getOrdinal 21 = "21st".
Proof.
  split; [|vm_compute; repeat split].
  intros n Hn. split.
  - unfold getOrdinal. f_equal.
    cbv zeta. rewrite (Z.rem_mod_nonneg n 100) by lia.
    rewrite (ordinalSuffix_mod n). apply suffix_table.
    apply Z.mod_pos_bound. lia.
  - unfold numToString. destruct (Z.ltb_spec n 0); [lia|].
    apply parseDigits_digits. lia.
Qed.


Lemma filter_none (P : Z → Prop) `{!∀ d, Decision (P d)} (l : list Z) :
  (∀ d, d ∈ l → ¬ P d) → filter P l = [].
Proof.
  induction l as [|d l IH]; intros Hnone; [reflexivity|].
  rewrite filter_cons_False by (apply Hnone; left).
  apply IH. intros d' Hd'. apply Hnone. now right.
Qed.

Lemma NoDup_fmap_coarser {A B C : Type} (f : A → B) (g : A → C) (l : list A) :
  (∀ x y, g x = g y → f x = f y) → NoDup (f <$> l) → NoDup (g <$> l).
Proof.
  intros Hfg. induction l as [|x l IH]; [constructor|].
  rewrite !fmap_cons, !NoDup_cons, !list_elem_of_fmap.
  intros [Hx Hl]. split; [|now apply IH].
  intros (y & Hxy & Hy). apply Hx. exists y. split; [now apply Hfg | exact Hy].
Qed.

(** * Properties of the expander *)

Section ExpanderProperties.

Context {Any number : Type}.
Variable zi : Luxon.ZoneInfo.
Variable adhan : number → number → option Z → option Z * option Z.

Local Abbreviation Item := (StandardItem.t Any).
Local Abbreviation Event := (ExpandedEvent.t Any).
Local Abbreviation Options := (Opts.t Any number).

Implicit Types (opts : Options) (item : Item) (events : list Event) (cfg : MonthConfig.t).

Lemma collectEvents_withItems opts (items : list Item) :
  collectEvents zi adhan (withItems opts items) = items ≫= emitted zi adhan opts.
Proof.
  rewrite collectEvents_bind. simpl. apply list_bind_ext; [|reflexivity].
  intros item. reflexivity.
Qed.

(** Whatever a rule emits is in the output up to its composite: the
    duplicate filter keeps one event for it. *)
Lemma emitted_survives opts item ev :
  item ∈ StandardAmaal.items (Opts.amaal opts) →
  ev ∈ emitted zi adhan opts item →
  ∃ ev', ev' ∈ expandAmaalEvents zi adhan opts ∧ triple ev' = triple ev.
Proof.
  intros Hitem Hev.
  assert (Hin : ev ∈ collectEvents zi adhan opts).
  { rewrite collectEvents_bind, list_elem_of_bind. eauto. }
  destruct (filterSeen_represents ∅ _ _ Hin) as (e & He & Hk); [set_solver|].
  exists e. split; [exact He|].
  assert (He' : e ∈ collectEvents zi adhan opts).
  { eapply elem_of_sublist; [exact He | apply filterSeen_sublist]. }
  destruct (collectEvents_isoText _ _ _ _ Hin), (collectEvents_isoText _ _ _ _ He').
  now apply eventKey_inj.
Qed.

(** A rule whose normalised lunar month has no anchor and is not named
    as a member of [Object.prototype] pushes nothing, whatever the array
    holds (the expander is a total function, there is no failure to
    model), and the output is the output of the same rules without it. *)
Lemma unconfigured_rule_skipped opts (pre post : list Item) item :
  Opts.monthConfigs opts !! normMonth (StandardItem.hijri_month item) = None →
  objectPrototype !! normMonth (StandardItem.hijri_month item) = None →
  (∀ events, expandItem zi adhan opts item events = events)
  ∧ emitted zi adhan opts item = []
  ∧ expandAmaalEvents zi adhan (withItems opts (pre ++ item :: post))
    = expandAmaalEvents zi adhan (withItems opts (pre ++ post)).
Proof.
  intros Hnone Hproto.
  assert (Hem : emitted zi adhan opts item = []).
  { unfold emitted. now apply expandItem_unconfigured. }
  split; [|split].
  - intros events. now apply expandItem_unconfigured.
  - exact Hem.
  - unfold expandAmaalEvents. rewrite !collectEvents_withItems.
    rewrite !bind_app, bind_cons, Hem. reflexivity.
Qed.

Lemma filterSeen_one (ev : Event) : filterSeen ∅ [ev] = [ev].
Proof. simpl. now rewrite bool_decide_eq_false_2 by apply not_elem_of_empty. Qed.

(** The output for a single rule that emits a single event. *)
Lemma expand_single (meta : Any) (coords : Coords.t number) (cfgs : gmap string MonthConfig.t)
    (tz : string) item ev :
  emitted zi adhan (Opts.mk (StandardAmaal.mk meta [item]) cfgs tz coords) item = [ev] →
  expandAmaalEvents zi adhan (Opts.mk (StandardAmaal.mk meta [item]) cfgs tz coords) = [ev].
Proof.
  intros Hem. unfold expandAmaalEvents. rewrite collectEvents_bind.
  cbn [Opts.amaal StandardAmaal.items].
  rewrite bind_cons, Hem. apply filterSeen_one.
Qed.

Lemma month_wide_one_event opts item cfg events :
  Opts.monthConfigs opts !! normMonth (StandardItem.hijri_month item) = Some cfg →
  monthWide (StandardItem.rule_kind item) = true →
  ∃ ev,
    expandItem zi adhan opts item events = events ++ [ev]
    ∧ ExpandedEvent.allDay ev = true
    ∧ ExpandedEvent.startISO ev
      = Luxon.toISO zi (hijriDayToGregorian zi cfg 1 (Opts.timezone opts))
    ∧ ExpandedEvent.endISO ev
      = Luxon.toISO zi (hijriDayToGregorian zi cfg (MonthConfig.length cfg + 1) (Opts.timezone opts))
    ∧ ∀ day0, anchorDay zi cfg (Opts.timezone opts) = Some day0 →
        ExpandedEvent.startISO ev = Luxon.toISO zi (Luxon.Valid (Opts.timezone opts) day0 0)
        ∧ ExpandedEvent.endISO ev
          = Luxon.toISO zi (Luxon.Valid (Opts.timezone opts) (day0 + MonthConfig.length cfg) 0).
Proof.
  intros Hcfg Hk. exists (monthWideEvent zi item cfg (Opts.timezone opts)).
  split; [now apply expandItem_monthWide|].
  split; [reflexivity|].
  split; [reflexivity|].
  split; [simpl; now rewrite hijriDay_plus|].
  intros day0 Hday. simpl.
  rewrite hijriDay_plus, !(hijriDay_anchor _ _ _ _ _ Hday).
  replace (day0 + (1 - 1)) with day0 by lia.
  replace (day0 + (MonthConfig.length cfg + 1 - 1)) with (day0 + MonthConfig.length cfg) by lia.
  split; reflexivity.
Qed.

End ExpanderProperties.

Section ExpanderClaims.

Context {Any number : Type}.
Variable zi : Luxon.ZoneInfo.
Variable adhan : number → number → option Z → option Z * option Z.

Local Abbreviation Item := (StandardItem.t Any).
Local Abbreviation Event := (ExpandedEvent.t Any).
Local Abbreviation Options := (Opts.t Any number).

Implicit Types (opts : Options) (item : Item) (events : list Event) (cfg : MonthConfig.t).

(** C3: a [month_all] or [month_any_time] rule of a configured month
    pushes exactly one event, whatever the length of the month; the event
    is all-day, starts at the start of the civil date of lunar day 1 and
    ends, exclusive, at the start of the civil date of lunar day
    [length + 1].  With the anchor 2024-03-11 of 30 days in Asia/Qatar the
    output for such a rule alone is one event from 2024-03-11T00:00 to
    2024-04-10T00:00. *)
Theorem month_wide_single_event :
  (∀ opts item cfg events,
     Opts.monthConfigs opts !! normMonth (StandardItem.hijri_month item) = Some cfg →
     monthWide (StandardItem.rule_kind item) = true →
     ∃ ev,
       expandItem zi adhan opts item events = events ++ [ev]
       ∧ ExpandedEvent.allDay ev = true
       ∧ ExpandedEvent.startISO ev
         = Luxon.toISO zi (hijriDayToGregorian zi cfg 1 (Opts.timezone opts))
       ∧ ExpandedEvent.endISO ev
         = Luxon.toISO zi
             (hijriDayToGregorian zi cfg (MonthConfig.length cfg + 1) (Opts.timezone opts))
       ∧ ∀ day0, anchorDay zi cfg (Opts.timezone opts) = Some day0 →
           ExpandedEvent.startISO ev = Luxon.toISO zi (Luxon.Valid (Opts.timezone opts) day0 0)
           ∧ ExpandedEvent.endISO ev
             = Luxon.toISO zi
                 (Luxon.Valid (Opts.timezone opts) (day0 + MonthConfig.length cfg) 0))
  ∧ (∀ (meta : Any) (coords : Coords.t number) item,
       normMonth (StandardItem.hijri_month item) = "ramadan" →
       monthWide (StandardItem.rule_kind item) = true →
       ∃ ev,
         expandAmaalEvents qatarZones adhan
           (Opts.mk (StandardAmaal.mk meta [item]) ramadan30 "Asia/Qatar" coords) = [ev]
         ∧ ExpandedEvent.allDay ev = true
         ∧ ExpandedEvent.startISO ev = Some "2024-03-11T00:00:00.000+03:00"
         ∧ ExpandedEvent.endISO ev = Some "2024-04-10T00:00:00.000+03:00").
Proof.
  split; [intros; now apply month_wide_one_event|].
  intros meta coords item Hmonth Hk.
  set (opts := Opts.mk (StandardAmaal.mk meta [item]) ramadan30 "Asia/Qatar" coords).
  assert (Hcfg : Opts.monthConfigs opts !! normMonth (StandardItem.hijri_month item)
                 = Some (MonthConfig.mk "2024-03-11" 30)).
  { rewrite Hmonth. apply lookup_singleton_eq. }
  exists (monthWideEvent qatarZones item (MonthConfig.mk "2024-03-11" 30) "Asia/Qatar").
  split; [|repeat split].
  apply expand_single. unfold emitted.
  now rewrite (expandItem_monthWide _ _ _ _ _ _ Hcfg Hk).
Qed.

(** A [weekday] or [weekday_multi] rule whose codes are all outside
    MON..SUN, among them the rule with [null] or empty [weekdays], pushes
    nothing: such a code maps to 0 or, when it names a member of
    [Object.prototype], to that member, and the weekday of a civil date
    is a number of 1..7. *)
Lemma unrecognized_weekdays_emit_nothing opts item events :
  weekdayKind (StandardItem.rule_kind item) = true →
  (∀ code, code ∈ default [] (StandardItem.weekdays item) → code ∉ weekdayCodes) →
  expandItem zi adhan opts item events = events
  ∧ (∀ code, code ∈ default [] (StandardItem.weekdays item) →
       weekdayToLuxon code = Num 0 ∨ weekdayToLuxon code = Member code)
  ∧ (∀ dt w, Luxon.weekday dt = Some w → 1 ≤ w ≤ 7).
Proof.
  intros Hk Hcodes.
  split; [|split; [|apply weekday_range]].
  2: { intros code Hc. rewrite (weekdayToLuxon_unknown code (Hcodes code Hc)).
       destruct (objectPrototype !! code); auto. }
  destruct (expandItem_read zi adhan opts item) as [H|(cfg & H & _)]; rewrite H; [reflexivity|].
  rewrite expandConfigured_weekday by assumption.
  rewrite filter_none; [now rewrite app_nil_r|].
  intros d _ Hhas.
  unfold targetHas in Hhas.
  destruct (Luxon.weekday _) as [w|] eqn:Hw; [|discriminate].
  apply bool_decide_eq_true_1 in Hhas.
  unfold weekdayTarget in Hhas.
  rewrite elem_of_list_to_set, list_elem_of_fmap in Hhas.
  destruct Hhas as (code & Heq & Hin).
  apply weekday_range in Hw.
  now apply (weekdayToLuxon_not_weekday code w (Hcodes code Hin) Hw).
Qed.

(** C4: the output is the array of emitted events with, for every
    composite (title, start, end), the earliest event kept and the later
    ones dropped: it is a subsequence of the array, no two of its events
    share a composite, an event is in it exactly when no earlier event of
    the array has its composite, and two events of the array at the same
    instants with different titles both have their composite in it. *)
Theorem dedup_keeps_first_of_each_triple opts :
  expandAmaalEvents zi adhan opts `sublist_of` collectEvents zi adhan opts
  ∧ NoDup (triple <$> expandAmaalEvents zi adhan opts)
  ∧ (∀ pre ev post,
       collectEvents zi adhan opts = pre ++ ev :: post →
       (∀ e, e ∈ pre → triple e ≠ triple ev) →
       ev ∈ expandAmaalEvents zi adhan opts)
  ∧ (∀ ev, ev ∈ expandAmaalEvents zi adhan opts →
       ∃ pre post,
         collectEvents zi adhan opts = pre ++ ev :: post
         ∧ ∀ e, e ∈ pre → triple e ≠ triple ev)
  ∧ (∀ e1 e2,
       e1 ∈ collectEvents zi adhan opts → e2 ∈ collectEvents zi adhan opts →
       ExpandedEvent.startISO e1 = ExpandedEvent.startISO e2 →
       ExpandedEvent.endISO e1 = ExpandedEvent.endISO e2 →
       ExpandedEvent.title e1 ≠ ExpandedEvent.title e2 →
       ∃ k1 k2,
         k1 ∈ expandAmaalEvents zi adhan opts ∧ k2 ∈ expandAmaalEvents zi adhan opts
         ∧ triple k1 = triple e1 ∧ triple k2 = triple e2 ∧ k1 ≠ k2).
Proof.
  unfold expandAmaalEvents.
  assert (Hinj : ∀ e1 e2, e1 ∈ collectEvents zi adhan opts → e2 ∈ collectEvents zi adhan opts →
                   eventKey e1 = eventKey e2 → triple e1 = triple e2).
  { intros e1 e2 H1 H2.
    destruct (collectEvents_isoText _ _ _ _ H1), (collectEvents_isoText _ _ _ _ H2).
    now apply eventKey_inj. }
  assert (Hrep : ∀ e, e ∈ collectEvents zi adhan opts →
                   ∃ k, k ∈ filterSeen ∅ (collectEvents zi adhan opts) ∧ triple k = triple e).
  { intros e He.
    destruct (filterSeen_represents ∅ _ _ He) as (k & Hk & Hkey); [apply not_elem_of_empty|].
    exists k. split; [exact Hk|]. apply Hinj; [|exact He|exact Hkey].
    eapply elem_of_sublist; [exact Hk | apply filterSeen_sublist]. }
  split; [apply filterSeen_sublist|].
  split; [eapply NoDup_fmap_coarser; [apply eventKey_triple | apply filterSeen_NoDup]|].
  split; [|split].
  - intros pre ev post Heq Hpre. rewrite Heq.
    apply filterSeen_first; [apply not_elem_of_empty|].
    intros e He Hkey. apply (Hpre e He).
    apply Hinj; [| |exact Hkey]; rewrite Heq, elem_of_app; [now left|right; left].
  - intros ev Hev.
    destruct (filterSeen_is_first _ _ _ Hev) as (pre & post & Heq & Hpre).
    exists pre, post. split; [exact Heq|].
    intros e He Ht. apply (Hpre e He). now apply eventKey_triple.
  - intros e1 e2 H1 H2 _ _ Htitle.
    destruct (Hrep e1 H1) as (k1 & Hk1 & Ht1), (Hrep e2 H2) as (k2 & Hk2 & Ht2).
    exists k1, k2. repeat split; try assumption.
    intros ->. rewrite Ht1 in Ht2. unfold triple in Ht2. congruence.
Qed.

(** A night rule of the default path with a start day that is present
    and not 0 pushes exactly one event for every resolved lunar day [d];
    the event is all-day, titled
    "<ordinal> Night" when the rule has no label, and runs from the start
    to the end of the civil day before the civil date of [d], which it
    does not reach.  With the anchor 2024-03-11 of 30 days in Asia/Qatar,
    an unlabelled night rule for day 15 alone gives one all-day event on
    2024-03-24 titled "15th Night". *)
Theorem night_event_on_previous_civil_day :
  (∀ opts item cfg sd,
     Opts.monthConfigs opts !! normMonth (StandardItem.hijri_month item) = Some cfg →
     defaultPath (StandardItem.rule_kind item) = true →
     StandardItem.period item = Period.night →
     StandardItem.start_day item = Some sd →
     sd ≠ 0 →
     let tz := Opts.timezone opts in
     let startDay := resolveStartDay sd (MonthConfig.length cfg) in
     let endDay := resolveEndDay (StandardItem.end_day item) startDay (MonthConfig.length cfg) in
     emitted zi adhan opts item
     = nightEvent zi item cfg tz <$> seqZ startDay (endDay + 1 - startDay)
     ∧ ∀ d,
         ExpandedEvent.allDay (nightEvent zi item cfg tz d) = true
         ∧ ExpandedEvent.title (nightEvent zi item cfg tz d)
           = (if String.eqb (StandardItem.label item) ""
              then getOrdinal d +:+ " Night" else StandardItem.label item)
         ∧ ∀ day0, anchorDay zi cfg tz = Some day0 →
             hijriDayToGregorian zi cfg d tz = Luxon.Valid tz (day0 + (d - 1)) 0
             ∧ ExpandedEvent.startISO (nightEvent zi item cfg tz d)
               = Luxon.toISO zi (Luxon.Valid tz (day0 + (d - 1) - 1) 0)
             ∧ ExpandedEvent.endISO (nightEvent zi item cfg tz d)
               = Luxon.toISO zi (Luxon.Valid tz (day0 + (d - 1) - 1) (Luxon.msPerDay - 1))
             ∧ day0 + (d - 1) - 1 < day0 + (d - 1)
             ∧ 0 ≤ Luxon.msPerDay - 1 < Luxon.msPerDay)
  ∧ (∀ (meta : Any) (coords : Coords.t number) item,
       normMonth (StandardItem.hijri_month item) = "ramadan" →
       defaultPath (StandardItem.rule_kind item) = true →
       StandardItem.period item = Period.night →
       StandardItem.start_day item = Some 15 →
       StandardItem.end_day item = Some 15 →
       StandardItem.label item = "" →
       ∃ ev,
         expandAmaalEvents qatarZones adhan
           (Opts.mk (StandardAmaal.mk meta [item]) ramadan30 "Asia/Qatar" coords) = [ev]
         ∧ ExpandedEvent.title ev = "15th Night"
         ∧ ExpandedEvent.allDay ev = true
         ∧ ExpandedEvent.startISO ev = Some "2024-03-24T00:00:00.000+03:00"
         ∧ ExpandedEvent.endISO ev = Some "2024-03-24T23:59:59.999+03:00").
Proof.
  split.
  - intros opts item cfg sd Hcfg Hk Hp Hsd Hnz tz startDay endDay.
    split.
    + unfold emitted. rewrite (expandItem_default _ _ _ _ cfg sd) by assumption.
      rewrite app_nil_l. apply list_fmap_ext. intros _ d _.
      unfold periodEvent. now rewrite Hp.
    + intros d. split; [reflexivity|]. split; [reflexivity|].
      intros day0 Hday. split; [now apply hijriDay_anchor|].
      cbn [nightEvent ExpandedEvent.startISO ExpandedEvent.endISO].
      rewrite (hijriDay_anchor _ _ _ _ _ Hday). cbn [Luxon.minusDays Luxon.startOfDay Luxon.endOfDay].
      unfold Luxon.msPerDay. repeat split; lia.
  - intros meta coords item Hmonth Hk Hp Hsd Hed Hlabel.
    set (opts := Opts.mk (StandardAmaal.mk meta [item]) ramadan30 "Asia/Qatar" coords).
    assert (Hcfg : Opts.monthConfigs opts !! normMonth (StandardItem.hijri_month item)
                   = Some (MonthConfig.mk "2024-03-11" 30)).
    { rewrite Hmonth. apply lookup_singleton_eq. }
    exists (nightEvent qatarZones item (MonthConfig.mk "2024-03-11" 30) "Asia/Qatar" 15).
    split; [|split; [|repeat split]].
    + apply expand_single. unfold emitted.
      rewrite (expandItem_default _ _ _ _ _ 15 _ Hcfg Hk Hsd) by lia.
      rewrite Hed. unfold periodEvent. rewrite Hp. reflexivity.
    + cbn [nightEvent ExpandedEvent.title]. rewrite Hlabel. reflexivity.
Qed.

(** When the start day of a night rule is present and not 0 and
    resolves to 1, the rule pushes the event of lunar day 1 first, which
    runs from the start to the end
    of the civil day before the anchor date, a day outside the civil days
    [anchor, anchor + length) of the month. *)
Theorem first_night_precedes_anchor opts item cfg sd day0 :
  Opts.monthConfigs opts !! normMonth (StandardItem.hijri_month item) = Some cfg →
  defaultPath (StandardItem.rule_kind item) = true →
  StandardItem.period item = Period.night →
  StandardItem.start_day item = Some sd →
  sd ≠ 0 →
  1 ≤ MonthConfig.length cfg →
  resolveStartDay sd (MonthConfig.length cfg) = 1 →
  anchorDay zi cfg (Opts.timezone opts) = Some day0 →
  ∃ ev rest,
    emitted zi adhan opts item = ev :: rest
    ∧ ExpandedEvent.allDay ev = true
    ∧ ExpandedEvent.startISO ev
      = Luxon.toISO zi (Luxon.Valid (Opts.timezone opts) (day0 - 1) 0)
    ∧ ExpandedEvent.endISO ev
      = Luxon.toISO zi (Luxon.Valid (Opts.timezone opts) (day0 - 1) (Luxon.msPerDay - 1))
    ∧ ¬ (day0 ≤ day0 - 1 < day0 + MonthConfig.length cfg).
Proof.
  intros Hcfg Hk Hp Hsd Hnz Hlen Hstart Hday.
  unfold emitted. rewrite (expandItem_default _ _ _ _ cfg sd) by assumption.
  rewrite Hstart. rewrite app_nil_l.
  assert (Hend : 1 ≤ resolveEndDay (StandardItem.end_day item) 1 (MonthConfig.length cfg)).
  { unfold resolveEndDay. destruct (StandardItem.end_day item); lia. }
  rewrite seqZ_cons by lia. rewrite fmap_cons.
  eexists _, _. split; [reflexivity|].
  unfold periodEvent. rewrite Hp.
  cbn [nightEvent ExpandedEvent.allDay ExpandedEvent.startISO ExpandedEvent.endISO].
  rewrite (hijriDay_anchor _ _ _ _ _ Hday). cbn [Luxon.minusDays Luxon.startOfDay Luxon.endOfDay].
  replace (day0 + (1 - 1) - 1) with (day0 - 1) by lia.
  repeat split; lia.
Qed.

Lemma targetHas_spec item (wd : option Z) :
  targetHas (weekdayTarget item) wd = true
  ↔ ∃ code, code ∈ default [] (StandardItem.weekdays item)
      ∧ Num <$> wd = Some (weekdayToLuxon code).
Proof.
  unfold targetHas, weekdayTarget. destruct wd as [w|].
  - rewrite bool_decide_eq_true, elem_of_list_to_set, list_elem_of_fmap.
    split; intros (code & H1 & H2); exists code.
    + split; [exact H2 | simpl; now rewrite H1].
    + split; [|exact H1]. simpl in H2. now injection H2.
  - split; [discriminate | intros (code & _ & H); discriminate].
Qed.

Lemma weekday_is_anchored cfg tz d w :
  Luxon.weekday (hijriDayToGregorian zi cfg d tz) = Some w →
  ∃ day0, anchorDay zi cfg tz = Some day0 ∧ w = (day0 + (d - 1) + 3) mod 7 + 1.
Proof.
  unfold anchorDay, hijriDayToGregorian.
  destruct (Luxon.fromISO zi (MonthConfig.startDateISO cfg) tz) as [z day ms|]; simpl;
    [|discriminate].
  intros [= <-]. eauto.
Qed.

(** C6: a [weekday] or [weekday_multi] rule of a configured month of
    length [L] pushes one event for each lunar day of 1..L whose civil
    date has a weekday among the rule's codes, in order, and nothing for
    the other days; such an event is timed, its instants are those of the
    prayer times of that civil date, and its title is "<ordinal> Day"
    when the rule has no label.  For the codes [THU] on a month of 30
    days whose day 1 is a Sunday the events are the four of the lunar
    days 5, 12, 19 and 26, all Thursdays. *)
Theorem weekday_rule_events :
  (∀ opts item cfg,
     Opts.monthConfigs opts !! normMonth (StandardItem.hijri_month item) = Some cfg →
     weekdayKind (StandardItem.rule_kind item) = true →
     let tz := Opts.timezone opts in
     let coords := Opts.coords opts in
     let days :=
       filter (fun d => targetHas (weekdayTarget item)
                          (Luxon.weekday (hijriDayToGregorian zi cfg d tz)) = true)
         (seqZ 1 (MonthConfig.length cfg)) in
     emitted zi adhan opts item = weekdayEvent zi adhan item cfg tz coords <$> days
     ∧ NoDup days
     ∧ (∀ d, d ∈ days ↔
              1 ≤ d ≤ MonthConfig.length cfg
              ∧ ∃ code, code ∈ default [] (StandardItem.weekdays item)
                  ∧ Num <$> Luxon.weekday (hijriDayToGregorian zi cfg d tz)
                    = Some (weekdayToLuxon code))
     ∧ ∀ d,
         ExpandedEvent.allDay (weekdayEvent zi adhan item cfg tz coords d) = false
         ∧ ExpandedEvent.startISO (weekdayEvent zi adhan item cfg tz coords d)
           = Luxon.toISO zi
               (fst (getPrayerTimesAccurate zi adhan (hijriDayToGregorian zi cfg d tz) tz coords))
         ∧ ExpandedEvent.endISO (weekdayEvent zi adhan item cfg tz coords d)
           = Luxon.toISO zi
               (snd (getPrayerTimesAccurate zi adhan (hijriDayToGregorian zi cfg d tz) tz coords))
         ∧ ExpandedEvent.title (weekdayEvent zi adhan item cfg tz coords d)
           = (if String.eqb (StandardItem.label item) ""
              then getOrdinal d +:+ " Day" else StandardItem.label item))
  ∧ (∀ opts item cfg,
       Opts.monthConfigs opts !! normMonth (StandardItem.hijri_month item) = Some cfg →
       weekdayKind (StandardItem.rule_kind item) = true →
       StandardItem.weekdays item = Some ["THU"] →
       MonthConfig.length cfg = 30 →
       Luxon.weekday (hijriDayToGregorian zi cfg 1 (Opts.timezone opts)) = Some 7 →
       emitted zi adhan opts item
       = weekdayEvent zi adhan item cfg (Opts.timezone opts) (Opts.coords opts)
           <$> [5; 12; 19; 26]
       ∧ length (emitted zi adhan opts item) = 4%nat
       ∧ ∀ d, d ∈ [5; 12; 19; 26] →
           Luxon.weekday (hijriDayToGregorian zi cfg d (Opts.timezone opts)) = Some 4).
Proof.
  split.
  - intros opts item cfg Hcfg Hk tz coords days.
    split; [|split; [|split]].
    + unfold emitted. now rewrite (expandItem_weekday _ _ _ _ cfg).
    + apply NoDup_filter, NoDup_seqZ.
    + intros d. unfold days. rewrite list_elem_of_filter, elem_of_seqZ, targetHas_spec.
      split; intros [H1 H2]; split; first [exact H1 | exact H2 | lia].
    + intros d. unfold weekdayEvent.
      destruct (getPrayerTimesAccurate _ _ _ _ _). repeat split.
  - intros opts item cfg Hcfg Hk Hwd Hlen Hsun.
    destruct (weekday_is_anchored _ _ _ _ Hsun) as (day0 & Hday & Hw).
    assert (Hdays :
      filter (fun d => targetHas (weekdayTarget item)
                         (Luxon.weekday (hijriDayToGregorian zi cfg d (Opts.timezone opts))) = true)
        (seqZ 1 (MonthConfig.length cfg)) = [5; 12; 19; 26]).
    { rewrite Hlen.
      rewrite (list_filter_iff _ (fun d => d mod 7 = 5)); [vm_compute; reflexivity|].
      intros d. rewrite targetHas_spec, Hwd, (hijriDay_anchor _ _ _ _ _ Hday). simpl.
      split.
      - intros (code & Hcode & Heq). apply list_elem_of_singleton in Hcode. subst code.
        change (weekdayToLuxon "THU") with (Num 4) in Heq. injection Heq as Heq.
        revert Hw Heq. clear. intros. Z.div_mod_to_equations. lia.
      - intros Hd. exists "THU". split; [apply list_elem_of_here|].
        change (weekdayToLuxon "THU") with (Num 4). do 2 f_equal.
        revert Hw Hd. clear. intros. Z.div_mod_to_equations. lia. }
    assert (Hem : emitted zi adhan opts item
                  = weekdayEvent zi adhan item cfg (Opts.timezone opts) (Opts.coords opts)
                      <$> [5; 12; 19; 26]).
    { unfold emitted. rewrite (expandItem_weekday _ _ _ _ cfg) by assumption.
      now rewrite Hdays. }
    split; [exact Hem|]. split; [now rewrite Hem|].
    intros d Hd. rewrite (hijriDay_anchor _ _ _ _ _ Hday). simpl. f_equal.
    rewrite !elem_of_cons, elem_of_nil in Hd.
    revert Hw Hd. clear. intros. Z.div_mod_to_equations. lia.
Qed.

(** C7, as the code has it: the colour of an event is a function of the
    kind and the period of its rule, with three hues: "#8b5cf6" for the
    month-wide rules and for the all-day events of the remaining periods,
    "#059669" for the weekday rules and the day period, "#2563eb" for the
    night period. *)
Theorem event_color_by_kind_and_period :
  (∀ opts item ev,
     ev ∈ emitted zi adhan opts item →
     ExpandedEvent.color ev
     = Some (categoryColor (StandardItem.rule_kind item) (StandardItem.period item)))
  ∧ (∀ opts ev,
       ev ∈ expandAmaalEvents zi adhan opts →
       ∃ item, item ∈ StandardAmaal.items (Opts.amaal opts)
         ∧ ExpandedEvent.color ev
           = Some (categoryColor (StandardItem.rule_kind item) (StandardItem.period item)))
  ∧ (∀ k p, monthWide k = true → categoryColor k p = "#8b5cf6")
  ∧ (∀ k p, weekdayKind k = true → categoryColor k p = "#059669")
  ∧ (∀ k, defaultPath k = true →
       categoryColor k Period.day = "#059669"
       ∧ categoryColor k Period.night = "#2563eb"
       ∧ categoryColor k Period.day_and_night = "#8b5cf6").
Proof.
  assert (Hone : ∀ opts item ev,
     ev ∈ emitted zi adhan opts item →
     ExpandedEvent.color ev
     = Some (categoryColor (StandardItem.rule_kind item) (StandardItem.period item))).
  { intros opts item ev.
    destruct (emitted_read zi adhan opts item) as [-> | (cfg & -> & _)].
    { intros H. now apply elem_of_nil in H. }
    destruct (configured_cases zi adhan opts item cfg)
      as [[Hk ->]|[[Hk ->]|[(_ & _ & ->)|(Hk & sd & _ & _ & ->)]]].
    - rewrite list_elem_of_singleton. intros ->.
      unfold categoryColor. now rewrite Hk.
    - rewrite list_elem_of_fmap. intros (d & -> & _).
      unfold weekdayEvent. destruct (getPrayerTimesAccurate _ _ _ _ _).
      unfold categoryColor. rewrite Hk. now destruct (StandardItem.rule_kind item).
    - intros H. now apply elem_of_nil in H.
    - rewrite list_elem_of_fmap. intros (d & -> & _).
      unfold periodEvent, dayEvent, categoryColor.
      destruct (StandardItem.rule_kind item); try discriminate;
        destruct (StandardItem.period item);
        try destruct (getPrayerTimesAccurate _ _ _ _ _); reflexivity. }
  split; [exact Hone|]. split.
  - intros opts ev Hev.
    assert (Hin : ev ∈ collectEvents zi adhan opts).
    { eapply elem_of_sublist; [exact Hev | apply filterSeen_sublist]. }
    rewrite collectEvents_bind, list_elem_of_bind in Hin.
    destruct Hin as (item & Hem & Hitem). exists item. split; [exact Hitem|].
    now apply (Hone opts).
  - split; [|split].
    + intros k p Hk. unfold categoryColor. now rewrite Hk.
    + intros k p Hk. unfold categoryColor. rewrite Hk. now destruct k.
    + intros k Hk. unfold categoryColor. destruct k; try discriminate; repeat split.
Qed.

(** The default path for a start day other than 0: the rule pushes one
    event for every day from the clamped start day to the clamped end day. *)
Lemma default_path_resolved_days opts item cfg sd :
  Opts.monthConfigs opts !! normMonth (StandardItem.hijri_month item) = Some cfg →
  defaultPath (StandardItem.rule_kind item) = true →
  StandardItem.start_day item = Some sd →
  sd ≠ 0 →
  1 ≤ MonthConfig.length cfg →
  let L := MonthConfig.length cfg in
  let startDay := resolveStartDay sd L in
  let endDay := resolveEndDay (StandardItem.end_day item) startDay L in
  emitted zi adhan opts item
  = periodEvent zi adhan opts item cfg <$> seqZ startDay (endDay + 1 - startDay)
  ∧ (∀ d, d ∈ seqZ startDay (endDay + 1 - startDay) ↔ startDay ≤ d ≤ endDay)
  ∧ 1 ≤ startDay ≤ L
  ∧ (1 ≤ sd ≤ L → startDay = sd) ∧ (sd < 1 → startDay = 1) ∧ (L < sd → startDay = L)
  ∧ startDay ≤ endDay ≤ L
  ∧ (StandardItem.end_day item = None → endDay = L)
  ∧ (∀ ed, StandardItem.end_day item = Some ed →
       (startDay ≤ ed ≤ L → endDay = ed) ∧ (ed < startDay → endDay = startDay)
       ∧ (L < ed → endDay = L)).
Proof.
  intros Hcfg Hk Hsd Hnz Hlen L startDay endDay.
  split.
  { unfold emitted. rewrite (expandItem_default _ _ _ _ cfg sd) by assumption. reflexivity. }
  split; [intros d; apply days_between|].
  unfold endDay, startDay, resolveEndDay, resolveStartDay, L.
  destruct (StandardItem.end_day item) as [e|];
    repeat (first [split | progress intros]); simplify_eq; lia.
Qed.

(** A rule of the default path without a start day pushes nothing. *)
Lemma missing_start_day_skipped opts item :
  defaultPath (StandardItem.rule_kind item) = true →
  StandardItem.start_day item = None →
  emitted zi adhan opts item = [].
Proof. intros Hk Hsd. unfold emitted. apply expandItem_noStart; auto. Qed.

End ExpanderClaims.

(** * The start day 0 *)

(** C1: at the rule with [start_day = 0] and [end_day = 99] of a 29-day
    month the expander returns no event, although the clamps of the
    default path resolve these bounds to the days 1..29; the same rule
    with [start_day = -1] gives the 29 events of the days 1..29. *)
Theorem zero_start_day_rule_skipped :
  expandAmaalEvents qatarZones sampleAdhan
    (sampleOpts ramadan29
       [sampleItem "r" "Ramadan" "" Period.day_and_night RuleKind.range (Some 0) (Some 99) None])
  = []
  ∧ resolveStartDay 0 29 = 1
  ∧ resolveEndDay (Some 99) (resolveStartDay 0 29) 29 = 29
  ∧ ExpandedEvent.id <$>
      expandAmaalEvents qatarZones sampleAdhan
        (sampleOpts ramadan29
           [sampleItem "r" "Ramadan" "" Period.day_and_night RuleKind.range
              (Some (-1)) (Some 99) None])
    = (fun d => "r_allday_" +:+ numToString d) <$> seqZ 1 29.
Proof. vm_compute. repeat split. Qed.

(** C2: at the night rule with [start_day = 0] and [end_day = 2] of a
    30-day month anchored at 2024-03-11 the expander returns no event,
    although the clamps resolve these bounds to the lunar days 1..2; the
    same rule with [start_day = -1] gives the night events of the lunar
    days 1 and 2, on 2024-03-10 and 2024-03-11. *)
Theorem zero_start_day_night_rule_skipped :
  expandAmaalEvents qatarZones sampleAdhan
    (sampleOpts ramadan30
       [sampleItem "n" "Ramadan" "" Period.night RuleKind.range (Some 0) (Some 2) None])
  = []
  ∧ resolveStartDay 0 30 = 1
  ∧ resolveEndDay (Some 2) (resolveStartDay 0 30) 30 = 2
  ∧ (triple <$>
       expandAmaalEvents qatarZones sampleAdhan
         (sampleOpts ramadan30
            [sampleItem "n" "Ramadan" "" Period.night RuleKind.range (Some (-1)) (Some 2) None]))
    = [("1st Night", Some "2024-03-10T00:00:00.000+03:00", Some "2024-03-10T23:59:59.999+03:00");
       ("2nd Night", Some "2024-03-11T00:00:00.000+03:00", Some "2024-03-11T23:59:59.999+03:00")].
Proof. vm_compute. repeat split. Qed.

(** C10: the start day 0 of a night rule resolves to 1 on a 30-day month
    anchored at 2024-03-11, and the expander returns no event for the
    rule, so none on 2024-03-10, the civil day before the anchor; the
    same rule with [start_day = 1] has the event of 2024-03-10 first. *)
Theorem zero_start_day_first_night_missing :
  resolveStartDay 0 30 = 1
  ∧ resolveStartDay 1 30 = 1
  ∧ expandAmaalEvents qatarZones sampleAdhan
      (sampleOpts ramadan30
         [sampleItem "n" "Ramadan" "" Period.night RuleKind.night_general (Some 0) None None])
    = []
  ∧ (triple <$>
       expandAmaalEvents qatarZones sampleAdhan
         (sampleOpts ramadan30
            [sampleItem "n" "Ramadan" "" Period.night RuleKind.night_general (Some 1) None None]))
      !! 0%nat
    = Some ("1st Night", Some "2024-03-10T00:00:00.000+03:00",
            Some "2024-03-10T23:59:59.999+03:00").
Proof. vm_compute. repeat split. Qed.

(** * Names of members of [Object.prototype] *)

(** C5: no month is configured, and the month-wide rule of the month
    named "constructor" is not skipped: the read of [monthConfigs] finds
    the member of [Object.prototype] of that name, and the output holds
    the event of the rule, with [null] instants; without the rule the
    output is empty. *)
Theorem constructor_month_not_skipped :
  let item :=
    sampleItem "c" "constructor" "" Period.day_and_night RuleKind.month_all None None None in
  let opts := sampleOpts ∅ [item] in
  Opts.monthConfigs opts !! normMonth (StandardItem.hijri_month item) = None
  ∧ getProperty (Opts.monthConfigs opts) (normMonth (StandardItem.hijri_month item))
    = Inherited "constructor"
  ∧ expandAmaalEvents qatarZones sampleAdhan opts
    = [ExpandedEvent.mk "c" "constructor" None None true "" Null (Some "#8b5cf6")]
  ∧ expandAmaalEvents qatarZones sampleAdhan (withItems opts []) = [].
Proof. vm_compute. repeat split. Qed.

(** C9: the code "constructor" is outside MON..SUN and does not map to
    0: [weekdayToLuxon] returns the member of [Object.prototype] of that
    name, where a code such as "XYZ" maps to 0; the weekday rule with
    that code alone still emits nothing. *)
Theorem inherited_weekday_code_not_sentinel :
  let item :=
    sampleItem "w" "Ramadan" "" Period.day RuleKind.weekday None None (Some ["constructor"]) in
  ("constructor" ∉ weekdayCodes)
  ∧ weekdayToLuxon "constructor" = Member "constructor"
  ∧ weekdayToLuxon "constructor" ≠ Num 0
  ∧ weekdayToLuxon "XYZ" = Num 0
  ∧ expandAmaalEvents qatarZones sampleAdhan (sampleOpts ramadan30 [item]) = [].
Proof.
  split.
  { unfold weekdayCodes. rewrite !not_elem_of_cons.
    repeat split; try discriminate. apply not_elem_of_nil. }
  split; [vm_compute; reflexivity|].
  split; [vm_compute; discriminate|].
  split; vm_compute; reflexivity.
Qed.

(** * The colours *)

(** C7, as stated, fails: the event of a [month_all] rule and the all-day
    event of a [specific] rule with period [day_and_night] have the same
    colour, so the hues of the month-wide and of the generic all-day
    events are not distinct. *)
Lemma four_hues_refuted :
  ExpandedEvent.color <$>
    expandAmaalEvents qatarZones sampleAdhan
      (sampleOpts ramadan30
         [sampleItem "m" "Ramadan" "" Period.day RuleKind.month_all None None None;
          sampleItem "g" "Ramadan" "" Period.day_and_night RuleKind.specific
            (Some 1) (Some 1) None])
  = [Some "#8b5cf6"; Some "#8b5cf6"]
  ∧ ¬ fourDistinctHues.
Proof.
  split; [vm_compute; reflexivity|].
  intros (hMonth & hDay & hNight & hGeneric & Hdistinct & Hall).
  pose (itemM := sampleItem "m" "Ramadan" "" Period.day RuleKind.month_all None None None).
  pose (itemG := sampleItem "g" "Ramadan" "" Period.day_and_night RuleKind.specific
                   (Some 1) (Some 1) None).
  pose (cfg := MonthConfig.mk "2024-03-11" 30).
  assert (HM : monthWideEvent qatarZones itemM cfg "Asia/Qatar"
               ∈ emitted qatarZones sampleAdhan (sampleOpts ramadan30 [itemM]) itemM).
  { replace (emitted qatarZones sampleAdhan (sampleOpts ramadan30 [itemM]) itemM)
      with [monthWideEvent qatarZones itemM cfg "Asia/Qatar"] by (vm_compute; reflexivity).
    apply list_elem_of_here. }
  assert (HG : allDayEvent qatarZones itemG cfg "Asia/Qatar" 1
               ∈ emitted qatarZones sampleAdhan (sampleOpts ramadan30 [itemG]) itemG).
  { replace (emitted qatarZones sampleAdhan (sampleOpts ramadan30 [itemG]) itemG)
      with [allDayEvent qatarZones itemG cfg "Asia/Qatar" 1] by (vm_compute; reflexivity).
    apply list_elem_of_here. }
  apply (Hall ramadan30 itemM _ eq_refl) in HM.
  apply (Hall ramadan30 itemG _ eq_refl) in HG.
  simpl in HM, HG.
  destruct Hdistinct as (_ & _ & Hne & _).
  apply Hne. congruence.
Qed.

(** * The properties at concrete inputs *)

Lemma getOrdinal_suffix_at_22 :
  1 ≤ 22
  ∧ getOrdinal 22 = numToString 22 +:+ ordinalSuffix 22
  ∧ Luxon.parseDigits (numToString 22) 0 = Some 22.
Proof.
  split; [lia|]. apply (proj1 getOrdinal_suffix 22). lia.
Defined.

Lemma unconfigured_rule_skipped_at_shawwal :
  let item := sampleItem "s" "Shawwal" "" Period.day RuleKind.range (Some 1) (Some 3) None in
  let pre := [sampleItem "m" "Ramadan" "" Period.day RuleKind.month_all None None None] in
  let post := [sampleItem "n" "Ramadan" "" Period.night RuleKind.specific (Some 15) (Some 15) None] in
  let opts := sampleOpts ramadan30 [] in
  (Opts.monthConfigs opts !! normMonth (StandardItem.hijri_month item) = None
   ∧ objectPrototype !! normMonth (StandardItem.hijri_month item) = None)
  ∧ ((∀ events, expandItem qatarZones sampleAdhan opts item events = events)
     ∧ emitted qatarZones sampleAdhan opts item = []
     ∧ expandAmaalEvents qatarZones sampleAdhan (withItems opts (pre ++ item :: post))
       = expandAmaalEvents qatarZones sampleAdhan (withItems opts (pre ++ post))).
Proof.
  intros item pre post opts.
  assert (H : Opts.monthConfigs opts !! normMonth (StandardItem.hijri_month item) = None)
    by (vm_compute; reflexivity).
  assert (H' : objectPrototype !! normMonth (StandardItem.hijri_month item) = None)
    by (vm_compute; reflexivity).
  split; [split; assumption|].
  exact (unconfigured_rule_skipped qatarZones sampleAdhan opts pre post item H H').
Defined.

Lemma month_wide_single_event_at_ramadan :
  let item := sampleItem "m" "Ramadan" "" Period.day RuleKind.month_all None None None in
  let cfg := MonthConfig.mk "2024-03-11" 30 in
  let opts := sampleOpts ramadan30 [item] in
  (Opts.monthConfigs opts !! normMonth (StandardItem.hijri_month item) = Some cfg
   ∧ monthWide (StandardItem.rule_kind item) = true)
  ∧ ∃ ev,
      expandItem qatarZones sampleAdhan opts item [] = [] ++ [ev]
      ∧ ExpandedEvent.allDay ev = true
      ∧ ExpandedEvent.startISO ev = Some "2024-03-11T00:00:00.000+03:00"
      ∧ ExpandedEvent.endISO ev = Some "2024-04-10T00:00:00.000+03:00".
Proof.
  intros item cfg opts.
  assert (H1 : Opts.monthConfigs opts !! normMonth (StandardItem.hijri_month item) = Some cfg)
    by (vm_compute; reflexivity).
  assert (H2 : monthWide (StandardItem.rule_kind item) = true) by reflexivity.
  split; [split; assumption|].
  destruct (proj1 (month_wide_single_event qatarZones sampleAdhan) opts item cfg [] H1 H2)
    as (ev & Hev & Hall & Hs & He & _).
  exists ev. repeat split; [exact Hev | exact Hall | rewrite Hs | rewrite He];
    vm_compute; reflexivity.
Defined.

Lemma night_event_on_previous_civil_day_at_15 :
  let item := sampleItem "n" "Ramadan" "" Period.night RuleKind.specific (Some 15) (Some 15) None in
  let cfg := MonthConfig.mk "2024-03-11" 30 in
  let opts := sampleOpts ramadan30 [item] in
  (Opts.monthConfigs opts !! normMonth (StandardItem.hijri_month item) = Some cfg
   ∧ defaultPath (StandardItem.rule_kind item) = true
   ∧ StandardItem.period item = Period.night
   ∧ StandardItem.start_day item = Some 15
   ∧ 15 ≠ 0)
  ∧ emitted qatarZones sampleAdhan opts item
    = [nightEvent qatarZones item cfg "Asia/Qatar" 15]
  ∧ ExpandedEvent.startISO (nightEvent qatarZones item cfg "Asia/Qatar" 15)
    = Some "2024-03-24T00:00:00.000+03:00".
Proof.
  intros item cfg opts.
  assert (H1 : Opts.monthConfigs opts !! normMonth (StandardItem.hijri_month item) = Some cfg)
    by (vm_compute; reflexivity).
  assert (H5 : 15 ≠ 0) by lia.
  split; [repeat split; try assumption; reflexivity|].
  destruct (proj1 (night_event_on_previous_civil_day qatarZones sampleAdhan)
              opts item cfg 15 H1 eq_refl eq_refl eq_refl H5) as (Hem & Hd).
  split; [exact Hem|].
  destruct (Hd 15) as (_ & _ & Hanchor).
  destruct (Hanchor 19793 ltac:(vm_compute; reflexivity)) as (_ & Hs & _).
  etransitivity; [exact Hs | vm_compute; reflexivity].
Defined.

Lemma first_night_precedes_anchor_at_ramadan :
  let item := sampleItem "n" "Ramadan" "" Period.night RuleKind.range (Some 1) (Some 2) None in
  let cfg := MonthConfig.mk "2024-03-11" 30 in
  let opts := sampleOpts ramadan30 [item] in
  (Opts.monthConfigs opts !! normMonth (StandardItem.hijri_month item) = Some cfg
   ∧ defaultPath (StandardItem.rule_kind item) = true
   ∧ StandardItem.period item = Period.night
   ∧ StandardItem.start_day item = Some 1
   ∧ 1 ≠ 0
   ∧ 1 ≤ MonthConfig.length cfg
   ∧ resolveStartDay 1 (MonthConfig.length cfg) = 1
   ∧ anchorDay qatarZones cfg (Opts.timezone opts) = Some 19793)
  ∧ ∃ ev rest,
      emitted qatarZones sampleAdhan opts item = ev :: rest
      ∧ ExpandedEvent.startISO ev = Some "2024-03-10T00:00:00.000+03:00"
      ∧ ExpandedEvent.endISO ev = Some "2024-03-10T23:59:59.999+03:00".
Proof.
  intros item cfg opts.
  assert (H1 : Opts.monthConfigs opts !! normMonth (StandardItem.hijri_month item) = Some cfg)
    by (vm_compute; reflexivity).
  assert (H5 : 1 ≠ 0) by lia.
  assert (H6 : 1 ≤ MonthConfig.length cfg) by (simpl; lia).
  assert (H8 : anchorDay qatarZones cfg (Opts.timezone opts) = Some 19793)
    by (vm_compute; reflexivity).
  split; [repeat split; try assumption; reflexivity|].
  destruct (first_night_precedes_anchor qatarZones sampleAdhan opts item cfg 1 19793
              H1 eq_refl eq_refl eq_refl H5 H6 eq_refl H8)
    as (ev & rest & Hem & _ & Hs & He & _).
  exists ev, rest. split; [exact Hem|].
  split; [rewrite Hs | rewrite He]; vm_compute; reflexivity.
Defined.

Lemma unrecognized_weekdays_emit_nothing_at_xyz :
  let item := sampleItem "w" "Ramadan" "" Period.day RuleKind.weekday None None
                (Some ["XYZ"; "thu"]) in
  let opts := sampleOpts ramadan30 [item] in
  (weekdayKind (StandardItem.rule_kind item) = true
   ∧ ∀ code, code ∈ default [] (StandardItem.weekdays item) → code ∉ weekdayCodes)
  ∧ expandItem qatarZones sampleAdhan opts item [] = [].
Proof.
  intros item opts.
  assert (H2 : ∀ code, code ∈ default [] (StandardItem.weekdays item) → code ∉ weekdayCodes).
  { intros code. simpl. rewrite !elem_of_cons, elem_of_nil.
    unfold weekdayCodes. rewrite !not_elem_of_cons.
    intros [->|[->|[]]]; repeat split; try discriminate; apply not_elem_of_nil. }
  split; [split; [reflexivity | exact H2]|].
  exact (proj1 (unrecognized_weekdays_emit_nothing qatarZones sampleAdhan opts item []
                  eq_refl H2)).
Defined.

Lemma weekday_rule_events_at_thursdays :
  let item := sampleItem "w" "Ramadan" "" Period.day RuleKind.weekday None None (Some ["THU"]) in
  let cfg := MonthConfig.mk "2024-03-10" 30 in
  let opts := sampleOpts {[ "ramadan" := cfg ]} [item] in
  (Opts.monthConfigs opts !! normMonth (StandardItem.hijri_month item) = Some cfg
   ∧ weekdayKind (StandardItem.rule_kind item) = true
   ∧ StandardItem.weekdays item = Some ["THU"]
   ∧ MonthConfig.length cfg = 30
   ∧ Luxon.weekday (hijriDayToGregorian qatarZones cfg 1 (Opts.timezone opts)) = Some 7)
  ∧ emitted qatarZones sampleAdhan opts item
    = weekdayEvent qatarZones sampleAdhan item cfg (Opts.timezone opts) (Opts.coords opts)
        <$> [5; 12; 19; 26]
  ∧ length (emitted qatarZones sampleAdhan opts item) = 4%nat.
Proof.
  intros item cfg opts.
  assert (H1 : Opts.monthConfigs opts !! normMonth (StandardItem.hijri_month item) = Some cfg)
    by (vm_compute; reflexivity).
  assert (H5 : Luxon.weekday (hijriDayToGregorian qatarZones cfg 1 (Opts.timezone opts)) = Some 7)
    by (vm_compute; reflexivity).
  split; [repeat split; try assumption; reflexivity|].
  destruct (proj2 (weekday_rule_events qatarZones sampleAdhan) opts item cfg
              H1 eq_refl eq_refl eq_refl H5) as (Hem & Hlen & _).
  split; assumption.
Defined.

Lemma event_color_by_kind_and_period_at_night :
  let item := sampleItem "n" "Ramadan" "" Period.night RuleKind.specific (Some 15) (Some 15) None in
  let cfg := MonthConfig.mk "2024-03-11" 30 in
  let opts := sampleOpts ramadan30 [item] in
  nightEvent qatarZones item cfg "Asia/Qatar" 15 ∈ emitted qatarZones sampleAdhan opts item
  ∧ ExpandedEvent.color (nightEvent qatarZones item cfg "Asia/Qatar" 15)
    = Some (categoryColor RuleKind.specific Period.night).
Proof.
  intros item cfg opts.
  assert (H : nightEvent qatarZones item cfg "Asia/Qatar" 15
              ∈ emitted qatarZones sampleAdhan opts item).
  { replace (emitted qatarZones sampleAdhan opts item)
      with [nightEvent qatarZones item cfg "Asia/Qatar" 15] by (vm_compute; reflexivity).
    apply list_elem_of_here. }
  split; [exact H|].
  exact (proj1 (event_color_by_kind_and_period qatarZones sampleAdhan) opts item _ H).
Defined.

Lemma dedup_keeps_first_of_each_triple_at_overlap :
  let a1 := sampleItem "a1" "Ramadan" "Fast" Period.day_and_night RuleKind.specific
              (Some 3) (Some 3) None in
  let a2 := sampleItem "a2" "Ramadan" "Fast" Period.day_and_night RuleKind.range
              (Some 3) (Some 4) None in
  let b := sampleItem "b" "Ramadan" "Charity" Period.day_and_night RuleKind.specific
              (Some 3) (Some 3) None in
  let opts := sampleOpts ramadan30 [a1; a2; b] in
  ExpandedEvent.id <$> collectEvents qatarZones sampleAdhan opts
    = ["a1_allday_3"; "a2_allday_3"; "a2_allday_4"; "b_allday_3"]
  ∧ ExpandedEvent.id <$> expandAmaalEvents qatarZones sampleAdhan opts
    = ["a1_allday_3"; "a2_allday_4"; "b_allday_3"]
  ∧ NoDup (triple <$> expandAmaalEvents qatarZones sampleAdhan opts).
Proof.
  intros a1 a2 b opts.
  split; [vm_compute; reflexivity|]. split; [vm_compute; reflexivity|].
  exact (proj1 (proj2 (dedup_keeps_first_of_each_triple qatarZones sampleAdhan opts))).
Defined.

(** * Month-name normalisation: facts *)

Lemma replaceQuotes_id s : replaceQuotes s = s.
Proof.
  unfold replaceQuotes. induction s as [|c s IH]; simpl; [reflexivity|].
  rewrite IH. destruct (Ascii.eqb_spec c "'"); congruence.
Qed.

Lemma isSpace_lowerChar c : isSpace (lowerChar c) = isSpace c.
Proof. destruct c as [[] [] [] [] [] [] [] []]; vm_compute; reflexivity. Qed.

Lemma lowerChar_idem c : lowerChar (lowerChar c) = lowerChar c.
Proof. destruct c as [[] [] [] [] [] [] [] []]; vm_compute; reflexivity. Qed.

Lemma toLowerCase_idem s : toLowerCase (toLowerCase s) = toLowerCase s.
Proof.
  unfold toLowerCase. induction s as [|c s IH]; simpl; [reflexivity|].
  now rewrite IH, lowerChar_idem.
Qed.

Lemma trimStart_lower s : trimStart (toLowerCase s) = toLowerCase (trimStart s).
Proof.
  unfold toLowerCase. induction s as [|c s IH]; simpl; [reflexivity|].
  rewrite isSpace_lowerChar. destruct (isSpace c); [exact IH | reflexivity].
Qed.

Lemma lower_empty s : String.eqb (toLowerCase s) "" = String.eqb s "".
Proof. destruct s; reflexivity. Qed.

Lemma trimEnd_lower s : trimEnd (toLowerCase s) = toLowerCase (trimEnd s).
Proof.
  unfold toLowerCase. induction s as [|c s IH]; simpl; [reflexivity|].
  rewrite isSpace_lowerChar, IH. fold (toLowerCase (trimEnd s)). rewrite lower_empty.
  destruct (isSpace c && String.eqb (trimEnd s) ""); reflexivity.
Qed.

Lemma trim_lower s : trim (toLowerCase s) = toLowerCase (trim s).
Proof. unfold trim. now rewrite trimStart_lower, trimEnd_lower. Qed.

Lemma collapse_lower b s :
  collapseSpaces b (toLowerCase s) = toLowerCase (collapseSpaces b s).
Proof.
  unfold toLowerCase. revert b. induction s as [|c s IH]; intros b; simpl; [reflexivity|].
  rewrite isSpace_lowerChar. destruct (isSpace c).
  - destruct b; simpl; now rewrite IH.
  - simpl. now rewrite IH.
Qed.

Lemma trimStart_clean s : startsClean s = true → trimStart s = s.
Proof.
  destruct s as [|c s]; simpl; [reflexivity|].
  now destruct (isSpace c).
Qed.

Lemma trimStart_startsClean s : startsClean (trimStart s) = true.
Proof.
  induction s as [|c s IH]; simpl; [reflexivity|].
  destruct (isSpace c) eqn:Hc; [exact IH | simpl; now rewrite Hc].
Qed.

Lemma trimEnd_clean s : endsClean s = true → trimEnd s = s.
Proof.
  induction s as [|c s IH]; simpl; [reflexivity|].
  rewrite andb_true_iff. intros [Hs Hc]. rewrite (IH Hs).
  destruct (isSpace c); simpl in *; [|reflexivity].
  destruct (String.eqb s ""); [discriminate | reflexivity].
Qed.

Lemma trimEnd_endsClean s : endsClean (trimEnd s) = true.
Proof.
  induction s as [|c s IH]; simpl; [reflexivity|].
  destruct (isSpace c) eqn:Hc; simpl.
  - destruct (String.eqb (trimEnd s) "") eqn:He; simpl; [reflexivity|].
    now rewrite IH, He, orb_true_r.
  - now rewrite IH, Hc.
Qed.

Lemma trimEnd_startsClean s : startsClean s = true → startsClean (trimEnd s) = true.
Proof.
  destruct s as [|c s]; simpl; [reflexivity|].
  intros Hc. apply negb_true_iff in Hc. rewrite Hc. simpl. now rewrite Hc.
Qed.

Lemma trim_clean s : startsClean s = true → endsClean s = true → trim s = s.
Proof. intros H1 H2. unfold trim. now rewrite (trimStart_clean s H1), trimEnd_clean. Qed.

Lemma trim_startsClean s : startsClean (trim s) = true.
Proof. apply trimEnd_startsClean, trimStart_startsClean. Qed.

Lemma trim_endsClean s : endsClean (trim s) = true.
Proof. apply trimEnd_endsClean. Qed.

Lemma lower_startsClean s : startsClean (toLowerCase s) = startsClean s.
Proof. destruct s as [|c s]; simpl; [reflexivity | now rewrite isSpace_lowerChar]. Qed.

Lemma lower_endsClean s : endsClean (toLowerCase s) = endsClean s.
Proof.
  unfold toLowerCase. induction s as [|c s IH]; simpl; [reflexivity|].
  rewrite IH, isSpace_lowerChar. fold (toLowerCase s). now rewrite lower_empty.
Qed.

Lemma collapse_startsClean s :
  startsClean s = true → startsClean (collapseSpaces false s) = true.
Proof.
  destruct s as [|c s]; simpl; [reflexivity|].
  intros Hc. apply negb_true_iff in Hc. rewrite Hc. simpl. now rewrite Hc.
Qed.

Lemma collapse_nonempty b s :
  endsClean s = true → s ≠ "" → collapseSpaces b s ≠ "".
Proof.
  revert b. induction s as [|c s IH]; intros b Hs Hne; [congruence|].
  simpl in *. apply andb_true_iff in Hs as [Hs Hc].
  destruct (isSpace c); simpl in Hc; [|discriminate].
  assert (Hs' : s ≠ "") by (intros ->; discriminate).
  destruct b; [now apply IH | discriminate].
Qed.

Lemma collapse_endsClean b s :
  endsClean s = true → endsClean (collapseSpaces b s) = true.
Proof.
  revert b. induction s as [|c s IH]; intros b Hs; [reflexivity|].
  simpl in *. apply andb_true_iff in Hs as [Hs Hc].
  destruct (isSpace c) eqn:Hsp; simpl in Hc.
  - assert (Hs' : s ≠ "") by (intros ->; discriminate).
    destruct b; [now apply IH|].
    simpl. rewrite (IH true Hs). simpl.
    destruct (String.eqb_spec (collapseSpaces true s) "") as [He|_]; [|reflexivity].
    now apply collapse_nonempty in He.
  - simpl. rewrite (IH false Hs), Hsp. reflexivity.
Qed.

Lemma collapse_collapsed b s : collapsed b (collapseSpaces b s) = true.
Proof.
  revert b. induction s as [|c s IH]; intros b; simpl; [reflexivity|].
  destruct (isSpace c) eqn:Hsp.
  - destruct b; [apply IH|]. simpl. now rewrite IH.
  - simpl. now rewrite Hsp, IH.
Qed.

Lemma collapsed_fixed b s : collapsed b s = true → collapseSpaces b s = s.
Proof.
  revert b. induction s as [|c s IH]; intros b; simpl; [reflexivity|].
  destruct (isSpace c).
  - rewrite !andb_true_iff, negb_true_iff. intros [[Hc ->] Hs].
    apply Ascii.eqb_eq in Hc. subst c. now rewrite (IH true Hs).
  - intros Hs. now rewrite (IH false Hs).
Qed.

(** Normalising a month name twice is normalising it once, and neither
    the case of the letters nor white space around the name matters. *)
Theorem normMonth_idempotent s :
  normMonth (normMonth s) = normMonth s
  ∧ normMonth (toLowerCase s) = normMonth s
  ∧ normMonth (trim s) = normMonth s.
Proof.
  unfold normMonth. rewrite !replaceQuotes_id.
  assert (Hclean : ∀ x, startsClean x = true → endsClean x = true →
            trim (collapseSpaces false x) = collapseSpaces false x).
  { intros x H1 H2. apply trim_clean; [now apply collapse_startsClean | now apply collapse_endsClean]. }
  split; [|split].
  - rewrite Hclean.
    + rewrite <- collapse_lower, toLowerCase_idem.
      apply collapsed_fixed, collapse_collapsed.
    + rewrite lower_startsClean. apply trim_startsClean.
    + rewrite lower_endsClean. apply trim_endsClean.
  - now rewrite trim_lower, toLowerCase_idem.
  - now rewrite (trim_clean (trim s)) by (apply trim_startsClean || apply trim_endsClean).
Qed.

Lemma normMonth_page_key s :
  collapsed false (pageNormMonth s) = true → normMonth s = pageNormMonth s.
Proof. unfold normMonth. fold (pageNormMonth s). apply collapsed_fixed. Qed.

(** The library's key of a month name is the page's key with its white
    space collapsed; the two keys are the same exactly when the page's key
    has no white space other than single space characters. *)
Theorem normMonth_agrees_with_page s :
  normMonth (pageNormMonth s) = normMonth s
  ∧ (normMonth s = pageNormMonth s ↔ collapsed false (pageNormMonth s) = true).
Proof.
  split.
  - unfold pageNormMonth, normMonth. rewrite !replaceQuotes_id.
    rewrite trim_lower, toLowerCase_idem.
    now rewrite (trim_clean (trim s)) by (apply trim_startsClean || apply trim_endsClean).
  - unfold normMonth. fold (pageNormMonth s). split.
    + intros <-. apply collapse_collapsed.
    + apply normMonth_page_key.
Qed.

Lemma normMonth_agrees_with_page_at_rabi :
  normMonth (pageNormMonth "  Rabi al-Awwal ") = normMonth "  Rabi al-Awwal "
  ∧ normMonth "  Rabi al-Awwal " = pageNormMonth "  Rabi al-Awwal "
  ∧ normMonth "Rabi  al-Awwal" ≠ pageNormMonth "Rabi  al-Awwal".
Proof.
  split; [exact (proj1 (normMonth_agrees_with_page "  Rabi al-Awwal "))|].
  split.
  - apply (proj2 (normMonth_agrees_with_page "  Rabi al-Awwal ")). vm_compute. reflexivity.
  - intros H. apply (proj2 (normMonth_agrees_with_page "Rabi  al-Awwal")) in H.
    vm_compute in H. discriminate.
Defined.

(** * The month configuration: facts *)

(** The expander finds what [updateMonth] stored: for a month name whose
    page key has no white space other than single space characters, as
    every name the page offers, the lookup of a rule of that month is the
    patched configuration. *)
Theorem updateMonth_found_by_expander :
  (∀ month patch (prev : gmap string MonthConfig.t),
     collapsed false (pageNormMonth month) = true →
     updateMonth month patch prev !! normMonth month
     = Some (applyPatch (default (MonthConfig.mk "" 30) (prev !! pageNormMonth month)) patch))
  ∧ Forall (fun month => collapsed false (pageNormMonth month) = true) HIJRI_MONTHS.
Proof.
  split.
  - intros month patch prev Hc.
    rewrite (normMonth_page_key month Hc). unfold updateMonth.
    apply lookup_insert_eq.
  - unfold HIJRI_MONTHS.
    repeat (apply List.Forall_cons; [vm_compute; reflexivity|]). apply List.Forall_nil.
Qed.

Lemma updateMonth_found_by_expander_at_dhul_qadah :
  collapsed false (pageNormMonth " Dhul Qa'dah") = true
  ∧ updateMonth " Dhul Qa'dah" (MonthPatch.mk (Some "2024-05-09") None) ∅
      !! normMonth "DHUL QA'DAH  "
    = Some (MonthConfig.mk "2024-05-09" 30).
Proof.
  assert (H : collapsed false (pageNormMonth " Dhul Qa'dah") = true) by (vm_compute; reflexivity).
  split; [exact H|].
  replace (normMonth "DHUL QA'DAH  ") with (normMonth " Dhul Qa'dah") by (vm_compute; reflexivity).
  rewrite (proj1 updateMonth_found_by_expander " Dhul Qa'dah" _ ∅ H).
  vm_compute. reflexivity.
Defined.

(** Setting the start date and the length of a month, in either order,
    leaves the month with both, whatever it was before. *)
Theorem updateMonth_date_and_length month date len (prev : gmap string MonthConfig.t) :
  updateMonth month (MonthPatch.mk None (Some len))
    (updateMonth month (MonthPatch.mk (Some date) None) prev)
  = updateMonth month (MonthPatch.mk (Some date) None)
      (updateMonth month (MonthPatch.mk None (Some len)) prev)
  ∧ updateMonth month (MonthPatch.mk None (Some len))
      (updateMonth month (MonthPatch.mk (Some date) None) prev) !! pageNormMonth month
    = Some (MonthConfig.mk date len).
Proof.
  unfold updateMonth. rewrite !lookup_insert_eq, !insert_insert_eq. simpl.
  split; reflexivity.
Qed.

(** * Further properties of the expander *)

Lemma numToString_inj d d' : 0 ≤ d → 0 ≤ d' → numToString d = numToString d' → d = d'.
Proof.
  intros Hd Hd' Heq. unfold numToString in Heq.
  destruct (Z.ltb_spec d 0); [lia|]. destruct (Z.ltb_spec d' 0); [lia|].
  apply (f_equal (fun s => Luxon.parseDigits s 0)) in Heq.
  rewrite !parseDigits_digits in Heq by assumption. congruence.
Qed.

Lemma NoDup_fmap_on {A B : Type} (f : A → B) (l : list A) :
  (∀ x y, x ∈ l → y ∈ l → f x = f y → x = y) → NoDup l → NoDup (f <$> l).
Proof.
  induction l as [|x l IH]; intros Hinj Hnd; [constructor|].
  apply NoDup_cons in Hnd as [Hx Hl]. rewrite fmap_cons. apply NoDup_cons. split.
  - rewrite list_elem_of_fmap. intros (y & Hxy & Hy).
    apply Hx. rewrite (Hinj x y); [exact Hy | left | now right | exact Hxy].
  - apply IH; [|exact Hl]. intros a b Ha Hb. apply Hinj; now right.
Qed.

Lemma NoDup_fmap_eq {A B : Type} (f : A → B) (l : list A) x y :
  NoDup (f <$> l) → x ∈ l → y ∈ l → f x = f y → x = y.
Proof.
  induction l as [|a l IH]; intros Hnd Hx Hy Hxy; [now apply elem_of_nil in Hx|].
  rewrite fmap_cons in Hnd. apply NoDup_cons in Hnd as [Ha Hl].
  apply elem_of_cons in Hx as [->|Hx]; apply elem_of_cons in Hy as [->|Hy].
  - reflexivity.
  - exfalso. apply Ha. rewrite Hxy. now apply list_elem_of_fmap_2.
  - exfalso. apply Ha. rewrite <- Hxy. now apply list_elem_of_fmap_2.
  - now apply IH.
Qed.

Lemma weekday_code_of w :
  1 ≤ w ≤ 7 → ∃ code, code ∈ weekdayCodes ∧ weekdayToLuxon code = Num w.
Proof.
  intros Hw.
  assert (Hcases : w = 1 ∨ w = 2 ∨ w = 3 ∨ w = 4 ∨ w = 5 ∨ w = 6 ∨ w = 7) by lia.
  unfold weekdayCodes.
  destruct Hcases as [->|[->|[->|[->|[->|[->| ->]]]]]];
    [exists "MON" | exists "TUE" | exists "WED" | exists "THU"
     | exists "FRI" | exists "SAT" | exists "SUN"];
    (split; [rewrite !elem_of_cons; tauto | reflexivity]).
Qed.

Lemma filter_all (P : Z → Prop) `{!∀ d, Decision (P d)} (l : list Z) :
  (∀ d, d ∈ l → P d) → filter P l = l.
Proof.
  induction l as [|d l IH]; intros Hall; [reflexivity|].
  rewrite filter_cons_True by (apply Hall; left).
  f_equal. apply IH. intros d' Hd'. apply Hall. now right.
Qed.

Lemma filterSeen_fixed {Any : Type} (seen : gset string) (l : list (ExpandedEvent.t Any)) :
  NoDup (eventKey <$> l) → (∀ e, e ∈ l → eventKey e ∉ seen) → filterSeen seen l = l.
Proof.
  revert seen. induction l as [|x l IH]; intros seen Hnd Hseen; [reflexivity|].
  rewrite fmap_cons in Hnd. apply NoDup_cons in Hnd as [Hx Hl].
  cbn [filterSeen]. rewrite bool_decide_eq_false_2 by (apply Hseen; left).
  f_equal. apply IH; [exact Hl|].
  intros e He. rewrite elem_of_union, elem_of_singleton. intros [Heq|Hin].
  - apply Hx. rewrite <- Heq. now apply list_elem_of_fmap_2.
  - apply (Hseen e); [now right | exact Hin].
Qed.

Lemma bind_length_le {A B : Type} (f : A → list B) (n : nat) (l : list A) :
  (∀ x, x ∈ l → (length (f x) ≤ n)%nat) → (length (l ≫= f) ≤ n * length l)%nat.
Proof.
  induction l as [|x l IH]; intros Hle; [simpl; lia|].
  rewrite bind_cons, length_app. cbn [length].
  specialize (Hle x ltac:(left)) as Hx.
  specialize (IH ltac:(intros y Hy; apply Hle; now right)). lia.
Qed.

Lemma app_nil_r_s (s : string) : s +:+ "" = s.
Proof.
  induction s as [|c s IH]; [reflexivity|].
  rewrite app_cons_s. now rewrite IH.
Qed.

Section ExpanderExtras.

Context {Any number : Type}.
Variable zi : Luxon.ZoneInfo.
Variable adhan : number → number → option Z → option Z * option Z.

Local Abbreviation Item := (StandardItem.t Any).
Local Abbreviation Event := (ExpandedEvent.t Any).
Local Abbreviation Options := (Opts.t Any number).

Implicit Types (opts : Options) (item : Item) (events : list Event) (cfg : MonthConfig.t).

(** The shape of what a rule of a configured month emits. *)
Lemma emitted_cases opts item cfg :
  Opts.monthConfigs opts !! normMonth (StandardItem.hijri_month item) = Some cfg →
  (monthWide (StandardItem.rule_kind item) = true
   ∧ emitted zi adhan opts item = [monthWideEvent zi item cfg (Opts.timezone opts)])
  ∨ (weekdayKind (StandardItem.rule_kind item) = true
     ∧ emitted zi adhan opts item
       = weekdayEvent zi adhan item cfg (Opts.timezone opts) (Opts.coords opts) <$>
           filter (fun d => targetHas (weekdayTarget item)
                              (Luxon.weekday (hijriDayToGregorian zi cfg d (Opts.timezone opts)))
                            = true)
             (seqZ 1 (MonthConfig.length cfg)))
  ∨ (defaultPath (StandardItem.rule_kind item) = true
     ∧ (StandardItem.start_day item = None ∨ StandardItem.start_day item = Some 0)
     ∧ emitted zi adhan opts item = [])
  ∨ (defaultPath (StandardItem.rule_kind item) = true
     ∧ ∃ sd, StandardItem.start_day item = Some sd ∧ sd ≠ 0
       ∧ emitted zi adhan opts item
         = periodEvent zi adhan opts item cfg <$>
             seqZ (resolveStartDay sd (MonthConfig.length cfg))
               (resolveEndDay (StandardItem.end_day item)
                  (resolveStartDay sd (MonthConfig.length cfg)) (MonthConfig.length cfg)
                + 1 - resolveStartDay sd (MonthConfig.length cfg))).
Proof.
  intros Hcfg. unfold emitted. rewrite (expandItem_own _ _ _ _ _ _ Hcfg).
  apply configured_cases.
Qed.

(** A day-period rule of the default path pushes one timed event for each
    resolved lunar day; its instants are the prayer times asked for the
    civil date of that day, its title "<ordinal> Day" unless the rule has
    a label, and its identifier the rule's followed by ["_day_"] and the
    day number. *)
Theorem day_period_events opts item cfg sd :
  Opts.monthConfigs opts !! normMonth (StandardItem.hijri_month item) = Some cfg →
  defaultPath (StandardItem.rule_kind item) = true →
  StandardItem.period item = Period.day →
  StandardItem.start_day item = Some sd →
  sd ≠ 0 →
  let tz := Opts.timezone opts in
  let coords := Opts.coords opts in
  let startDay := resolveStartDay sd (MonthConfig.length cfg) in
  let endDay := resolveEndDay (StandardItem.end_day item) startDay (MonthConfig.length cfg) in
  emitted zi adhan opts item
  = dayEvent zi adhan item cfg tz coords <$> seqZ startDay (endDay + 1 - startDay)
  ∧ ∀ d,
      ExpandedEvent.allDay (dayEvent zi adhan item cfg tz coords d) = false
      ∧ ExpandedEvent.startISO (dayEvent zi adhan item cfg tz coords d)
        = Luxon.toISO zi
            (fst (getPrayerTimesAccurate zi adhan (hijriDayToGregorian zi cfg d tz) tz coords))
      ∧ ExpandedEvent.endISO (dayEvent zi adhan item cfg tz coords d)
        = Luxon.toISO zi
            (snd (getPrayerTimesAccurate zi adhan (hijriDayToGregorian zi cfg d tz) tz coords))
      ∧ ExpandedEvent.title (dayEvent zi adhan item cfg tz coords d)
        = (if String.eqb (StandardItem.label item) ""
           then getOrdinal d +:+ " Day" else StandardItem.label item)
      ∧ ExpandedEvent.id (dayEvent zi adhan item cfg tz coords d)
        = StandardItem.id item +:+ "_day_" +:+ numToString d.
Proof.
  intros Hcfg Hk Hp Hsd Hnz tz coords startDay endDay. split.
  - unfold emitted. rewrite (expandItem_default _ _ _ _ cfg sd) by assumption.
    rewrite app_nil_l. apply list_fmap_ext. intros _ d _.
    unfold periodEvent. now rewrite Hp.
  - intros d. unfold dayEvent. destruct (getPrayerTimesAccurate _ _ _ _ _). repeat split.
Qed.

(** A rule of the default path whose period is neither day nor night,
    with a start day that is present and not 0, pushes one all-day event
    for each resolved lunar day, from the start
    of its civil date to the start of the next; each event ends where the
    event of the next lunar day starts, and the events of the days
    1..length start and end where the month-wide event does. *)
Theorem all_day_events_tile_the_month opts item cfg sd :
  Opts.monthConfigs opts !! normMonth (StandardItem.hijri_month item) = Some cfg →
  defaultPath (StandardItem.rule_kind item) = true →
  StandardItem.period item = Period.day_and_night →
  StandardItem.start_day item = Some sd →
  sd ≠ 0 →
  let tz := Opts.timezone opts in
  let startDay := resolveStartDay sd (MonthConfig.length cfg) in
  let endDay := resolveEndDay (StandardItem.end_day item) startDay (MonthConfig.length cfg) in
  emitted zi adhan opts item
  = allDayEvent zi item cfg tz <$> seqZ startDay (endDay + 1 - startDay)
  ∧ (∀ d,
       ExpandedEvent.allDay (allDayEvent zi item cfg tz d) = true
       ∧ ∀ day0, anchorDay zi cfg tz = Some day0 →
           ExpandedEvent.startISO (allDayEvent zi item cfg tz d)
           = Luxon.toISO zi (Luxon.Valid tz (day0 + (d - 1)) 0)
           ∧ ExpandedEvent.endISO (allDayEvent zi item cfg tz d)
             = Luxon.toISO zi (Luxon.Valid tz (day0 + (d - 1) + 1) 0))
  ∧ (∀ (i : nat) (e1 e2 : Event),
       emitted zi adhan opts item !! i = Some e1 →
       emitted zi adhan opts item !! S i = Some e2 →
       ExpandedEvent.endISO e1 = ExpandedEvent.startISO e2)
  ∧ (∀ other : Item,
       ExpandedEvent.startISO (monthWideEvent zi other cfg tz)
       = ExpandedEvent.startISO (allDayEvent zi item cfg tz 1)
       ∧ ExpandedEvent.endISO (monthWideEvent zi other cfg tz)
         = ExpandedEvent.endISO (allDayEvent zi item cfg tz (MonthConfig.length cfg))).
Proof.
  intros Hcfg Hk Hp Hsd Hnz tz startDay endDay.
  assert (Hem : emitted zi adhan opts item
                = allDayEvent zi item cfg tz <$> seqZ startDay (endDay + 1 - startDay)).
  { unfold emitted. rewrite (expandItem_default _ _ _ _ cfg sd) by assumption.
    rewrite app_nil_l. apply list_fmap_ext. intros _ d _.
    unfold periodEvent. now rewrite Hp. }
  assert (Hstart : ∀ dt, Luxon.startOfDay (Luxon.plusDays (Luxon.startOfDay dt) 1)
                         = Luxon.plusDays (Luxon.startOfDay dt) 1)
    by (intros [z day ms|]; reflexivity).
  assert (Hgd : ∀ d, Luxon.startOfDay (hijriDayToGregorian zi cfg d tz)
                     = hijriDayToGregorian zi cfg d tz).
  { intros d. unfold hijriDayToGregorian.
    destruct (Luxon.fromISO zi (MonthConfig.startDateISO cfg) tz); reflexivity. }
  assert (Hnext : ∀ d, Luxon.startOfDay (Luxon.plusDays (hijriDayToGregorian zi cfg d tz) 1)
                       = hijriDayToGregorian zi cfg (d + 1) tz).
  { intros d. rewrite hijriDay_plus. apply Hgd. }
  split; [exact Hem|]. split; [|split].
  - intros d. split; [reflexivity|]. intros day0 Hday.
    cbn [allDayEvent ExpandedEvent.startISO ExpandedEvent.endISO].
    rewrite Hnext, Hgd, !(hijriDay_anchor _ _ _ _ _ Hday).
    split; do 2 f_equal. lia.
  - intros i e1 e2. rewrite Hem, !list_lookup_fmap.
    destruct (seqZ startDay (endDay + 1 - startDay) !! i) as [d1|] eqn:H1; [|discriminate].
    destruct (seqZ startDay (endDay + 1 - startDay) !! S i) as [d2|] eqn:H2; [|discriminate].
    apply lookup_seqZ in H1 as [-> _]. apply lookup_seqZ in H2 as [-> _].
    simpl. intros [= <-] [= <-].
    cbn [allDayEvent ExpandedEvent.startISO ExpandedEvent.endISO].
    rewrite Hnext, Hgd. do 2 f_equal. lia.
  - intros other. cbn [monthWideEvent allDayEvent ExpandedEvent.startISO ExpandedEvent.endISO].
    rewrite Hnext, Hgd, hijriDay_plus. split; reflexivity.
Qed.

(** A weekday rule and a day-period rule of the default path with the
    same label give, for the same lunar day, events with the same title
    and instants; when the weekday rule emits its event, the output holds
    exactly one event of that composite, whatever the other rule emits. *)
Theorem weekday_and_day_events_merge opts (w r : Item) cfg d :
  StandardItem.label w = StandardItem.label r →
  w ∈ StandardAmaal.items (Opts.amaal opts) →
  let ew := weekdayEvent zi adhan w cfg (Opts.timezone opts) (Opts.coords opts) d in
  let er := dayEvent zi adhan r cfg (Opts.timezone opts) (Opts.coords opts) d in
  ew ∈ emitted zi adhan opts w →
  triple ew = triple er
  ∧ ∃ k, k ∈ expandAmaalEvents zi adhan opts
      ∧ triple k = triple er
      ∧ ∀ k', k' ∈ expandAmaalEvents zi adhan opts → triple k' = triple er → k' = k.
Proof.
  intros Hlabel Hw ew er Hew.
  assert (Heq : triple ew = triple er).
  { unfold ew, er, weekdayEvent, dayEvent, triple.
    destruct (getPrayerTimesAccurate _ _ _ _ _). simpl. now rewrite Hlabel. }
  split; [exact Heq|].
  destruct (emitted_survives zi adhan opts w ew Hw Hew) as (k & Hk & Htk).
  exists k. split; [exact Hk|]. split; [congruence|].
  intros k' Hk' Htk'.
  apply (NoDup_fmap_eq triple (expandAmaalEvents zi adhan opts)); try assumption.
  - eapply NoDup_fmap_coarser; [apply eventKey_triple | apply filterSeen_NoDup].
  - congruence.
Qed.

(** The identifiers of the events one rule emits are pairwise different. *)
Theorem emitted_ids_distinct opts item :
  NoDup (ExpandedEvent.id <$> emitted zi adhan opts item).
Proof.
  destruct (emitted_read zi adhan opts item) as [-> | (cfg & -> & _)]; [constructor|].
  assert (Hsuffix : ∀ (f : Z → Event) (tag : string) (l : list Z),
            (∀ d, ExpandedEvent.id (f d) = StandardItem.id item +:+ tag +:+ numToString d) →
            (∀ d, d ∈ l → 0 ≤ d) → NoDup l → NoDup (ExpandedEvent.id <$> (f <$> l))).
  { intros f tag l Hid Hpos Hnd. rewrite <- list_fmap_compose.
    apply NoDup_fmap_on; [|exact Hnd].
    intros x y Hx Hy. simpl. rewrite !Hid. intros Heq.
    apply String.app_inj, String.app_inj in Heq.
    apply numToString_inj; auto. }
  destruct (configured_cases zi adhan opts item cfg)
    as [[_ ->]|[[_ ->]|[(_ & _ & ->)|(_ & sd & _ & _ & ->)]]].
  - apply NoDup_singleton.
  - apply (Hsuffix _ "_d").
    + intros d. unfold weekdayEvent. now destruct (getPrayerTimesAccurate _ _ _ _ _).
    + intros d Hd. apply list_elem_of_filter in Hd as [_ Hd]. apply elem_of_seqZ in Hd. lia.
    + apply NoDup_filter, NoDup_seqZ.
  - constructor.
  - assert (Hpos : ∀ d, d ∈ seqZ (resolveStartDay sd (MonthConfig.length cfg))
                     (resolveEndDay (StandardItem.end_day item)
                        (resolveStartDay sd (MonthConfig.length cfg)) (MonthConfig.length cfg)
                      + 1 - resolveStartDay sd (MonthConfig.length cfg)) → 0 ≤ d).
    { intros d Hd. apply elem_of_seqZ in Hd. unfold resolveStartDay in Hd. lia. }
    unfold periodEvent. destruct (StandardItem.period item).
    + apply (Hsuffix _ "_day_"); [|exact Hpos|apply NoDup_seqZ].
      intros d. unfold dayEvent. now destruct (getPrayerTimesAccurate _ _ _ _ _).
    + apply (Hsuffix _ "_night_"); [|exact Hpos|apply NoDup_seqZ]. reflexivity.
    + apply (Hsuffix _ "_allday_"); [|exact Hpos|apply NoDup_seqZ]. reflexivity.
Qed.

(** One rule emits at most as many events as its month has days (and at
    most one for a month of no days), so with month lengths up to 30 the
    output holds at most 30 events per rule. *)
Theorem events_bounded_by_month_length :
  (∀ opts item cfg,
     Opts.monthConfigs opts !! normMonth (StandardItem.hijri_month item) = Some cfg →
     (length (emitted zi adhan opts item) ≤ Z.to_nat (Z.max 1 (MonthConfig.length cfg)))%nat)
  ∧ (∀ opts,
       map_Forall (fun _ cfg => MonthConfig.length cfg ≤ 30) (Opts.monthConfigs opts) →
       (length (expandAmaalEvents zi adhan opts)
        ≤ 30 * length (StandardAmaal.items (Opts.amaal opts)))%nat).
Proof.
  assert (Hone : ∀ opts item cfg,
     (length (expandConfigured zi adhan opts item cfg [])
      ≤ Z.to_nat (Z.max 1 (MonthConfig.length cfg)))%nat).
  { intros opts item cfg.
    destruct (configured_cases zi adhan opts item cfg)
      as [[_ ->]|[[_ ->]|[(_ & _ & ->)|(_ & sd & _ & _ & ->)]]].
    - simpl. lia.
    - rewrite length_fmap.
      etransitivity; [apply length_filter|]. rewrite length_seqZ. lia.
    - simpl. lia.
    - rewrite length_fmap, length_seqZ.
      unfold resolveEndDay, resolveStartDay.
      destruct (StandardItem.end_day item); lia. }
  split.
  { intros opts item cfg Hcfg. unfold emitted.
    rewrite (expandItem_own _ _ _ _ _ _ Hcfg). apply Hone. }
  intros opts Hlen. unfold expandAmaalEvents.
  etransitivity; [apply sublist_length, filterSeen_sublist|].
  rewrite collectEvents_bind. apply bind_length_le.
  intros item _.
  destruct (emitted_read zi adhan opts item) as [-> | (cfg & -> & Ho)]; [simpl; lia|].
  specialize (Hone opts item cfg).
  destruct Ho as [Hcfg|Hmember]; [|lia].
  specialize (Hlen _ _ Hcfg). simpl in Hlen. lia.
Qed.

(** Every event carries the text of its rule as description and the
    sections of its rule, [null] when the rule has none, and its
    identifier starts with the identifier of the rule. *)
Theorem emitted_carries_rule_content opts item (ev : Event) :
  ev ∈ emitted zi adhan opts item →
  ExpandedEvent.description ev = StandardItem.text item
  ∧ ExpandedEvent.sections ev = orNull (StandardItem.sections item)
  ∧ ExpandedEvent.sections ev ≠ Undefined
  ∧ ∃ suffix, ExpandedEvent.id ev = StandardItem.id item +:+ suffix.
Proof.
  assert (Hnull : orNull (StandardItem.sections item) ≠ Undefined)
    by (destruct (StandardItem.sections item); discriminate).
  destruct (emitted_read zi adhan opts item) as [-> | (cfg & -> & _)].
  { intros H. now apply elem_of_nil in H. }
  destruct (configured_cases zi adhan opts item cfg)
    as [[_ ->]|[[_ ->]|[(_ & _ & ->)|(_ & sd & _ & _ & ->)]]].
  - rewrite list_elem_of_singleton. intros ->. repeat split; try assumption.
    exists "". simpl. now rewrite app_nil_r_s.
  - rewrite list_elem_of_fmap. intros (d & -> & _).
    unfold weekdayEvent. destruct (getPrayerTimesAccurate _ _ _ _ _).
    repeat split; try assumption. now eexists.
  - intros H. now apply elem_of_nil in H.
  - rewrite list_elem_of_fmap. intros (d & -> & _).
    unfold periodEvent, dayEvent.
    destruct (StandardItem.period item); try destruct (getPrayerTimesAccurate _ _ _ _ _);
      (repeat split; try assumption; now eexists).
Qed.

(** When the anchor of a month holds no digit (as the empty anchor of a
    month of which only the length was chosen), its weekday rules emit
    nothing, the instants of every event of its night, all-day and
    month-wide rules are [null], and the events of one labelled night or
    all-day rule all have the same composite (the duplicate filter keeps
    the first of them). *)
Theorem unparsable_anchor_events opts item cfg :
  Opts.monthConfigs opts !! normMonth (StandardItem.hijri_month item) = Some cfg →
  digitFree (MonthConfig.startDateISO cfg) = true →
  (weekdayKind (StandardItem.rule_kind item) = true → emitted zi adhan opts item = [])
  ∧ (∀ ev : Event,
       ev ∈ emitted zi adhan opts item →
       monthWide (StandardItem.rule_kind item) = true
       ∨ (defaultPath (StandardItem.rule_kind item) = true
          ∧ StandardItem.period item ≠ Period.day) →
       ExpandedEvent.startISO ev = None ∧ ExpandedEvent.endISO ev = None)
  ∧ (defaultPath (StandardItem.rule_kind item) = true →
     StandardItem.period item ≠ Period.day →
     StandardItem.label item ≠ "" →
     ∀ e1 e2 : Event,
       e1 ∈ emitted zi adhan opts item → e2 ∈ emitted zi adhan opts item →
       triple e1 = triple e2).
Proof.
  intros Hcfg Hfree.
  pose proof (digitFree_anchor zi cfg (Opts.timezone opts) Hfree) as Hanchor.
  assert (Hinv : ∀ d, hijriDayToGregorian zi cfg d (Opts.timezone opts) = Luxon.Invalid).
  { intros d. unfold hijriDayToGregorian. unfold anchorDay in Hanchor.
    destruct (Luxon.fromISO zi (MonthConfig.startDateISO cfg) (Opts.timezone opts));
      [discriminate | reflexivity]. }
  assert (Hnull : ∀ ev : Event,
       ev ∈ emitted zi adhan opts item →
       monthWide (StandardItem.rule_kind item) = true
       ∨ (defaultPath (StandardItem.rule_kind item) = true
          ∧ StandardItem.period item ≠ Period.day) →
       ExpandedEvent.startISO ev = None ∧ ExpandedEvent.endISO ev = None).
  2: { split; [|split; [exact Hnull|]].
       - intros Hk. unfold emitted. rewrite (expandItem_weekday _ _ _ _ cfg) by assumption.
         rewrite filter_none; [reflexivity|].
         intros d _. rewrite Hinv. simpl. discriminate.
       - intros Hk Hp Hlabel e1 e2 H1 H2.
         assert (Htitle : ∀ e : Event, e ∈ emitted zi adhan opts item →
                   ExpandedEvent.title e = StandardItem.label item).
         { intros e He.
           destruct (emitted_cases opts item cfg Hcfg)
             as [[Hm _]|[[Hw _]|[(_ & _ & Hem)|(_ & sd & _ & _ & Hem)]]].
           - destruct (StandardItem.rule_kind item); discriminate.
           - destruct (StandardItem.rule_kind item); discriminate.
           - rewrite Hem in He. now apply elem_of_nil in He.
           - rewrite Hem in He. apply list_elem_of_fmap in He as (d & -> & _).
             unfold periodEvent.
             destruct (StandardItem.period item); [congruence| |];
               cbn [nightEvent allDayEvent ExpandedEvent.title]; unfold strOr;
               (destruct (String.eqb_spec (StandardItem.label item) ""); [contradiction|reflexivity]). }
         destruct (Hnull e1 H1 (or_intror (conj Hk Hp))) as [Hs1 He1].
         destruct (Hnull e2 H2 (or_intror (conj Hk Hp))) as [Hs2 He2].
         unfold triple. now rewrite (Htitle e1 H1), (Htitle e2 H2), Hs1, Hs2, He1, He2. }
  - intros ev Hev Hkind.
    destruct (emitted_cases opts item cfg Hcfg)
      as [[Hk Hem]|[[Hk Hem]|[(Hk & _ & Hem)|(Hk & sd & _ & _ & Hem)]]];
      rewrite Hem in Hev.
    + apply list_elem_of_singleton in Hev as ->.
      cbn [monthWideEvent ExpandedEvent.startISO ExpandedEvent.endISO].
      rewrite !Hinv. split; reflexivity.
    + exfalso. destruct Hkind as [Hm|[Hd _]];
        destruct (StandardItem.rule_kind item); discriminate.
    + now apply elem_of_nil in Hev.
    + apply list_elem_of_fmap in Hev as (d & -> & _).
      destruct Hkind as [Hm|[_ Hp]];
        [destruct (StandardItem.rule_kind item); discriminate|].
      unfold periodEvent. destruct (StandardItem.period item); [congruence| |];
        cbn [nightEvent allDayEvent ExpandedEvent.startISO ExpandedEvent.endISO];
        rewrite !Hinv; split; reflexivity.
Qed.

End ExpanderExtras.

Section WeekdayExtras.

Context {Any number : Type}.
Variable zi : Luxon.ZoneInfo.
Variable adhan : number → number → option Z → option Z * option Z.

Local Abbreviation Item := (StandardItem.t Any).
Local Abbreviation Event := (ExpandedEvent.t Any).
Local Abbreviation Options := (Opts.t Any number).

Implicit Types (opts : Options) (item : Item) (events : list Event) (cfg : MonthConfig.t).

(** A weekday rule with one recognised code, on a month anchored at a
    date, emits the events of the lunar days [d0], [d0 + 7], ... up to
    the length of the month, for a first day [d0] of 1..7; on a month of
    29 or 30 days these are four or five events. *)
Theorem single_weekday_every_seventh_day opts item cfg code day0 :
  Opts.monthConfigs opts !! normMonth (StandardItem.hijri_month item) = Some cfg →
  weekdayKind (StandardItem.rule_kind item) = true →
  StandardItem.weekdays item = Some [code] →
  code ∈ weekdayCodes →
  anchorDay zi cfg (Opts.timezone opts) = Some day0 →
  ∃ d0, 1 ≤ d0 ≤ 7
    ∧ Num <$> Luxon.weekday (hijriDayToGregorian zi cfg d0 (Opts.timezone opts))
      = Some (weekdayToLuxon code)
    ∧ emitted zi adhan opts item
      = weekdayEvent zi adhan item cfg (Opts.timezone opts) (Opts.coords opts)
          <$> filter (fun d => (d - d0) mod 7 = 0) (seqZ 1 (MonthConfig.length cfg))
    ∧ (MonthConfig.length cfg = 29 ∨ MonthConfig.length cfg = 30 →
         length (emitted zi adhan opts item) = 4%nat
         ∨ length (emitted zi adhan opts item) = 5%nat).
Proof.
  intros Hcfg Hk Hwd Hcode Hday.
  destruct (weekdayToLuxon_known code Hcode) as (wd & Hnum & Hrange).
  rewrite Hnum.
  exists ((wd - 1 - (day0 + 3)) mod 7 + 1).
  set (d0 := (wd - 1 - (day0 + 3)) mod 7 + 1).
  assert (Hd0 : 1 ≤ d0 ≤ 7).
  { unfold d0. pose proof (Z.mod_pos_bound (wd - 1 - (day0 + 3)) 7 ltac:(lia)). lia. }
  split; [exact Hd0|]. split.
  { rewrite (hijriDay_anchor _ _ _ _ _ Hday). simpl. do 2 f_equal.
    unfold d0. revert Hrange. generalize wd. clear. intros.
    Z.div_mod_to_equations. lia. }
  assert (Hem : emitted zi adhan opts item
      = weekdayEvent zi adhan item cfg (Opts.timezone opts) (Opts.coords opts)
          <$> filter (fun d => (d - d0) mod 7 = 0) (seqZ 1 (MonthConfig.length cfg))).
  { unfold emitted. rewrite (expandItem_weekday _ _ _ _ cfg) by assumption.
    rewrite app_nil_l. f_equal. apply list_filter_iff. intros d.
    rewrite targetHas_spec, Hwd, (hijriDay_anchor _ _ _ _ _ Hday). simpl.
    split.
    - intros (c & Hc & Heq). apply list_elem_of_singleton in Hc. subst c.
      rewrite Hnum in Heq. injection Heq as Heq.
      unfold d0. revert Hrange Heq. generalize wd. clear. intros.
      Z.div_mod_to_equations. lia.
    - intros Heq. exists code. split; [apply list_elem_of_here|].
      rewrite Hnum. do 2 f_equal.
      unfold d0 in Heq. revert Hrange Heq. generalize wd. clear. intros.
      Z.div_mod_to_equations. lia. }
  split; [exact Hem|].
  intros Hlen. rewrite Hem, length_fmap.
  assert (Hcases : d0 = 1 ∨ d0 = 2 ∨ d0 = 3 ∨ d0 = 4 ∨ d0 = 5 ∨ d0 = 6 ∨ d0 = 7) by lia.
  clearbody d0.
  destruct Hlen as [-> | ->];
    destruct Hcases as [->|[->|[->|[->|[->|[->| ->]]]]]];
    vm_compute; auto.
Qed.

(** A weekday rule that lists the seven codes, on a month anchored at a
    date, emits one event for every lunar day of the month. *)
Theorem all_weekdays_every_day opts item cfg day0 :
  Opts.monthConfigs opts !! normMonth (StandardItem.hijri_month item) = Some cfg →
  weekdayKind (StandardItem.rule_kind item) = true →
  (∀ code, code ∈ weekdayCodes → code ∈ default [] (StandardItem.weekdays item)) →
  anchorDay zi cfg (Opts.timezone opts) = Some day0 →
  emitted zi adhan opts item
  = weekdayEvent zi adhan item cfg (Opts.timezone opts) (Opts.coords opts)
      <$> seqZ 1 (MonthConfig.length cfg)
  ∧ length (emitted zi adhan opts item) = Z.to_nat (MonthConfig.length cfg).
Proof.
  intros Hcfg Hk Hall Hday.
  assert (Hem : emitted zi adhan opts item
      = weekdayEvent zi adhan item cfg (Opts.timezone opts) (Opts.coords opts)
          <$> seqZ 1 (MonthConfig.length cfg)).
  { unfold emitted. rewrite (expandItem_weekday _ _ _ _ cfg) by assumption.
    rewrite app_nil_l. f_equal. apply filter_all. intros d _.
    apply targetHas_spec.
    destruct (Luxon.weekday (hijriDayToGregorian zi cfg d (Opts.timezone opts)))
      as [w|] eqn:Hw.
    - destruct (weekday_code_of w (weekday_range _ _ Hw)) as (code & Hcode & Heq).
      exists code. split; [now apply Hall | simpl; now rewrite Heq].
    - rewrite (hijriDay_anchor _ _ _ _ _ Hday) in Hw. discriminate. }
  split; [exact Hem|]. now rewrite Hem, length_fmap, length_seqZ.
Qed.

(** When no two emitted events share a composite the duplicate filter
    drops nothing, and filtering the output again changes nothing. *)
Theorem dedup_stable opts :
  (NoDup (triple <$> collectEvents zi adhan opts) →
     expandAmaalEvents zi adhan opts = collectEvents zi adhan opts)
  ∧ filterSeen ∅ (expandAmaalEvents zi adhan opts) = expandAmaalEvents zi adhan opts.
Proof.
  split.
  - intros Hnd. unfold expandAmaalEvents. apply filterSeen_fixed.
    + apply NoDup_fmap_on; [|eapply NoDup_fmap_1, Hnd].
      intros x y Hx Hy Hkey.
      apply (NoDup_fmap_eq triple (collectEvents zi adhan opts)); try assumption.
      destruct (collectEvents_isoText _ _ _ _ Hx), (collectEvents_isoText _ _ _ _ Hy).
      now apply eventKey_inj.
    + intros e _. apply not_elem_of_empty.
  - unfold expandAmaalEvents. apply filterSeen_fixed.
    + apply filterSeen_NoDup.
    + intros e _. apply not_elem_of_empty.
Qed.

End WeekdayExtras.

(** * The further properties at concrete inputs *)

Lemma day_period_events_at_3 :
  let item := sampleItem "d" "Ramadan" "" Period.day RuleKind.range (Some 3) (Some 4) None in
  let cfg := MonthConfig.mk "2024-03-11" 30 in
  let opts := sampleOpts ramadan30 [item] in
  (Opts.monthConfigs opts !! normMonth (StandardItem.hijri_month item) = Some cfg
   ∧ defaultPath (StandardItem.rule_kind item) = true
   ∧ StandardItem.period item = Period.day
   ∧ StandardItem.start_day item = Some 3
   ∧ 3 ≠ 0)
  ∧ emitted qatarZones sampleAdhan opts item
    = dayEvent qatarZones sampleAdhan item cfg "Asia/Qatar" (Coords.mk 25 51) <$> [3; 4]
  ∧ ExpandedEvent.startISO (dayEvent qatarZones sampleAdhan item cfg "Asia/Qatar" (Coords.mk 25 51) 3)
    = Some "2024-03-13T05:00:00.000+03:00".
Proof.
  intros item cfg opts.
  assert (H1 : Opts.monthConfigs opts !! normMonth (StandardItem.hijri_month item) = Some cfg)
    by (vm_compute; reflexivity).
  assert (H5 : 3 ≠ 0) by lia.
  split; [repeat split; try assumption; reflexivity|].
  destruct (day_period_events qatarZones sampleAdhan opts item cfg 3
              H1 eq_refl eq_refl eq_refl H5) as (Hem & Hd).
  split; [exact Hem|].
  destruct (Hd 3) as (_ & Hs & _).
  etransitivity; [exact Hs | vm_compute; reflexivity].
Defined.

Lemma all_day_events_tile_the_month_at_ramadan :
  let item := sampleItem "a" "Ramadan" "" Period.day_and_night RuleKind.unspecified
                (Some 1) None None in
  let cfg := MonthConfig.mk "2024-03-11" 30 in
  let opts := sampleOpts ramadan30 [item] in
  (Opts.monthConfigs opts !! normMonth (StandardItem.hijri_month item) = Some cfg
   ∧ defaultPath (StandardItem.rule_kind item) = true
   ∧ StandardItem.period item = Period.day_and_night
   ∧ StandardItem.start_day item = Some 1
   ∧ 1 ≠ 0)
  ∧ emitted qatarZones sampleAdhan opts item
    = allDayEvent qatarZones item cfg "Asia/Qatar" <$> seqZ 1 30
  ∧ ExpandedEvent.endISO (allDayEvent qatarZones item cfg "Asia/Qatar" 30)
    = Some "2024-04-10T00:00:00.000+03:00".
Proof.
  intros item cfg opts.
  assert (H1 : Opts.monthConfigs opts !! normMonth (StandardItem.hijri_month item) = Some cfg)
    by (vm_compute; reflexivity).
  assert (H5 : 1 ≠ 0) by lia.
  split; [repeat split; try assumption; reflexivity|].
  destruct (all_day_events_tile_the_month qatarZones sampleAdhan opts item cfg 1
              H1 eq_refl eq_refl eq_refl H5) as (Hem & _ & _ & Hmonth).
  split; [exact Hem|].
  destruct (Hmonth item) as (_ & He).
  etransitivity; [symmetry; exact He | vm_compute; reflexivity].
Defined.

Lemma weekday_and_day_events_merge_at_thursday :
  let w := sampleItem "w" "Ramadan" "Fast" Period.day RuleKind.weekday None None (Some ["THU"]) in
  let r := sampleItem "r" "Ramadan" "Fast" Period.day RuleKind.specific (Some 4) (Some 4) None in
  let cfg := MonthConfig.mk "2024-03-11" 30 in
  let opts := sampleOpts ramadan30 [w; r] in
  (StandardItem.label w = StandardItem.label r
   ∧ w ∈ StandardAmaal.items (Opts.amaal opts)
   ∧ weekdayEvent qatarZones sampleAdhan w cfg "Asia/Qatar" (Coords.mk 25 51) 4
     ∈ emitted qatarZones sampleAdhan opts w)
  ∧ triple (weekdayEvent qatarZones sampleAdhan w cfg "Asia/Qatar" (Coords.mk 25 51) 4)
    = triple (dayEvent qatarZones sampleAdhan r cfg "Asia/Qatar" (Coords.mk 25 51) 4)
  ∧ ExpandedEvent.id <$> expandAmaalEvents qatarZones sampleAdhan opts
    = ["w_d4"; "w_d11"; "w_d18"; "w_d25"].
Proof.
  intros w r cfg opts.
  assert (H2 : w ∈ StandardAmaal.items (Opts.amaal opts)) by apply list_elem_of_here.
  assert (H3 : weekdayEvent qatarZones sampleAdhan w cfg "Asia/Qatar" (Coords.mk 25 51) 4
               ∈ emitted qatarZones sampleAdhan opts w).
  { replace (emitted qatarZones sampleAdhan opts w)
      with (weekdayEvent qatarZones sampleAdhan w cfg "Asia/Qatar" (Coords.mk 25 51)
              <$> [4; 11; 18; 25]) by (vm_compute; reflexivity).
    apply list_elem_of_here. }
  split; [repeat split; assumption|].
  split; [|vm_compute; reflexivity].
  exact (proj1 (weekday_and_day_events_merge qatarZones sampleAdhan opts w r cfg 4
                  eq_refl H2 H3)).
Defined.

Lemma events_bounded_by_month_length_at_ramadan :
  let item := sampleItem "a" "Ramadan" "" Period.night RuleKind.unspecified
                (Some (-5)) (Some 99) None in
  let cfg := MonthConfig.mk "2024-03-11" 30 in
  let opts := sampleOpts ramadan30 [item] in
  Opts.monthConfigs opts !! normMonth (StandardItem.hijri_month item) = Some cfg
  ∧ (length (emitted qatarZones sampleAdhan opts item) ≤ 30)%nat
  ∧ length (emitted qatarZones sampleAdhan opts item) = 30%nat.
Proof.
  intros item cfg opts.
  assert (H1 : Opts.monthConfigs opts !! normMonth (StandardItem.hijri_month item) = Some cfg)
    by (vm_compute; reflexivity).
  split; [exact H1|].
  split; [|vm_compute; reflexivity].
  exact (proj1 (events_bounded_by_month_length qatarZones sampleAdhan) opts item cfg H1).
Defined.

Lemma emitted_carries_rule_content_at_night :
  let item := StandardItem.mk "n" "Ramadan" "" Period.night RuleKind.specific
                (Some 15) (Some 15) None "Recite" (@Undefined (gmap string unit)) in
  let cfg := MonthConfig.mk "2024-03-11" 30 in
  let opts := sampleOpts ramadan30 [item] in
  nightEvent qatarZones item cfg "Asia/Qatar" 15 ∈ emitted qatarZones sampleAdhan opts item
  ∧ ExpandedEvent.description (nightEvent qatarZones item cfg "Asia/Qatar" 15) = "Recite"
  ∧ ExpandedEvent.sections (nightEvent qatarZones item cfg "Asia/Qatar" 15) = Null.
Proof.
  intros item cfg opts.
  assert (H : nightEvent qatarZones item cfg "Asia/Qatar" 15
              ∈ emitted qatarZones sampleAdhan opts item).
  { replace (emitted qatarZones sampleAdhan opts item)
      with [nightEvent qatarZones item cfg "Asia/Qatar" 15] by (vm_compute; reflexivity).
    apply list_elem_of_here. }
  split; [exact H|].
  destruct (emitted_carries_rule_content qatarZones sampleAdhan opts item _ H)
    as (Hd & Hs & _).
  split; [exact Hd | exact Hs].
Defined.

Lemma unparsable_anchor_events_at_length_only :
  let item := sampleItem "n" "Shawwal" "Vigil" Period.night RuleKind.range (Some 1) (Some 3) None in
  let cfgs := updateMonth "Shawwal" (MonthPatch.mk None (Some 29)) ∅ in
  let cfg := MonthConfig.mk "" 29 in
  let opts := sampleOpts cfgs [item] in
  (Opts.monthConfigs opts !! normMonth (StandardItem.hijri_month item) = Some cfg
   ∧ digitFree (MonthConfig.startDateISO cfg) = true)
  ∧ (∀ ev, ev ∈ emitted qatarZones sampleAdhan opts item →
       ExpandedEvent.startISO ev = None ∧ ExpandedEvent.endISO ev = None)
  ∧ ExpandedEvent.id <$> expandAmaalEvents qatarZones sampleAdhan opts = ["n_night_1"].
Proof.
  intros item cfgs cfg opts.
  assert (H1 : Opts.monthConfigs opts !! normMonth (StandardItem.hijri_month item) = Some cfg)
    by (vm_compute; reflexivity).
  assert (H2 : digitFree (MonthConfig.startDateISO cfg) = true) by reflexivity.
  split; [split; assumption|].
  split; [|vm_compute; reflexivity].
  intros ev Hev.
  apply (proj1 (proj2 (unparsable_anchor_events qatarZones sampleAdhan opts item cfg H1 H2)) ev Hev).
  right. split; [reflexivity | discriminate].
Defined.

Lemma single_weekday_every_seventh_day_at_friday :
  let item := sampleItem "w" "Ramadan" "" Period.day RuleKind.weekday_multi None None
                (Some ["FRI"]) in
  let cfg := MonthConfig.mk "2024-03-11" 29 in
  let opts := sampleOpts ramadan29 [item] in
  (Opts.monthConfigs opts !! normMonth (StandardItem.hijri_month item) = Some cfg
   ∧ weekdayKind (StandardItem.rule_kind item) = true
   ∧ StandardItem.weekdays item = Some ["FRI"]
   ∧ "FRI" ∈ weekdayCodes
   ∧ anchorDay qatarZones cfg (Opts.timezone opts) = Some 19793)
  ∧ (length (emitted qatarZones sampleAdhan opts item) = 4%nat
     ∨ length (emitted qatarZones sampleAdhan opts item) = 5%nat).
Proof.
  intros item cfg opts.
  assert (H1 : Opts.monthConfigs opts !! normMonth (StandardItem.hijri_month item) = Some cfg)
    by (vm_compute; reflexivity).
  assert (H4 : "FRI" ∈ weekdayCodes) by (unfold weekdayCodes; rewrite !elem_of_cons; tauto).
  assert (H5 : anchorDay qatarZones cfg (Opts.timezone opts) = Some 19793)
    by (vm_compute; reflexivity).
  split; [repeat split; try assumption; reflexivity|].
  destruct (single_weekday_every_seventh_day qatarZones sampleAdhan opts item cfg "FRI" 19793
              H1 eq_refl eq_refl H4 H5) as (d0 & _ & _ & _ & Hcount).
  apply Hcount. left. reflexivity.
Defined.

Lemma all_weekdays_every_day_at_ramadan :
  let item := sampleItem "w" "Ramadan" "" Period.day RuleKind.weekday_multi None None
                (Some ["SUN"; "MON"; "TUE"; "WED"; "THU"; "FRI"; "SAT"]) in
  let cfg := MonthConfig.mk "2024-03-11" 30 in
  let opts := sampleOpts ramadan30 [item] in
  (Opts.monthConfigs opts !! normMonth (StandardItem.hijri_month item) = Some cfg
   ∧ weekdayKind (StandardItem.rule_kind item) = true
   ∧ (∀ code, code ∈ weekdayCodes → code ∈ default [] (StandardItem.weekdays item))
   ∧ anchorDay qatarZones cfg (Opts.timezone opts) = Some 19793)
  ∧ length (emitted qatarZones sampleAdhan opts item) = 30%nat.
Proof.
  intros item cfg opts.
  assert (H1 : Opts.monthConfigs opts !! normMonth (StandardItem.hijri_month item) = Some cfg)
    by (vm_compute; reflexivity).
  assert (H3 : ∀ code, code ∈ weekdayCodes → code ∈ default [] (StandardItem.weekdays item)).
  { intros code. unfold weekdayCodes. simpl. rewrite !elem_of_cons. tauto. }
  assert (H4 : anchorDay qatarZones cfg (Opts.timezone opts) = Some 19793)
    by (vm_compute; reflexivity).
  split; [repeat split; try assumption; reflexivity|].
  exact (proj2 (all_weekdays_every_day qatarZones sampleAdhan opts item cfg 19793
                  H1 eq_refl H3 H4)).
Defined.

Lemma dedup_stable_at_distinct_days :
  let item := sampleItem "n" "Ramadan" "Vigil" Period.night RuleKind.range (Some 1) (Some 3) None in
  let opts := sampleOpts ramadan30 [item] in
  NoDup (triple <$> collectEvents qatarZones sampleAdhan opts)
  ∧ expandAmaalEvents qatarZones sampleAdhan opts = collectEvents qatarZones sampleAdhan opts
  ∧ length (expandAmaalEvents qatarZones sampleAdhan opts) = 3%nat.
Proof.
  intros item opts.
  assert (H : NoDup (triple <$> collectEvents qatarZones sampleAdhan opts)).
  { vm_compute. repeat (apply NoDup_cons_2; [rewrite ?elem_of_cons, elem_of_nil; intuition discriminate|]).
    apply NoDup_nil_2. }
  split; [exact H|].
  split; [exact (proj1 (dedup_stable qatarZones sampleAdhan opts) H) | vm_compute; reflexivity].
Defined.

(** * The page: event colours *)

Example pickEventColor_samples :
  pickEventColor "3rd Day" None = "#059669"
  ∧ pickEventColor "The 15TH   night vigil" None = "#2563eb"
  ∧ pickEventColor "x3rd Day" None = "#e69b00"
  ∧ pickEventColor "123rd Day" None = "#e69b00"
  ∧ pickEventColor "3rd Days" (Some "#111111") = "#111111"
  ∧ pickEventColor "Thursday Night: Qur'an" None = "#2563eb"
  ∧ pickEventColor " Every Day dhikr" (Some "") = "#059669"
  ∧ pickEventColor "Ramadan" (Some "") = "#e69b00".
Proof. vm_compute. repeat split. Qed.

(** On the page the generated title of a lunar day up to 99 decides the
    colour, whatever the fallback: "<ordinal> Day" is green and
    "<ordinal> Night" is blue; and the colour is never the empty text. *)
Theorem pickEventColor_generated_titles :
  (∀ d fallback, 1 ≤ d ≤ 99 →
     pickEventColor (getOrdinal d +:+ " Day") fallback = "#059669"
     ∧ pickEventColor (getOrdinal d +:+ " Night") fallback = "#2563eb")
  ∧ (∀ title fallback, pickEventColor title fallback ≠ "").
Proof.
  split.
  - intros d fallback Hd.
    assert (Hall : forallb (fun d =>
        ordinalTest "day" "y" None (getOrdinal d +:+ " Day")
        && negb (ordinalTest "day" "y" None (getOrdinal d +:+ " Night"))
        && ordinalTest "night" "t" None (getOrdinal d +:+ " Night")) (seqZ 1 99) = true)
      by (vm_compute; reflexivity).
    rewrite forallb_forall in Hall.
    specialize (Hall d). rewrite <- list_elem_of_In, elem_of_seqZ in Hall.
    specialize (Hall ltac:(lia)).
    apply andb_true_iff in Hall as [Hall H3]. apply andb_true_iff in Hall as [H1 H2].
    apply negb_true_iff in H2.
    unfold pickEventColor. now rewrite H1, H2, H3.
  - intros title fallback. unfold pickEventColor.
    repeat (match goal with |- context [if ?b then _ else _] => destruct b end;
            try discriminate).
    destruct fallback as [f|]; [|discriminate].
    destruct (String.eqb_spec f ""); [discriminate | assumption].
Qed.

Lemma pickEventColor_generated_titles_at_21 :
  1 ≤ 21 ≤ 99
  ∧ pickEventColor "21st Day" (Some "#8b5cf6") = "#059669"
  ∧ pickEventColor "21st Night" (Some "#8b5cf6") = "#2563eb".
Proof.
  split; [lia|].
  exact (proj1 pickEventColor_generated_titles 21 (Some "#8b5cf6") ltac:(lia)).
Defined.

Section CalendarColor.

Context {Any number : Type}.
Variable zi : Luxon.ZoneInfo.
Variable adhan : number → number → option Z → option Z * option Z.

Lemma emitted_color (opts : Opts.t Any number) (item : StandardItem.t Any)
    (ev : ExpandedEvent.t Any) :
  ev ∈ emitted zi adhan opts item →
  ExpandedEvent.color ev = Some "#8b5cf6" ∨ ExpandedEvent.color ev = Some "#059669"
  ∨ ExpandedEvent.color ev = Some "#2563eb".
Proof.
  destruct (emitted_read zi adhan opts item) as [-> | (cfg & -> & _)].
  { intros H. now apply elem_of_nil in H. }
  destruct (configured_cases zi adhan opts item cfg)
    as [[_ ->]|[[_ ->]|[(_ & _ & ->)|(_ & sd & _ & _ & ->)]]].
  - rewrite list_elem_of_singleton. intros ->. now left.
  - rewrite list_elem_of_fmap. intros (d & -> & _).
    unfold weekdayEvent. destruct (getPrayerTimesAccurate _ _ _ _ _). right; now left.
  - intros H. now apply elem_of_nil in H.
  - rewrite list_elem_of_fmap. intros (d & -> & _).
    unfold periodEvent, dayEvent.
    destruct (StandardItem.period item); try destruct (getPrayerTimesAccurate _ _ _ _ _);
      simpl; auto.
Qed.

(** The page that paints an event with [e.color || '#6366f1'] never uses
    the fallback: every event of the output has one of the three colours
    of the expander. *)
Theorem calendarColor_never_fallback (opts : Opts.t Any number) (ev : ExpandedEvent.t Any) :
  ev ∈ expandAmaalEvents zi adhan opts →
  ExpandedEvent.color ev = Some (calendarColor ev)
  ∧ calendarColor ev ∈ ["#8b5cf6"; "#059669"; "#2563eb"]
  ∧ calendarColor ev ≠ "#6366f1".
Proof.
  intros Hev.
  assert (Hin : ev ∈ collectEvents zi adhan opts).
  { eapply elem_of_sublist; [exact Hev | apply filterSeen_sublist]. }
  rewrite collectEvents_bind, list_elem_of_bind in Hin.
  destruct Hin as (item & Hem & _).
  unfold calendarColor.
  destruct (emitted_color opts item ev Hem) as [-> | [-> | ->]]; simpl;
    (split; [reflexivity|]); (split; [rewrite !elem_of_cons; tauto | discriminate]).
Qed.

End CalendarColor.

Lemma calendarColor_never_fallback_at_night :
  let item := sampleItem "n" "Ramadan" "" Period.night RuleKind.specific (Some 15) (Some 15) None in
  let cfg := MonthConfig.mk "2024-03-11" 30 in
  let opts := sampleOpts ramadan30 [item] in
  nightEvent qatarZones item cfg "Asia/Qatar" 15 ∈ expandAmaalEvents qatarZones sampleAdhan opts
  ∧ calendarColor (nightEvent qatarZones item cfg "Asia/Qatar" 15) ≠ "#6366f1".
Proof.
  intros item cfg opts.
  assert (H : nightEvent qatarZones item cfg "Asia/Qatar" 15
              ∈ expandAmaalEvents qatarZones sampleAdhan opts).
  { replace (expandAmaalEvents qatarZones sampleAdhan opts)
      with [nightEvent qatarZones item cfg "Asia/Qatar" 15] by (vm_compute; reflexivity).
    apply list_elem_of_here. }
  split; [exact H|].
  exact (proj2 (proj2 (calendarColor_never_fallback qatarZones sampleAdhan opts _ H))).
Defined.

(** * The page: nested bullets, facts *)

Lemma bulletLevel_pos b : 1 ≤ bulletLevel b.
Proof. unfold bulletLevel. lia. Qed.

Lemma popWhile_take fuel lvl (stack : list nat) :
  0 ≤ lvl → (length stack ≤ fuel + Z.to_nat lvl)%nat →
  popWhile fuel lvl stack = take (Z.to_nat lvl) stack.
Proof.
  intros Hlvl. revert stack. induction fuel as [|fuel IH]; intros stack Hlen; simpl.
  - now rewrite take_ge by lia.
  - destruct (Z.ltb_spec lvl (Z.of_nat (length stack))) as [Hlt|Hge].
    + rewrite IH.
      * rewrite removelast_firstn_len, take_take. f_equal. lia.
      * rewrite removelast_firstn_len, length_take. lia.
    + now rewrite take_ge by lia.
Qed.

Lemma visit_nil fuel heap d : visit fuel heap d [] = [].
Proof. destruct fuel; reflexivity. Qed.

Lemma visit_app fuel heap d l1 l2 :
  visit fuel heap d (l1 ++ l2) = visit fuel heap d l1 ++ visit fuel heap d l2.
Proof. destruct fuel; [reflexivity|]. cbn [visit]. apply bind_app. Qed.

Lemma visit_single fuel heap d a n :
  heap !! a = Some n →
  visit (S fuel) heap d [a] = (d, a) :: visit fuel heap (d + 1) (BulletNode.children n).
Proof. intros H. cbn [visit]. rewrite bind_singleton. now rewrite H. Qed.

Lemma visit_cons fuel heap d a l :
  visit fuel heap d (a :: l) = visit fuel heap d [a] ++ visit fuel heap d l.
Proof. apply (visit_app fuel heap d [a] l). Qed.

Lemma visit_in_range fuel heap d nodes e :
  e ∈ visit fuel heap d nodes → (e.2 < length heap)%nat.
Proof.
  revert d nodes. induction fuel as [|fuel IH]; intros d nodes; cbn [visit].
  - intros H. now apply elem_of_nil in H.
  - rewrite list_elem_of_bind. intros (a & He & _).
    destruct (heap !! a) as [n|] eqn:Ha; [|now apply elem_of_nil in He].
    apply elem_of_cons in He as [->|He]; [|now apply IH in He].
    simpl. now apply lookup_lt_Some in Ha.
Qed.

Lemma bind_ext_in {A B : Type} (f g : A → list B) (l : list A) :
  (∀ x, x ∈ l → f x = g x) → l ≫= f = l ≫= g.
Proof.
  induction l as [|x l IH]; intros H; [reflexivity|].
  rewrite !bind_cons, (H x) by left. f_equal. apply IH. intros y Hy. apply H. now right.
Qed.

(** More fuel than the objects left to descend through changes nothing. *)
Lemma visit_fuel heap F F' d nodes :
  wfHeap heap →
  (∀ a, a ∈ nodes → (a < length heap ≤ F + a)%nat) →
  (∀ a, a ∈ nodes → (a < length heap ≤ F' + a)%nat) →
  visit F heap d nodes = visit F' heap d nodes.
Proof.
  intros Hwf. revert F' d nodes. induction F as [|F IH]; intros F' d nodes H1 H2.
  - destruct nodes as [|a nodes]; [now rewrite !visit_nil|].
    specialize (H1 a ltac:(left)). lia.
  - destruct F' as [|F'].
    + destruct nodes as [|a nodes]; [now rewrite !visit_nil|].
      specialize (H2 a ltac:(left)). lia.
    + cbn [visit]. apply bind_ext_in. intros a Ha.
      destruct (heap !! a) as [n|] eqn:Hn; [|reflexivity].
      f_equal. pose proof (Hwf a n Hn) as Hch. rewrite Forall_forall in Hch.
      specialize (H1 a Ha). specialize (H2 a Ha).
      apply IH; intros c Hc; specialize (Hch c Hc); lia.
Qed.

(** Objects that the visit does not reach may change without changing it. *)
Lemma visit_untouched heap x g p F d nodes :
  wfHeap heap →
  (∀ a, a ∈ nodes → (a < length heap)%nat) →
  (∀ e, e ∈ visit F heap d nodes → e.2 ≠ p) →
  visit F (alter g p (heap ++ [x])) d nodes = visit F heap d nodes.
Proof.
  intros Hwf. revert d nodes. induction F as [|F IH]; intros d nodes Hr Hp; [reflexivity|].
  cbn [visit]. apply bind_ext_in. intros a Ha.
  destruct (lookup_lt_is_Some_2 heap a (Hr a Ha)) as [n Hn].
  assert (Hin : ∀ e, e ∈ (d, a) :: visit F heap (d + 1) (BulletNode.children n) →
                     e ∈ visit (S F) heap d nodes).
  { intros e He. cbn [visit]. rewrite list_elem_of_bind. exists a. now rewrite Hn. }
  assert (Hap : a ≠ p) by (apply (Hp (d, a)), Hin; left).
  rewrite list_lookup_alter_ne by congruence.
  rewrite lookup_app_l by (now apply Hr). rewrite Hn. f_equal.
  apply IH.
  - pose proof (Hwf a n Hn) as Hch. rewrite Forall_forall in Hch.
    intros c Hc. specialize (Hch c Hc). lia.
  - intros e He. apply Hp, Hin. now right.
Qed.

Lemma linked_tail heap p rest : linked heap (p :: rest) → linked heap rest.
Proof. intros H i a b Ha Hb. apply (H (S i) a b); assumption. Qed.

Lemma linked_sorted heap path :
  wfHeap heap → linked heap path → StronglySorted lt path.
Proof.
  intros Hwf. induction path as [|p rest IH]; intros Hl; [constructor|].
  pose proof (IH (linked_tail _ _ _ Hl)) as Hs.
  constructor; [exact Hs|].
  destruct rest as [|q rest']; [constructor|].
  destruct (Hl 0%nat p q eq_refl eq_refl) as (n & cs & Hn & Hc).
  pose proof (Hwf p n Hn) as Hch. rewrite Hc, Forall_app, Forall_singleton in Hch.
  destruct Hch as [_ Hpq].
  apply StronglySorted_cons in Hs as [Hq _].
  constructor; [lia|]. eapply Forall_impl; [exact Hq|]. simpl. lia.
Qed.

Lemma last_elem_default (p : nat) (rest : list nat) :
  default 0%nat (last (p :: rest)) ∈ p :: rest.
Proof.
  destruct (last (p :: rest)) as [t|] eqn:Ht.
  - simpl. now apply last_Some_elem_of.
  - now apply last_None in Ht.
Qed.

(** A new object pushed as last child of the end of a path of last
    children is visited last, one level below the end of the path. *)
Lemma visit_append heap lvl txt rest : ∀ p F d,
  wfHeap heap →
  linked heap (p :: rest) →
  (∀ a, a ∈ p :: rest → (a < length heap)%nat) →
  StronglySorted lt ((visit F heap d [p]).*2) →
  (length heap ≤ F + p)%nat →
  visit (S F)
    (alter (pushChild (length heap)) (default 0%nat (last (p :: rest)))
       (heap ++ [BulletNode.mk lvl txt []])) d [p]
  = visit F heap d [p] ++ [(d + Z.of_nat (length (p :: rest)), length heap)].
Proof.
  induction rest as [|q rest IH]; intros p F d Hwf Hl Hr Hs Hfuel.
  - pose proof (Hr p ltac:(left)) as Hp.
    destruct (lookup_lt_is_Some_2 heap p Hp) as [n Hn].
    destruct F as [|f]; [lia|].
    rewrite (visit_single f heap d p n Hn) in Hs |- *.
    rewrite fmap_cons in Hs. apply StronglySorted_cons in Hs as [Hgt _]. cbn [snd] in Hgt.
    pose proof (Hwf p n Hn) as Hch. rewrite Forall_forall in Hch.
    assert (Efuel : visit (S f) heap (d + 1) (BulletNode.children n)
                    = visit f heap (d + 1) (BulletNode.children n)).
    { apply visit_fuel; [exact Hwf| |]; intros c Hc; specialize (Hch c Hc); lia. }
    simpl last. simpl default.
    erewrite visit_single.
    2: { rewrite list_lookup_alter_eq, lookup_app_l, Hn by exact Hp. reflexivity. }
    cbn [pushChild BulletNode.children]. rewrite visit_app.
    rewrite visit_untouched; [| exact Hwf | | ].
    + rewrite Efuel.
      erewrite visit_single.
      2: { rewrite list_lookup_alter_ne by lia.
           rewrite lookup_app_r by lia. rewrite Nat.sub_diag. reflexivity. }
      cbn [BulletNode.children]. rewrite visit_nil. reflexivity.
    + intros c Hc. specialize (Hch c Hc). lia.
    + intros e He. rewrite Efuel in He.
      rewrite Forall_forall in Hgt. specialize (Hgt e.2).
      assert (p < e.2)%nat by (apply Hgt; now apply list_elem_of_fmap_2). lia.
  - pose proof (Hr p ltac:(left)) as Hp.
    pose proof (Hr q ltac:(right; left)) as Hq.
    destruct (lookup_lt_is_Some_2 heap p Hp) as [n Hn].
    destruct (Hl 0%nat p q eq_refl eq_refl) as (n' & cs & Hn' & Hcs).
    rewrite Hn in Hn'. injection Hn' as <-.
    pose proof (Hwf p n Hn) as Hch. rewrite Forall_forall in Hch.
    assert (Hpq : (p < q)%nat).
    { specialize (Hch q). rewrite Hcs, elem_of_app, list_elem_of_singleton in Hch.
      specialize (Hch (or_intror eq_refl)). lia. }
    destruct F as [|f]; [lia|].
    destruct f as [|f]; [lia|].
    rewrite (visit_single (S f) heap d p n Hn) in Hs |- *.
    rewrite Hcs, visit_app in Hs |- *.
    rewrite fmap_cons in Hs. apply StronglySorted_cons in Hs as [_ Hs].
    rewrite fmap_app in Hs.
    pose proof (StronglySorted_app_1_r _ _ _ Hs) as Hsq.
    set (t := default 0%nat (last (p :: q :: rest))).
    assert (Ht : t ∈ q :: rest).
    { unfold t. rewrite last_cons_cons. apply last_elem_default. }
    pose proof (linked_sorted _ _ Hwf (linked_tail _ _ _ Hl)) as Hsorted.
    assert (Hqt : (q ≤ t)%nat).
    { apply StronglySorted_cons in Hsorted as [Hall _]. rewrite Forall_forall in Hall.
      apply elem_of_cons in Ht as [->|Ht]; [lia|]. specialize (Hall t Ht). lia. }
    assert (Efuel : visit (S (S f)) heap (d + 1) cs = visit (S f) heap (d + 1) cs).
    { apply visit_fuel; [exact Hwf| |]; intros c Hc;
        specialize (Hch c); rewrite Hcs, elem_of_app in Hch;
        specialize (Hch (or_introl Hc)); lia. }
    erewrite visit_single.
    2: { rewrite list_lookup_alter_ne by lia. rewrite lookup_app_l, Hn by exact Hp. reflexivity. }
    rewrite Hcs, visit_app.
    rewrite visit_untouched; [| exact Hwf | | ].
    + rewrite Efuel. unfold t. rewrite last_cons_cons.
      rewrite (IH q (S f) (d + 1) Hwf (linked_tail _ _ _ Hl)); [| |exact Hsq|lia].
      * replace (d + Z.of_nat (length (p :: q :: rest)))
          with (d + 1 + Z.of_nat (length (q :: rest))) by (cbn [length]; lia).
        rewrite <- !app_comm_cons, <- app_assoc. reflexivity.
      * intros a Ha. apply Hr. now right.
    + intros c Hc. specialize (Hch c). rewrite Hcs, elem_of_app in Hch.
      specialize (Hch (or_introl Hc)). lia.
    + intros e He. rewrite Efuel in He.
      destruct (lookup_lt_is_Some_2 heap q Hq) as [nq Hnq].
      rewrite (visit_single f heap (d + 1) q nq Hnq) in Hs.
      assert (e.2 < q)%nat; [|lia].
      apply (StronglySorted_app_1_elem_of _ _ _ _ _ Hs).
      * now apply list_elem_of_fmap_2.
      * rewrite fmap_cons. left.
Qed.

Lemma bulletDepths_length prev bs : length (bulletDepths prev bs) = length bs.
Proof.
  revert prev. induction bs as [|b bs IH]; intros prev; simpl; [reflexivity|].
  now rewrite IH.
Qed.

Lemma bulletDepths_snoc prev bs b :
  bulletDepths prev (bs ++ [b])
  = bulletDepths prev bs
    ++ [Z.min (bulletLevel b) (default prev (last (bulletDepths prev bs)) + 1)].
Proof.
  revert prev. induction bs as [|x bs IH]; intros prev; [reflexivity|].
  cbn [app bulletDepths]. cbv zeta. rewrite IH.
  do 4 f_equal.
  destruct (bulletDepths _ bs) as [|y l]; [reflexivity|].
  rewrite last_cons_cons.
  destruct (last (y :: l)) eqn:E; [reflexivity|]. now apply last_None in E.
Qed.

Lemma seq_sorted a n : StronglySorted lt (seq a n).
Proof.
  revert a. induction n as [|n IH]; intros a; simpl; constructor; [apply IH|].
  apply Forall_forall. intros x Hx. apply list_elem_of_In, in_seq in Hx. lia.
Qed.

Lemma linked_take heap path k : linked heap path → linked heap (take k path).
Proof.
  intros Hl i a b Ha Hb.
  apply lookup_take_Some in Ha as [Ha _]. apply lookup_take_Some in Hb as [Hb _].
  now apply (Hl i).
Qed.

(** A turn of the loop keeps the invariant. *)
Lemma pushBullet_inv bs st b :
  bulletInv bs st → bulletInv (bs ++ [b]) (pushBullet st b).
Proof.
  destruct st as [heap stack].
  intros (Hlen & Hwf & Hl & Hroot & Hr & Hvisit & Hdepth & Hdata).
  pose proof (bulletLevel_pos b) as Hlvl.
  set (lvl := bulletLevel b) in *.
  assert (Hstack : (1 ≤ length stack)%nat).
  { apply lookup_lt_Some in Hroot. lia. }
  unfold pushBullet. fold lvl.
  rewrite popWhile_take by lia.
  set (stack2 := take (Z.to_nat lvl) stack).
  assert (Hlen2 : length stack2 = Nat.min (Z.to_nat lvl) (length stack))
    by apply length_take.
  assert (Hif : (length stack2 =? 0)%nat = false) by (apply Nat.eqb_neq; lia).
  rewrite Hif.
  assert (Hroot2 : stack2 !! 0%nat = Some 0%nat).
  { unfold stack2. rewrite lookup_take_lt by lia. exact Hroot. }
  destruct stack2 as [|p0 rest] eqn:Hs2; [discriminate|].
  injection Hroot2 as ->.
  assert (Hl2 : linked heap (0%nat :: rest)).
  { rewrite <- Hs2. now apply linked_take. }
  assert (Hr2 : ∀ a, a ∈ 0%nat :: rest → (a < length heap)%nat).
  { intros a Ha. apply Hr. rewrite <- Hs2 in Ha.
    apply list_elem_of_lookup in Ha as [i Hi]. apply lookup_take_Some in Hi as [Hi _].
    now apply list_elem_of_lookup_2 in Hi. }
  set (t := default 0%nat (last (0%nat :: rest))).
  pose proof (last_elem_default 0%nat rest) as Ht. fold t in Ht.
  pose proof (Hr2 t Ht) as Htlen.
  destruct (lookup_lt_is_Some_2 heap t Htlen) as [nt Hnt].
  set (leaf := BulletNode.mk lvl (Bullet.text b) []).
  set (heap' := alter (pushChild (length heap)) t (heap ++ [leaf])).
  assert (Hlen' : length heap' = S (length heap)).
  { unfold heap'. rewrite length_alter, length_app. simpl. lia. }
  assert (Hlook : ∀ a, (a < length heap)%nat → a ≠ t → heap' !! a = heap !! a).
  { intros a Ha Hat. unfold heap'.
    rewrite list_lookup_alter_ne by congruence. now apply lookup_app_l. }
  assert (Hlookt : heap' !! t = Some (pushChild (length heap) nt)).
  { unfold heap'. rewrite list_lookup_alter_eq, lookup_app_l, Hnt by exact Htlen. reflexivity. }
  assert (Hlookc : heap' !! length heap = Some leaf).
  { unfold heap'. rewrite list_lookup_alter_ne by lia.
    rewrite lookup_app_r by lia. now rewrite Nat.sub_diag. }
  assert (Hsorted2 : StronglySorted lt (0%nat :: rest)) by now apply (linked_sorted heap).
  unfold bulletInv.
  split; [rewrite Hlen', length_app; simpl; lia|].
  split.
  { intros a n Hn.
    destruct (decide (a = t)) as [->|Hat].
    - rewrite Hlookt in Hn. injection Hn as <-. cbn [pushChild BulletNode.children].
      rewrite Forall_app, Forall_singleton. split; [|lia].
      eapply Forall_impl; [apply (Hwf t nt Hnt)|]. simpl. lia.
    - destruct (decide (a = length heap)) as [->|Hac].
      + rewrite Hlookc in Hn. injection Hn as <-. constructor.
      + assert (Ha : (a < length heap)%nat).
        { apply lookup_lt_Some in Hn. lia. }
        rewrite Hlook in Hn by assumption.
        eapply Forall_impl; [apply (Hwf a n Hn)|]. simpl. lia. }
  split.
  { intros i a c Ha Hc.
    destruct (decide (S i < length (0%nat :: rest))%nat) as [Hi|Hi].
    - rewrite lookup_app_l in Ha by lia. rewrite lookup_app_l in Hc by lia.
      destruct (Hl2 i a c Ha Hc) as (n & cs & Hn & Hcs).
      exists n, cs. split; [|exact Hcs].
      rewrite Hlook; [exact Hn | now apply lookup_lt_Some in Hn |].
      (* [a] has a successor on the path, so it is not its end *)
      intros ->.
      pose proof (take_drop_middle _ _ _ Ha) as Hsplit.
      rewrite <- Hsplit in Hsorted2.
      apply StronglySorted_app_1_r, StronglySorted_cons in Hsorted2 as [Hall _].
      rewrite Forall_forall in Hall.
      assert (Hc' : c ∈ drop (S i) (0%nat :: rest)).
      { apply list_elem_of_lookup. exists 0%nat. rewrite lookup_drop. now rewrite Nat.add_0_r. }
      pose proof (Hall c Hc') as Htc.
      assert (Hlast : last (0%nat :: rest) = Some t).
      { unfold t. destruct (last (0%nat :: rest)) eqn:E; [reflexivity|].
        now apply last_None in E. }
      rewrite <- Hsplit, last_app, last_cons in Hlast.
      destruct (last (drop (S i) (0%nat :: rest))) as [u|] eqn:Hu.
      + injection Hlast as ->. apply last_Some_elem_of in Hu.
        specialize (Hall t Hu). lia.
      + apply last_None in Hu. rewrite Hu in Hc'. now apply elem_of_nil in Hc'.
    - assert (Hi' : S i = length (0%nat :: rest)).
      { apply lookup_lt_Some in Hc. rewrite length_app in Hc. cbn [length] in Hc, Hi |- *. lia. }
      rewrite lookup_app_l in Ha by lia.
      rewrite lookup_app_r in Hc by lia.
      rewrite Hi', Nat.sub_diag in Hc. injection Hc as <-.
      assert (Hat : a = t).
      { unfold t. rewrite last_lookup. replace (pred (length (0%nat :: rest))) with i by lia.
        now rewrite Ha. }
      subst a. exists (pushChild (length heap) nt), (BulletNode.children nt).
      split; [exact Hlookt | reflexivity]. }
  split; [reflexivity|].
  split.
  { intros a Ha. rewrite Hlen'. apply elem_of_app in Ha as [Ha|Ha].
    - specialize (Hr2 a Ha). lia.
    - apply list_elem_of_singleton in Ha as ->. lia. }
  assert (Hnew : Z.of_nat (length (0%nat :: rest))
                 = Z.min lvl (default 0 (last (bulletDepths 0 bs)) + 1)).
  { rewrite Hlen2. lia. }
  split.
  { rewrite Hlen'. unfold heap', t, leaf.
    rewrite (visit_append heap lvl (Bullet.text b) rest 0%nat (length heap) 0 Hwf Hl2 Hr2).
    - rewrite Hvisit, bulletDepths_snoc, length_app. cbn [length].
      rewrite Nat.add_1_r, seq_S, zip_with_app by now rewrite bulletDepths_length, length_seq.
      cbn [zip_with]. cbn [length] in Hnew. fold lvl.
      rewrite <- Hnew, <- app_comm_cons. do 3 f_equal. f_equal; lia.
    - rewrite Hvisit, fmap_cons, snd_zip by (rewrite bulletDepths_length, length_seq; lia).
      apply (seq_sorted 0 (S (length bs))).
    - lia. }
  split.
  { rewrite bulletDepths_snoc, last_snoc, length_app. cbn [length default].
    fold lvl. rewrite <- Hnew. cbn [length]. unfold id. lia. }
  intros i x Hx.
  destruct (decide (i < length bs)%nat) as [Hi|Hi].
  - rewrite lookup_app_l in Hx by exact Hi.
    destruct (Hdata i x Hx) as (n & Hn & Hlv & Htx).
    destruct (decide (S i = t)) as [Heq|Hne].
    + exists (pushChild (length heap) n). rewrite Heq, Hlookt.
      rewrite Heq, Hnt in Hn. injection Hn as ->. repeat split; assumption.
    + exists n. rewrite Hlook; [repeat split; assumption | lia | exact Hne].
  - assert (Hi' : i = length bs).
    { apply lookup_lt_Some in Hx. rewrite length_app in Hx. simpl in Hx. lia. }
    subst i. rewrite list_lookup_middle in Hx by reflexivity. injection Hx as <-.
    exists leaf. rewrite <- Hlen, Hlookc. repeat split.
Qed.

Lemma buildBulletTree_inv bs : bulletInv bs (buildBulletTree bs).
Proof.
  unfold buildBulletTree. induction bs as [|b bs IH] using rev_ind.
  - simpl. split; [reflexivity|]. split.
    { intros a n Hn. destruct a; [|discriminate]. injection Hn as <-. constructor. }
    split. { intros i a b Ha Hb. destruct i; discriminate. }
    split; [reflexivity|]. split.
    { intros a Ha. apply list_elem_of_singleton in Ha as ->. simpl. lia. }
    split; [reflexivity|]. split; [reflexivity|].
    intros i b Hb. destruct i; discriminate.
  - rewrite foldl_snoc. now apply pushBullet_inv.
Qed.

(** Flattening what [renderList] draws gives the objects [visit] reaches. *)
Lemma renderList_entries heap F : ∀ d nodes,
  flat_map (entriesOf d) (renderList F heap nodes) = decorate heap <$> visit F heap d nodes.
Proof.
  induction F as [|F IH]; intros d nodes; [reflexivity|].
  cbn [renderList visit].
  induction nodes as [|a nodes IHn]; [reflexivity|].
  rewrite !bind_cons, flat_map_app, fmap_app, IHn. f_equal.
  destruct (heap !! a) as [n|] eqn:Ha; [|reflexivity].
  cbn [flat_map entriesOf]. rewrite app_nil_r, fmap_cons, IH.
  f_equal. unfold decorate. cbn [fst snd]. now rewrite Ha.
Qed.

(** The objects under the root, once the loop has run. *)
Lemma buildBulletTree_visit bs heap stack root :
  buildBulletTree bs = (heap, stack) →
  heap !! 0%nat = Some root →
  visit (length heap) heap 1 (BulletNode.children root)
  = zip (bulletDepths 0 bs) (seq 1 (length bs)).
Proof.
  intros Hb Hroot. pose proof (buildBulletTree_inv bs) as Hinv. rewrite Hb in Hinv.
  destruct Hinv as (Hlen & Hwf & _ & _ & _ & Hvisit & _ & _).
  rewrite Hlen in Hvisit. rewrite (visit_single _ _ _ _ _ Hroot) in Hvisit.
  injection Hvisit as Hvisit. rewrite <- Hvisit.
  apply visit_fuel; [exact Hwf | |]; intros a Ha;
    pose proof (Hwf _ _ Hroot) as Hc; rewrite Forall_forall in Hc;
    specialize (Hc a Ha); lia.
Qed.

Lemma decorate_zip heap bs ds :
  length ds = length bs →
  (∀ i b, bs !! i = Some b →
     ∃ n, heap !! S i = Some n
       ∧ BulletNode.level n = bulletLevel b ∧ BulletNode.text n = Bullet.text b) →
  decorate heap <$> zip ds (seq 1 (length bs))
  = zip_with (fun d b => (d, markerFor (bulletLevel b), Bullet.text b)) ds bs.
Proof.
  intros Hlen Hdata. apply list_eq. intros i.
  rewrite list_lookup_fmap, !lookup_zip_with.
  destruct (ds !! i) as [d|] eqn:Hd; [|reflexivity]. cbn [mbind option_bind].
  destruct (bs !! i) as [b|] eqn:Hbi.
  - rewrite lookup_seq_lt by (apply lookup_lt_Some in Hbi; lia).
    cbn [option_bind fmap option_map mbind]. destruct (Hdata i b Hbi) as (n & Hn & Hl & Ht).
    unfold decorate. cbn [fst snd]. replace (1 + i)%nat with (S i) by lia.
    cbn [option_fmap option_map fst snd]. now rewrite Hn, Hl, Ht.
  - apply lookup_ge_None in Hbi. apply lookup_lt_Some in Hd. lia.
Qed.

(** [renderNestedBullets] draws nothing ([null]) when no bullet has a
    text that is more than white space; otherwise it draws the bullets with
    such a text, each once and in their order, the marker of a bullet chosen
    by its level (0 counted as 1, and at least 1), and a bullet nested at the
    depth that is the smaller of its level and one more than the depth of the
    bullet drawn before it (the first one at depth 1): a jump of several
    levels nests one step only. *)
Theorem renderNestedBullets_outline (bullets : list Bullet.t) :
  let validBullets := List.filter validBullet bullets in
  match renderNestedBullets (Some bullets) with
  | None => validBullets = []
  | Some drawn =>
      validBullets ≠ []
      ∧ flat_map (entriesOf 1) drawn
        = zip_with (fun d b => (d, markerFor (bulletLevel b), Bullet.text b))
            (bulletDepths 0 validBullets) validBullets
  end.
Proof.
  intros validBullets. unfold renderNestedBullets. fold validBullets.
  destruct (Nat.eqb_spec (length bullets) 0) as [H0|H0].
  { destruct bullets; [reflexivity | discriminate]. }
  destruct (Nat.eqb_spec (length validBullets) 0) as [Hv|Hv].
  { destruct validBullets; [reflexivity | discriminate]. }
  pose proof (buildBulletTree_inv validBullets) as Hinv.
  destruct (buildBulletTree validBullets) as [heap stack] eqn:Hb.
  destruct Hinv as (Hlen & Hwf & _ & _ & _ & _ & _ & Hdata).
  destruct (heap !! 0%nat) as [root|] eqn:Hroot.
  - split; [intros E; now rewrite E in Hv|].
    rewrite renderList_entries, (buildBulletTree_visit _ _ _ _ Hb Hroot).
    apply decorate_zip; [apply bulletDepths_length | exact Hdata].
  - apply lookup_ge_None in Hroot. lia.
Qed.

Example renderNestedBullets_sample :
  renderNestedBullets (Some sampleBullets)
  = Some [Entry "●" "Ghusl"
            [Entry "■" "before sunset" []; Entry "○" "with the intention" []];
          Entry "●" "Two rakat" []].
Proof. vm_compute. reflexivity. Qed.
